(** * Constant folding for calls to built-in and internal functions

    A shallow embedding of [gcc/fold-const-call.cc]: the exactness gate
    applied to MPFR/MPC results, the real, complex and integer handlers,
    the closed-form special-value handlers and the string/memory cases of
    the dispatcher, followed by the properties proved about them.

    Conventions.  A C function that returns [bool] and writes [*result]
    becomes a function to [option]: [Some r] is "returned true with
    [*result = r]", [None] is "returned false".  A function returning
    [tree] or [NULL_TREE] becomes a function to [option tree].  The
    overloads of [fold_const_call_ss], [fold_const_call_sss] and
    [fold_const_call] are told apart by a suffix naming their operand
    kinds or arity. *)

From Stdlib Require Import ZArith Bool List Lia.
Import ListNotations.
Local Open Scope Z_scope.

(** ** Host integers *)

Definition HOST_BITS_PER_WIDE_INT : Z := 64.
Definition HOST_BITS_PER_LONG : Z := 64.
Definition HOST_BITS_PER_INT : Z := 32.

(** [sext_hwi src prec]: the low [prec] bits of [src], sign-extended. *)
Definition sext_hwi (src prec : Z) : Z :=
  (src + 2 ^ (prec - 1)) mod 2 ^ prec - 2 ^ (prec - 1).

(** [zext_hwi src prec]: the low [prec] bits of [src], zero-extended. *)
Definition zext_hwi (src prec : Z) : Z := src mod 2 ^ prec.

(** Conversion of a wider host integer to C [int] (two's complement wrap). *)
Definition to_int (z : Z) : Z := sext_hwi z HOST_BITS_PER_INT.

Definition INT_MAX : Z := 2 ^ (HOST_BITS_PER_INT - 1) - 1.

(** [labs] on a value that fits [long]. *)
Definition labs (z : Z) : Z := Z.abs z.

(** ** Real constants ([REAL_VALUE_TYPE])

    Modelled from the spec: [real.h] is not part of the sources at hand.
    The spec's RealConstant has a value class (zero, normal, infinite,
    NaN), a sign and, for normals, exponent and significand; the fields
    below are those of [struct real_value], with the significand words
    [sig[SIGSZ]] read as one [SIGNIFICAND_BITS]-bit number. *)

Inductive real_value_class : Set := rvc_zero | rvc_normal | rvc_inf | rvc_nan.

Definition rvc_eqb (a b : real_value_class) : bool :=
  match a, b with
  | rvc_zero, rvc_zero | rvc_normal, rvc_normal
  | rvc_inf, rvc_inf | rvc_nan, rvc_nan => true
  | _, _ => false
  end.

Record real_value : Set := mk_real_value {
  rv_cl : real_value_class;
  rv_decimal : bool;
  rv_sign : bool;
  rv_signalling : bool;
  rv_canonical : bool;
  rv_uexp : Z;
  rv_sig : Z
}.

Definition EXP_BITS : Z := 32 - 6.
Definition SIGNIFICAND_BITS : Z := 128 + HOST_BITS_PER_LONG.

(** [REAL_EXP]: the exponent field, stored unsigned in [EXP_BITS] bits,
    read back as a signed number. *)
Definition REAL_EXP (r : real_value) : Z :=
  Z.lxor (rv_uexp r) (2 ^ (EXP_BITS - 1)) - 2 ^ (EXP_BITS - 1).

Definition SET_REAL_EXP (r : real_value) (e : Z) : real_value :=
  mk_real_value (rv_cl r) (rv_decimal r) (rv_sign r) (rv_signalling r)
    (rv_canonical r) (Z.land e (2 ^ EXP_BITS - 1)) (rv_sig r).

(** Assignment to the [sign] bit-field. *)
Definition set_sign (r : real_value) (s : bool) : real_value :=
  mk_real_value (rv_cl r) (rv_decimal r) s (rv_signalling r)
    (rv_canonical r) (rv_uexp r) (rv_sig r).

(** Format descriptor ([struct real_format]), the fields the folder reads. *)
Record real_format : Set := mk_real_format {
  fmt_b : Z;
  fmt_p : Z;
  fmt_pnan : Z;
  fmt_emin : Z;
  fmt_emax : Z;
  fmt_round_towards_zero : bool;
  fmt_has_nans : bool;
  fmt_has_inf : bool;
  fmt_has_denorm : bool;
  fmt_has_signed_zero : bool
}.

(** The constants [dconst0], [dconst1], [dconst2], [dconstm1] and
    [dconstinf].  A normal number is [0.sig * 2^exp] with the top bit of
    the significand set, so 1 is [0.1b * 2^1]. *)
Definition SIG_TOP : Z := 2 ^ (SIGNIFICAND_BITS - 1).

Definition dconst0 : real_value :=
  mk_real_value rvc_zero false false false false 0 0.
Definition dconst1 : real_value :=
  mk_real_value rvc_normal false false false false 1 SIG_TOP.
Definition dconst2 : real_value :=
  mk_real_value rvc_normal false false false false 2 SIG_TOP.
Definition dconstm1 : real_value :=
  mk_real_value rvc_normal false true false false 1 SIG_TOP.
Definition dconstinf : real_value :=
  mk_real_value rvc_inf false false false false 0 0.

(** The encoding of the integer [n] as a binary constant: sign, exponent
    the bit length of [n], significand [n] shifted to the top.  It is
    exact for a magnitude below [2^SIGNIFICAND_BITS]; [real_of_Z 1] is
    [dconst1]. *)
Definition bit_length (n : Z) : Z :=
  if n =? 0 then 0 else Z.log2 (Z.abs n) + 1.

Definition real_of_Z (n : Z) : real_value :=
  if n =? 0 then dconst0
  else
    let len := bit_length n in
    mk_real_value rvc_normal false (n <? 0) false false
      (Z.land len (2 ^ EXP_BITS - 1))
      (Z.shiftl (Z.abs n) (SIGNIFICAND_BITS - len)).

(** The IEEE double format, as [real.cc] describes it. *)
Definition ieee_double_format : real_format :=
  mk_real_format 2 53 53 (-1021) 1024 false true true true true.

(** Inspection predicates of [real.cc] / [real.h]. *)
Definition real_isinf (r : real_value) : bool := rvc_eqb (rv_cl r) rvc_inf.
Definition real_isnan (r : real_value) : bool := rvc_eqb (rv_cl r) rvc_nan.
Definition real_isfinite (r : real_value) : bool :=
  negb (rvc_eqb (rv_cl r) rvc_inf) && negb (rvc_eqb (rv_cl r) rvc_nan).
Definition real_issignaling_nan (r : real_value) : bool :=
  rvc_eqb (rv_cl r) rvc_nan && rv_signalling r.
Definition REAL_VALUE_ISSIGNALING_NAN (r : real_value) : bool :=
  real_issignaling_nan r.
Definition real_isneg (r : real_value) : bool := rv_sign r.

(** [real_copysign (r, x)]: [r->sign = x->sign]. *)
Definition real_copysign (r x : real_value) : real_value :=
  set_sign r (rv_sign x).

(** [real_identical]: bitwise identity of the fields that carry the
    value; the significand of a canonical NaN is ignored. *)
Definition real_identical (a b : real_value) : bool :=
  if negb (rvc_eqb (rv_cl a) (rv_cl b)) then false
  else if negb (Bool.eqb (rv_sign a) (rv_sign b)) then false
  else
    match rv_cl a with
    | rvc_zero | rvc_inf => true
    | rvc_normal =>
        if negb (Bool.eqb (rv_decimal a) (rv_decimal b)) then false
        else if negb (REAL_EXP a =? REAL_EXP b) then false
        else rv_sig a =? rv_sig b
    | rvc_nan =>
        if negb (Bool.eqb (rv_signalling a) (rv_signalling b)) then false
        else if rv_canonical a || rv_canonical b
             then Bool.eqb (rv_canonical a) (rv_canonical b)
             else rv_sig a =? rv_sig b
    end.

(** ** Numeric-safety flags ([flag_*] of the global options) *)

Record options : Set := mk_options {
  flag_rounding_math : bool;
  flag_trapping_math : bool;
  flag_errno_math : bool;
  flag_signaling_nans : bool;
  flag_unsafe_math_optimizations : bool
}.

Inductive signop : Set := SIGNED | UNSIGNED.

Inductive tree_code : Set :=
  | PLUS_EXPR | MINUS_EXPR | MULT_EXPR
  | LT_EXPR | LE_EXPR | GT_EXPR | GE_EXPR | EQ_EXPR | NE_EXPR.

(** ** The software floating-point arithmetic of [real.cc]

    The folder calls these routines and never looks inside them; they are
    the operations of an interface.  [None] as a format stands for
    [VOIDmode].  [real_powi] and [real_nextafter] return their result
    together with the flag the C function returns. *)

Class RealArith : Type := {
  real_convert : real_format -> real_value -> real_value;
  real_value_truncate : real_format -> real_value -> real_value;
  real_from_integer : option real_format -> Z -> signop -> real_value;
  real_to_integer : real_value -> Z;
  real_powi : real_format -> real_value -> Z -> real_value * bool;
  real_ldexp : real_value -> Z -> real_value;
  real_nextafter : real_format -> real_value -> real_value -> real_value * bool;
  real_floor : real_format -> real_value -> real_value;
  real_ceil : real_format -> real_value -> real_value;
  real_trunc : real_format -> real_value -> real_value;
  real_round : real_format -> real_value -> real_value;
  real_roundeven : real_format -> real_value -> real_value;
  decimal_do_compare : real_value -> real_value -> Z -> Z
}.

(** ** The arbitrary-precision backend (MPFR, MPC) and its bridge

    [mpfr_t] is the working-precision number; an [mpc_t] is a pair of
    them ([mpc_realref], [mpc_imagref]).  The backend's exception flags
    are global state in C; here they are a record threaded through every
    call.  A backend function takes the flags and its operands and
    returns the result (written over its first operand in C), the ternary
    value and the new flags. *)

Inductive mpfr_rnd_t : Set := MPFR_RNDN | MPFR_RNDZ.
Inductive mpc_rnd_t : Set := MPC_RNDNN | MPC_RNDZZ.

Record mpfr_flags : Set := mk_mpfr_flags {
  mpfr_underflow_p : bool;
  mpfr_overflow_p : bool;
  mpfr_nanflag_p : bool;
  mpfr_inexflag_p : bool;
  mpfr_erangeflag_p : bool;
  mpfr_divby0_p : bool
}.

Definition mpfr_clear_flags : mpfr_flags :=
  mk_mpfr_flags false false false false false false.

(** The backend functions the handlers name. *)
Inductive mpfr_func1 : Set :=
  | mpfr_sqrt | mpfr_cbrt | mpfr_asin | mpfr_acos | mpfr_atan | mpfr_asinh
  | mpfr_acosh | mpfr_atanh | mpfr_sin | mpfr_cos | mpfr_tan | mpfr_sinh
  | mpfr_cosh | mpfr_tanh | mpfr_acospi | mpfr_asinpi | mpfr_atanpi
  | mpfr_cospi | mpfr_sinpi | mpfr_tanpi | mpfr_erf | mpfr_erfc | mpfr_gamma
  | mpfr_exp | mpfr_exp2 | mpfr_exp10 | mpfr_expm1 | mpfr_log | mpfr_log2
  | mpfr_log10 | mpfr_log1p | mpfr_j0 | mpfr_j1 | mpfr_y0 | mpfr_y1.

Inductive mpfr_func2 : Set :=
  | mpfr_remainder | mpfr_atan2 | mpfr_atan2pi | mpfr_dim | mpfr_fmod
  | mpfr_hypot | mpfr_min | mpfr_max | mpfr_pow.

Inductive mpfr_func2_si : Set := mpfr_jn | mpfr_yn.

Inductive mpfr_func3 : Set := mpfr_fma.

Inductive mpc_func1 : Set :=
  | mpc_cos | mpc_cosh | mpc_sin | mpc_sinh | mpc_tan | mpc_tanh | mpc_log
  | mpc_sqrt | mpc_asin | mpc_acos | mpc_atan | mpc_asinh | mpc_acosh
  | mpc_atanh | mpc_exp.

Inductive mpc_func2 : Set := mpc_pow.

Class MpfrLib : Type := {
  mpfr_t : Type;
  mpfr_number_p : mpfr_t -> bool;
  mpfr_zero_p : mpfr_t -> bool;
  (** [mpfr_from_real prec r rnd]: [r] stored in a number of precision [prec]. *)
  mpfr_from_real : Z -> real_value -> mpfr_rnd_t -> mpfr_t;
  real_from_mpfr : mpfr_t -> real_format -> mpfr_rnd_t -> real_value;
  mpfr_call1 : mpfr_func1 -> mpfr_flags -> mpfr_t -> mpfr_rnd_t ->
               mpfr_t * Z * mpfr_flags;
  mpfr_call2 : mpfr_func2 -> mpfr_flags -> mpfr_t -> mpfr_t -> mpfr_rnd_t ->
               mpfr_t * Z * mpfr_flags;
  mpfr_call2_si : mpfr_func2_si -> mpfr_flags -> Z -> mpfr_t -> mpfr_rnd_t ->
                  mpfr_t * Z * mpfr_flags;
  mpfr_call3 : mpfr_func3 -> mpfr_flags -> mpfr_t -> mpfr_t -> mpfr_t ->
               mpfr_rnd_t -> mpfr_t * Z * mpfr_flags;
  (** [mpfr_sin_cos]: sine, cosine, ternary value, flags. *)
  mpfr_sin_cos : mpfr_flags -> mpfr_t -> mpfr_rnd_t ->
                 mpfr_t * mpfr_t * Z * mpfr_flags;
  mpc_call1 : mpc_func1 -> mpfr_flags -> mpfr_t * mpfr_t -> mpc_rnd_t ->
              (mpfr_t * mpfr_t) * Z * mpfr_flags;
  mpc_call2 : mpc_func2 -> mpfr_flags -> mpfr_t * mpfr_t -> mpfr_t * mpfr_t ->
              mpc_rnd_t -> (mpfr_t * mpfr_t) * Z * mpfr_flags;
  (** [MPFR_VERSION >= MPFR_VERSION_NUM (4, 2, 0)], a build-time test. *)
  MPFR_VERSION_ge_4_2_0 : bool
}.

Definition mpc_realref {A : Type} (m : A * A) : A := fst m.
Definition mpc_imagref {A : Type} (m : A * A) : A := snd m.


(** ** Function identifiers ([combined_fn])

    The enumeration is generated ([case-cfn-macros.h] is not part of the
    sources at hand).  For the floating-point functions a constructor
    [CASE_CFN_F] stands for all the members that the labels [CASE_CFN_F:]
    and [CASE_CFN_F_FN:] of a switch cover (the built-in in each floating
    type and the internal function), which the handlers never tell
    apart.  Where a switch lists members one by one they are separate
    constructors. *)

Inductive combined_fn : Set :=
  (* real -> real *)
  | CASE_CFN_SQRT | CASE_CFN_CBRT | CASE_CFN_ASIN | CASE_CFN_ACOS
  | CASE_CFN_ATAN | CASE_CFN_ASINH | CASE_CFN_ACOSH | CASE_CFN_ATANH
  | CASE_CFN_SIN | CASE_CFN_COS | CASE_CFN_TAN | CASE_CFN_SINH
  | CASE_CFN_COSH | CASE_CFN_TANH | CASE_CFN_ACOSPI | CASE_CFN_ASINPI
  | CASE_CFN_ATANPI | CASE_CFN_COSPI | CASE_CFN_SINPI | CASE_CFN_TANPI
  | CASE_CFN_ERF | CASE_CFN_ERFC | CASE_CFN_TGAMMA | CASE_CFN_EXP
  | CASE_CFN_EXP2 | CASE_CFN_EXP10 | CASE_CFN_POW10 | CASE_CFN_EXPM1
  | CASE_CFN_LOG | CASE_CFN_LOG2 | CASE_CFN_LOG10 | CASE_CFN_LOG1P
  | CASE_CFN_J0 | CASE_CFN_J1 | CASE_CFN_Y0 | CASE_CFN_Y1
  | CASE_CFN_FLOOR | CASE_CFN_CEIL | CASE_CFN_TRUNC | CASE_CFN_ROUND
  | CASE_CFN_ROUNDEVEN | CASE_CFN_LOGB | CASE_CFN_SIGNIFICAND
  (* real, real -> real *)
  | CASE_CFN_DREM | CASE_CFN_REMAINDER | CASE_CFN_ATAN2 | CASE_CFN_ATAN2PI
  | CASE_CFN_FDIM | CASE_CFN_FMOD | CASE_CFN_HYPOT | CASE_CFN_COPYSIGN
  | CASE_CFN_FMIN | CASE_CFN_FMAX | CASE_CFN_POW | CASE_CFN_NEXTAFTER
  | CFN_BUILT_IN_NEXTAFTERF16B | CASE_CFN_NEXTTOWARD
  (* real, integer -> real and integer, real -> real *)
  | CASE_CFN_LDEXP | CASE_CFN_SCALBN | CASE_CFN_SCALBLN | CASE_CFN_POWI
  | CASE_CFN_JN | CASE_CFN_YN
  (* real, real, real -> real *)
  | CASE_CFN_FMA | CFN_FMS | CFN_FNMA | CFN_FNMS
  (* complex operands or results *)
  | CASE_CFN_CEXPI | CASE_CFN_CABS | CASE_CFN_CCOS | CASE_CFN_CCOSH
  | CASE_CFN_CPROJ | CASE_CFN_CSIN | CASE_CFN_CSINH | CASE_CFN_CTAN
  | CASE_CFN_CTANH | CASE_CFN_CLOG | CASE_CFN_CSQRT | CASE_CFN_CASIN
  | CASE_CFN_CACOS | CASE_CFN_CATAN | CASE_CFN_CASINH | CASE_CFN_CACOSH
  | CASE_CFN_CATANH | CASE_CFN_CEXP | CASE_CFN_CPOW
  (* integer -> integer *)
  | CFN_BUILT_IN_FFS | CFN_BUILT_IN_FFSL | CFN_BUILT_IN_FFSLL
  | CFN_BUILT_IN_FFSIMAX | CFN_FFS | CFN_BUILT_IN_FFSG
  | CFN_BUILT_IN_CLZ | CFN_BUILT_IN_CLZL | CFN_BUILT_IN_CLZLL
  | CFN_BUILT_IN_CLZIMAX | CFN_CLZ | CFN_BUILT_IN_CLZG
  | CFN_BUILT_IN_CTZ | CFN_BUILT_IN_CTZL | CFN_BUILT_IN_CTZLL
  | CFN_BUILT_IN_CTZIMAX | CFN_CTZ | CFN_BUILT_IN_CTZG
  | CFN_BUILT_IN_CLRSB | CFN_BUILT_IN_CLRSBL | CFN_BUILT_IN_CLRSBLL
  | CFN_BUILT_IN_CLRSBIMAX | CFN_CLRSB | CFN_BUILT_IN_CLRSBG
  | CFN_BUILT_IN_POPCOUNT | CFN_BUILT_IN_POPCOUNTL | CFN_BUILT_IN_POPCOUNTLL
  | CFN_BUILT_IN_POPCOUNTIMAX | CFN_POPCOUNT | CFN_BUILT_IN_POPCOUNTG
  | CFN_BUILT_IN_PARITY | CFN_BUILT_IN_PARITYL | CFN_BUILT_IN_PARITYLL
  | CFN_BUILT_IN_PARITYIMAX | CFN_PARITY | CFN_BUILT_IN_PARITYG
  | CFN_BUILT_IN_BSWAP16 | CFN_BUILT_IN_BSWAP32 | CFN_BUILT_IN_BSWAP64
  | CFN_BUILT_IN_BSWAP128
  (* overflow-checked arithmetic *)
  | CFN_UBSAN_CHECK_ADD | CFN_UBSAN_CHECK_SUB | CFN_UBSAN_CHECK_MUL
  | CFN_ADD_OVERFLOW | CFN_SUB_OVERFLOW | CFN_MUL_OVERFLOW
  (* bounded string and memory functions *)
  | CFN_BUILT_IN_STRNCMP | CFN_BUILT_IN_STRNCASECMP | CFN_BUILT_IN_BCMP
  | CFN_BUILT_IN_MEMCMP | CFN_BUILT_IN_MEMCHR.

(** ** Types and constants of the surrounding compiler

    Modelled from the spec: [tree.h] and the machine-mode tables are not
    part of the sources at hand.  The spec's ConstantValue is a tagged
    variant (integer constant, byte literal, ...) and an operand may also
    be "not a foldable constant"; the types carry a bit width and a
    signedness, and a complex type has an element type. *)

Inductive machine_mode : Set :=
  BLKmode | QImode | HImode | SImode | DImode | TImode.

Inductive tree_type : Set :=
  | INTEGER_TYPE (precision : N) (sgn : signop) (mode : machine_mode)
  | BITINT_TYPE (precision : N) (sgn : signop)
  | POINTER_TYPE (precision : N)
  | COMPLEX_TYPE (elt : tree_type).

Definition TYPE_PRECISION (t : tree_type) : N :=
  match t with
  | INTEGER_TYPE precision _ _ | BITINT_TYPE precision _
  | POINTER_TYPE precision => precision
  | COMPLEX_TYPE _ => 0%N
  end.

Definition TYPE_SIGN (t : tree_type) : signop :=
  match t with
  | INTEGER_TYPE _ sgn _ | BITINT_TYPE _ sgn => sgn
  | POINTER_TYPE _ | COMPLEX_TYPE _ => UNSIGNED
  end.

Definition SCALAR_INT_TYPE_MODE (t : tree_type) : machine_mode :=
  match t with
  | INTEGER_TYPE _ _ mode => mode
  | _ => BLKmode
  end.

Definition signop_eqb (a b : signop) : bool :=
  match a, b with
  | SIGNED, SIGNED | UNSIGNED, UNSIGNED => true
  | _, _ => false
  end.

Definition machine_mode_eqb (a b : machine_mode) : bool :=
  match a, b with
  | BLKmode, BLKmode | QImode, QImode | HImode, HImode
  | SImode, SImode | DImode, DImode | TImode, TImode => true
  | _, _ => false
  end.

(** Identity of type nodes ([itype == type] in C). *)
Fixpoint tree_type_eqb (a b : tree_type) : bool :=
  match a, b with
  | INTEGER_TYPE p1 s1 m1, INTEGER_TYPE p2 s2 m2 =>
      (p1 =? p2)%N && signop_eqb s1 s2 && machine_mode_eqb m1 m2
  | BITINT_TYPE p1 s1, BITINT_TYPE p2 s2 => (p1 =? p2)%N && signop_eqb s1 s2
  | POINTER_TYPE p1, POINTER_TYPE p2 => (p1 =? p2)%N
  | COMPLEX_TYPE e1, COMPLEX_TYPE e2 => tree_type_eqb e1 e2
  | _, _ => false
  end.

(** Operands and results.  [INTEGER_CST] holds the mathematical value of
    the constant in its type and its [TREE_OVERFLOW] flag.  [STRING_ADDR]
    is the address of a literal buffer whose bytes are all known (the
    spec's ByteLiteral); [POINTER_PLUS] is an address a constant number of
    bytes further.  [EXPR] is any operand that is not a constant, with
    its [TREE_SIDE_EFFECTS] flag. *)
Inductive tree : Set :=
  | INTEGER_CST (type : tree_type) (value : Z) (overflow : bool)
  | COMPLEX_CST (type : tree_type) (real imag : tree)
  | STRING_ADDR (bytes : list Z)
  | POINTER_PLUS (type : tree_type) (base : tree) (off : Z)
  | EXPR (type : tree_type) (side_effects : bool).

(** The compilation target: the macros of [tm.h] and [size_type_node].
    [CLZ_DEFINED_VALUE_AT_ZERO (mode, value)] is read as the pair of the
    macro's value and of the [int] it stores in [value]. *)
Class Target : Type := {
  CLZ_DEFINED_VALUE_AT_ZERO : machine_mode -> Z * Z;
  CTZ_DEFINED_VALUE_AT_ZERO : machine_mode -> Z * Z;
  size_type_node : tree_type;
  pointer_precision : N
}.
Definition b2z (x : bool) : Z := if x then 1 else 0.

(** ** Wide integers ([wide_int], namespace [wi])

    Modelled from the spec: [wide-int.h] is not part of the sources at
    hand.  An IntegerConstant is an exact integer of a given bit width;
    the bit-counting operations follow the reference bit definitions.
    [wi_val] is any integer whose low [wi_precision] bits are the value:
    every reader looks at those bits only. *)

Record wide_int : Set := mk_wide_int { wi_val : Z; wi_precision : N }.

Module wi.

(** The value read as an unsigned, respectively signed, number. *)
Definition to_unsigned (x : wide_int) : Z :=
  zext_hwi (wi_val x) (Z.of_N (wi_precision x)).

Definition to_signed (x : wide_int) : Z :=
  sext_hwi (wi_val x) (Z.of_N (wi_precision x)).

(** [wi::shwi (val, precision)]. *)
Definition shwi (val : Z) (precision : N) : wide_int :=
  mk_wide_int (zext_hwi val (Z.of_N precision)) precision.

Definition zero (precision : N) : wide_int := shwi 0 precision.
Definition one (precision : N) : wide_int := shwi 1 precision.

(** [x.to_shwi ()]: the low [HOST_BITS_PER_WIDE_INT] bits, signed. *)
Definition to_shwi (x : wide_int) : Z :=
  if Z.of_N (wi_precision x) <? HOST_BITS_PER_WIDE_INT
  then sext_hwi (wi_val x) (Z.of_N (wi_precision x))
  else sext_hwi (wi_val x) HOST_BITS_PER_WIDE_INT.

(** A host integer used as an operand next to [x] is read in the
    precision of [x]. *)
Definition hwi_operand (x : wide_int) (y : Z) : Z :=
  if Z.of_N (wi_precision x) <? HOST_BITS_PER_WIDE_INT
  then sext_hwi y (Z.of_N (wi_precision x))
  else y.

Definition ne_p (x : wide_int) (y : Z) : bool :=
  negb (to_signed x =? hwi_operand x y).

(** Signed [<=] and [>=] against a host integer. *)
Definition les_p (x : wide_int) (y : Z) : bool :=
  to_signed x <=? hwi_operand x y.

Definition ges_p (x : wide_int) (y : Z) : bool :=
  hwi_operand x y <=? to_signed x.

(** Leading zeros: scan from bit [n - 1] down to bit 0. *)
Fixpoint clz_aux (n : nat) (v : Z) : Z :=
  match n with
  | O => 0
  | S k => if Z.testbit v (Z.of_nat k) then 0 else 1 + clz_aux k v
  end.

Definition clz (x : wide_int) : Z :=
  clz_aux (N.to_nat (wi_precision x)) (wi_val x).

(** Trailing zeros: scan [n] bits upwards from bit [i]. *)
Fixpoint ctz_aux (n : nat) (i : Z) (v : Z) : Z :=
  match n with
  | O => 0
  | S k => if Z.testbit v i then 0 else 1 + ctz_aux k (i + 1) v
  end.

Definition ctz (x : wide_int) : Z :=
  ctz_aux (N.to_nat (wi_precision x)) 0 (wi_val x).

Definition ffs (x : wide_int) : Z :=
  if to_unsigned x =? 0 then 0 else ctz x + 1.

Fixpoint popcount_aux (n : nat) (v : Z) : Z :=
  match n with
  | O => 0
  | S k => b2z (Z.testbit v (Z.of_nat k)) + popcount_aux k v
  end.

Definition popcount (x : wide_int) : Z :=
  popcount_aux (N.to_nat (wi_precision x)) (wi_val x).

Definition parity (x : wide_int) : Z := Z.land (popcount x) 1.

(** Redundant sign bits: the leading bits equal to the sign bit, less one. *)
Definition clrsb (x : wide_int) : Z :=
  let n := N.to_nat (wi_precision x) in
  (if to_signed x <? 0 then clz_aux n (Z.lnot (wi_val x))
   else clz_aux n (wi_val x)) - 1.

Fixpoint bswap_aux (nbytes : nat) (v : Z) : Z :=
  match nbytes with
  | O => 0
  | S k => Z.lor (Z.shiftl (Z.land v 255) (8 * Z.of_nat k))
                 (bswap_aux k (Z.shiftr v 8))
  end.

Definition bswap (x : wide_int) : wide_int :=
  mk_wide_int (bswap_aux (N.to_nat (wi_precision x / 8)) (to_unsigned x))
              (wi_precision x).

(** [wide_int::from (x, precision, sgn)]. *)
Definition from (x : wide_int) (precision : N) (sgn : signop) : wide_int :=
  shwi (match sgn with SIGNED => to_signed x | UNSIGNED => to_unsigned x end)
       precision.

End wi.

(** ** The folder *)

Section Folder.

Context {RA : RealArith} {ML : MpfrLib}.
Variable opts : options.

(** *** Comparison of real constants ([do_compare], [real_compare]) *)

(** [cmp_significands]: -1, 0 or 1, most significant word first. *)
Definition cmp_significands (a b : real_value) : Z :=
  match rv_sig a ?= rv_sig b with
  | Lt => -1
  | Eq => 0
  | Gt => 1
  end.

Definition do_compare (a b : real_value) (nan_result : Z) : Z :=
  let normal_normal :=
    if negb (Bool.eqb (rv_sign a) (rv_sign b))
    then b2z (rv_sign b) - b2z (rv_sign a)
    else if rv_decimal a || rv_decimal b
    then decimal_do_compare a b nan_result
    else
      let ret :=
        if REAL_EXP b <? REAL_EXP a then 1
        else if REAL_EXP a <? REAL_EXP b then -1
        else cmp_significands a b in
      if rv_sign a then - ret else ret in
  match rv_cl a, rv_cl b with
  | rvc_zero, rvc_zero => 0
  | rvc_normal, rvc_zero =>
      if rv_decimal a then decimal_do_compare a b nan_result
      else if rv_sign a then -1 else 1
  | rvc_inf, rvc_zero | rvc_inf, rvc_normal =>
      if rv_sign a then -1 else 1
  | rvc_inf, rvc_inf => b2z (rv_sign b) - b2z (rv_sign a)
  | rvc_zero, rvc_normal =>
      if rv_decimal b then decimal_do_compare a b nan_result
      else if rv_sign b then 1 else -1
  | rvc_zero, rvc_inf | rvc_normal, rvc_inf =>
      if rv_sign b then 1 else -1
  | _, rvc_nan | rvc_nan, _ => nan_result
  | rvc_normal, rvc_normal => normal_normal
  end.

Definition real_less (op0 op1 : real_value) : bool :=
  do_compare op0 op1 1 <? 0.

Definition real_equal (op0 op1 : real_value) : bool :=
  do_compare op0 op1 (-1) =? 0.

(** [real_compare]: the ordered comparisons; any other code is
    [gcc_unreachable] for the callers below and yields [false] here. *)
Definition real_compare (icode : tree_code) (op0 op1 : real_value) : bool :=
  match icode with
  | LT_EXPR => real_less op0 op1
  | LE_EXPR => do_compare op0 op1 1 <=? 0
  | GT_EXPR => 0 <? do_compare op0 op1 (-1)
  | GE_EXPR => 0 <=? do_compare op0 op1 (-1)
  | EQ_EXPR => real_equal op0 op1
  | NE_EXPR => negb (do_compare op0 op1 (-1) =? 0)
  | _ => false
  end.

(** *** The exactness gate *)

(** [do_mpfr_ckconv]: [m] is the result of a backend call made with clear
    flags, [st] the flags after it, [inexact] whether it was inexact. *)
Definition do_mpfr_ckconv (st : mpfr_flags) (m : mpfr_t) (inexact : bool)
    (format : real_format) : option real_value :=
  if negb (mpfr_number_p m)
     || mpfr_overflow_p st
     || mpfr_underflow_p st
     || (flag_rounding_math opts && inexact)
  then None
  else
    let tmp := real_from_mpfr m format MPFR_RNDN in
    if negb (real_isfinite tmp)
       || xorb (rvc_eqb (rv_cl tmp) rvc_zero) (mpfr_zero_p m)
    then None
    else
      let result := real_convert format tmp in
      if real_identical result tmp then Some result else None.

(** [do_mpc_ckconv]: the same test on both parts of a complex result. *)
Definition do_mpc_ckconv (st : mpfr_flags) (m : mpfr_t * mpfr_t)
    (inexact : bool) (format : real_format)
    : option (real_value * real_value) :=
  if negb (mpfr_number_p (mpc_realref m))
     || negb (mpfr_number_p (mpc_imagref m))
     || mpfr_overflow_p st
     || mpfr_underflow_p st
     || (flag_rounding_math opts && inexact)
  then None
  else
    let tmp_real := real_from_mpfr (mpc_realref m) format MPFR_RNDN in
    let tmp_imag := real_from_mpfr (mpc_imagref m) format MPFR_RNDN in
    if negb (real_isfinite tmp_real)
       || negb (real_isfinite tmp_imag)
       || xorb (rvc_eqb (rv_cl tmp_real) rvc_zero)
               (mpfr_zero_p (mpc_realref m))
       || xorb (rvc_eqb (rv_cl tmp_imag) rvc_zero)
               (mpfr_zero_p (mpc_imagref m))
    then None
    else
      let result_real := real_convert format tmp_real in
      let result_imag := real_convert format tmp_imag in
      if real_identical result_real tmp_real
         && real_identical result_imag tmp_imag
      then Some (result_real, result_imag)
      else None.

(** The ternary value of a backend call, converted to [bool]. *)
Definition inexact_of (ternary : Z) : bool := negb (ternary =? 0).

Definition mpfr_rnd_of (format : real_format) : mpfr_rnd_t :=
  if fmt_round_towards_zero format then MPFR_RNDZ else MPFR_RNDN.

Definition mpc_rnd_of (format : real_format) : mpc_rnd_t :=
  if fmt_round_towards_zero format then MPC_RNDZZ else MPC_RNDNN.

(** *** The generic evaluators *)

(** [do_mpfr_arg1]: [result = f (arg)]. *)
Definition do_mpfr_arg1 (func : mpfr_func1) (arg : real_value)
    (format : real_format) : option real_value :=
  if negb (fmt_b format =? 2) || negb (real_isfinite arg) then None
  else
    let prec := fmt_p format in
    let rnd := mpfr_rnd_of format in
    let m := mpfr_from_real prec arg MPFR_RNDN in
    let '(m, ternary, st) := mpfr_call1 func mpfr_clear_flags m rnd in
    do_mpfr_ckconv st m (inexact_of ternary) format.

(** [do_mpfr_sincos]: the pair (sine, cosine). *)
Definition do_mpfr_sincos (arg : real_value) (format : real_format)
    : option (real_value * real_value) :=
  if negb (fmt_b format =? 2) || negb (real_isfinite arg) then None
  else
    let prec := fmt_p format in
    let rnd := mpfr_rnd_of format in
    let m := mpfr_from_real prec arg MPFR_RNDN in
    let '(ms, mc, ternary, st) := mpfr_sin_cos mpfr_clear_flags m rnd in
    match do_mpfr_ckconv st ms (inexact_of ternary) format with
    | None => None
    | Some result_sin =>
        match do_mpfr_ckconv st mc (inexact_of ternary) format with
        | None => None
        | Some result_cos => Some (result_sin, result_cos)
        end
    end.

(** [do_mpfr_arg2]: [result = f (arg0, arg1)]. *)
Definition do_mpfr_arg2 (func : mpfr_func2) (arg0 arg1 : real_value)
    (format : real_format) : option real_value :=
  if negb (fmt_b format =? 2)
     || negb (real_isfinite arg0)
     || negb (real_isfinite arg1)
  then None
  else
    let prec := fmt_p format in
    let rnd := mpfr_rnd_of format in
    let m0 := mpfr_from_real prec arg0 MPFR_RNDN in
    let m1 := mpfr_from_real prec arg1 MPFR_RNDN in
    let '(m0, ternary, st) := mpfr_call2 func mpfr_clear_flags m0 m1 rnd in
    do_mpfr_ckconv st m0 (inexact_of ternary) format.

(** [do_mpfr_arg2], integer first operand: [result = f (arg0, arg1)]. *)
Definition do_mpfr_arg2_si (func : mpfr_func2_si) (arg0 : wide_int)
    (arg1 : real_value) (format : real_format) : option real_value :=
  if negb (fmt_b format =? 2) || negb (real_isfinite arg1) then None
  else
    let prec := fmt_p format in
    let rnd := mpfr_rnd_of format in
    let m := mpfr_from_real prec arg1 MPFR_RNDN in
    let '(m, ternary, st) :=
      mpfr_call2_si func mpfr_clear_flags (wi.to_shwi arg0) m rnd in
    do_mpfr_ckconv st m (inexact_of ternary) format.

(** [do_mpfr_arg3]: [result = f (arg0, arg1, arg2)]. *)
Definition do_mpfr_arg3 (func : mpfr_func3) (arg0 arg1 arg2 : real_value)
    (format : real_format) : option real_value :=
  if negb (fmt_b format =? 2)
     || negb (real_isfinite arg0)
     || negb (real_isfinite arg1)
     || negb (real_isfinite arg2)
  then None
  else
    let prec := fmt_p format in
    let rnd := mpfr_rnd_of format in
    let m0 := mpfr_from_real prec arg0 MPFR_RNDN in
    let m1 := mpfr_from_real prec arg1 MPFR_RNDN in
    let m2 := mpfr_from_real prec arg2 MPFR_RNDN in
    let '(m0, ternary, st) :=
      mpfr_call3 func mpfr_clear_flags m0 m1 m2 rnd in
    do_mpfr_ckconv st m0 (inexact_of ternary) format.

(** [do_mpc_arg1]: [result = f (arg)] on (real, imaginary) pairs. *)
Definition do_mpc_arg1 (func : mpc_func1) (arg_real arg_imag : real_value)
    (format : real_format) : option (real_value * real_value) :=
  if negb (fmt_b format =? 2)
     || negb (real_isfinite arg_real)
     || negb (real_isfinite arg_imag)
  then None
  else
    let prec := fmt_p format in
    let crnd := mpc_rnd_of format in
    let m := (mpfr_from_real prec arg_real MPFR_RNDN,
              mpfr_from_real prec arg_imag MPFR_RNDN) in
    let '(m, ternary, st) := mpc_call1 func mpfr_clear_flags m crnd in
    do_mpc_ckconv st m (inexact_of ternary) format.

(** [do_mpc_arg2]: [result = f (arg0, arg1)]; the radix is not tested. *)
Definition do_mpc_arg2 (func : mpc_func2)
    (arg0_real arg0_imag arg1_real arg1_imag : real_value)
    (format : real_format) : option (real_value * real_value) :=
  if negb (real_isfinite arg0_real)
     || negb (real_isfinite arg0_imag)
     || negb (real_isfinite arg1_real)
     || negb (real_isfinite arg1_imag)
  then None
  else
    let prec := fmt_p format in
    let crnd := mpc_rnd_of format in
    let m0 := (mpfr_from_real prec arg0_real MPFR_RNDN,
               mpfr_from_real prec arg0_imag MPFR_RNDN) in
    let m1 := (mpfr_from_real prec arg1_real MPFR_RNDN,
               mpfr_from_real prec arg1_imag MPFR_RNDN) in
    let '(m0, ternary, st) := mpc_call2 func mpfr_clear_flags m0 m1 crnd in
    do_mpc_ckconv st m0 (inexact_of ternary) format.

(** *** Special-value handlers *)

(** [fold_const_logb]: [result = logb (arg)]. *)
Definition fold_const_logb (arg : real_value) (format : real_format)
    : option real_value :=
  match rv_cl arg with
  | rvc_nan =>
      (* If arg is +-NaN, then return it.  *)
      Some arg
  | rvc_inf =>
      (* If arg is +-Inf, then return +Inf.  *)
      Some (set_sign arg false)
  | rvc_zero =>
      (* Zero may set errno and/or raise an exception.  *)
      None
  | rvc_normal =>
      if fmt_b format =? 2
      then Some (real_from_integer (Some format) (REAL_EXP arg - 1) SIGNED)
      else None
  end.

(** [fold_const_significand]: [result = significand (arg)]. *)
Definition fold_const_significand (arg : real_value) (format : real_format)
    : option real_value :=
  match rv_cl arg with
  | rvc_zero | rvc_nan | rvc_inf =>
      (* If arg is +-0, +-Inf or +-NaN, then return it.  *)
      Some arg
  | rvc_normal =>
      if fmt_b format =? 2 then Some (SET_REAL_EXP arg 1) else None
  end.

(** [fold_const_pow]: [result = pow (arg0, arg1)]. *)
Definition fold_const_pow (arg0 arg1 : real_value) (format : real_format)
    : option real_value :=
  match do_mpfr_arg2 mpfr_pow arg0 arg1 format with
  | Some result => Some result
  | None =>
      (* Check for an integer exponent.  *)
      let n1 := real_to_integer arg1 in
      let cint1 := real_from_integer None n1 SIGNED in
      if real_identical arg1 cint1
         && ((0 <? n1)
             || (negb (flag_trapping_math opts) && negb (flag_errno_math opts))
             || negb (real_equal arg0 dconst0))
      then
        let '(result, inexact) := real_powi format arg0 n1 in
        if flag_unsafe_math_optimizations opts
           || (negb inexact
               && negb (flag_signaling_nans opts
                        && REAL_VALUE_ISSIGNALING_NAN arg0))
        then Some result
        else None
      else None
  end.

(** [fold_const_nextafter]: [nextafter] and [nexttoward]. *)
Definition fold_const_nextafter (arg0 arg1 : real_value)
    (format : real_format) : option real_value :=
  if REAL_VALUE_ISSIGNALING_NAN arg0 || REAL_VALUE_ISSIGNALING_NAN arg1
  then None
  else if (fmt_pnan format <? fmt_p format)
          || (fmt_b format =? 10)
          || negb (fmt_has_inf format)
          || negb (fmt_has_denorm format)
  then None
  else
    let '(result, raised) := real_nextafter format arg0 arg1 in
    if raised && (flag_trapping_math opts || flag_errno_math opts)
    then None
    else if flag_trapping_math opts
            && rvc_eqb (rv_cl arg0) rvc_zero
            && negb (rvc_eqb (rv_cl result) rvc_zero)
    then None
    else Some (real_convert format result).

(** [fold_const_builtin_load_exponent]: [result = ldexp (arg0, arg1)]. *)
Definition fold_const_builtin_load_exponent (arg0 : real_value)
    (arg1 : wide_int) (format : real_format) : option real_value :=
  (* Bound the maximum adjustment to twice the range of the mode's valid
     exponents.  *)
  let max_exp_adj := to_int (2 * labs (fmt_emax format - fmt_emin format)) in
  if wi.les_p arg1 (- max_exp_adj) || wi.ges_p arg1 max_exp_adj then None
  else if negb (flag_unsafe_math_optimizations opts)
          && flag_signaling_nans opts
          && REAL_VALUE_ISSIGNALING_NAN arg0
  then None
  else
    let initial_result := real_ldexp arg0 (to_int (wi.to_shwi arg1)) in
    (* Ensure we didn't overflow.  *)
    if real_isinf initial_result then None
    else
      let result := real_value_truncate format initial_result in
      if real_equal initial_result result then Some result else None.

(** *** Real handlers *)


(** [fold_const_call_ss], real operand and real result. *)
Definition fold_const_call_ss_real (fn : combined_fn) (arg : real_value)
    (format : real_format) : option real_value :=
  match fn with
  | CASE_CFN_SQRT =>
      if real_compare GE_EXPR arg dconst0
      then do_mpfr_arg1 mpfr_sqrt arg format else None
  | CASE_CFN_CBRT => do_mpfr_arg1 mpfr_cbrt arg format
  | CASE_CFN_ASIN =>
      if real_compare GE_EXPR arg dconstm1 && real_compare LE_EXPR arg dconst1
      then do_mpfr_arg1 mpfr_asin arg format else None
  | CASE_CFN_ACOS =>
      if real_compare GE_EXPR arg dconstm1 && real_compare LE_EXPR arg dconst1
      then do_mpfr_arg1 mpfr_acos arg format else None
  | CASE_CFN_ATAN => do_mpfr_arg1 mpfr_atan arg format
  | CASE_CFN_ASINH => do_mpfr_arg1 mpfr_asinh arg format
  | CASE_CFN_ACOSH =>
      if real_compare GE_EXPR arg dconst1
      then do_mpfr_arg1 mpfr_acosh arg format else None
  | CASE_CFN_ATANH =>
      if real_compare GE_EXPR arg dconstm1 && real_compare LE_EXPR arg dconst1
      then do_mpfr_arg1 mpfr_atanh arg format else None
  | CASE_CFN_SIN => do_mpfr_arg1 mpfr_sin arg format
  | CASE_CFN_COS => do_mpfr_arg1 mpfr_cos arg format
  | CASE_CFN_TAN => do_mpfr_arg1 mpfr_tan arg format
  | CASE_CFN_SINH => do_mpfr_arg1 mpfr_sinh arg format
  | CASE_CFN_COSH => do_mpfr_arg1 mpfr_cosh arg format
  | CASE_CFN_TANH => do_mpfr_arg1 mpfr_tanh arg format
  | CASE_CFN_ACOSPI =>
      if MPFR_VERSION_ge_4_2_0 then
        if real_compare GE_EXPR arg dconstm1
           && real_compare LE_EXPR arg dconst1
        then do_mpfr_arg1 mpfr_acospi arg format else None
      else None
  | CASE_CFN_ASINPI =>
      if MPFR_VERSION_ge_4_2_0 then
        if real_compare GE_EXPR arg dconstm1
           && real_compare LE_EXPR arg dconst1
        then do_mpfr_arg1 mpfr_asinpi arg format else None
      else None
  | CASE_CFN_ATANPI =>
      if MPFR_VERSION_ge_4_2_0
      then do_mpfr_arg1 mpfr_atanpi arg format else None
  | CASE_CFN_COSPI =>
      if MPFR_VERSION_ge_4_2_0
      then do_mpfr_arg1 mpfr_cospi arg format else None
  | CASE_CFN_SINPI =>
      if MPFR_VERSION_ge_4_2_0
      then do_mpfr_arg1 mpfr_sinpi arg format else None
  | CASE_CFN_TANPI =>
      if MPFR_VERSION_ge_4_2_0
      then do_mpfr_arg1 mpfr_tanpi arg format else None
  | CASE_CFN_ERF => do_mpfr_arg1 mpfr_erf arg format
  | CASE_CFN_ERFC => do_mpfr_arg1 mpfr_erfc arg format
  | CASE_CFN_TGAMMA => do_mpfr_arg1 mpfr_gamma arg format
  | CASE_CFN_EXP => do_mpfr_arg1 mpfr_exp arg format
  | CASE_CFN_EXP2 => do_mpfr_arg1 mpfr_exp2 arg format
  | CASE_CFN_EXP10 | CASE_CFN_POW10 => do_mpfr_arg1 mpfr_exp10 arg format
  | CASE_CFN_EXPM1 => do_mpfr_arg1 mpfr_expm1 arg format
  | CASE_CFN_LOG =>
      if real_compare GT_EXPR arg dconst0
      then do_mpfr_arg1 mpfr_log arg format else None
  | CASE_CFN_LOG2 =>
      if real_compare GT_EXPR arg dconst0
      then do_mpfr_arg1 mpfr_log2 arg format else None
  | CASE_CFN_LOG10 =>
      if real_compare GT_EXPR arg dconst0
      then do_mpfr_arg1 mpfr_log10 arg format else None
  | CASE_CFN_LOG1P =>
      if real_compare GT_EXPR arg dconstm1
      then do_mpfr_arg1 mpfr_log1p arg format else None
  | CASE_CFN_J0 => do_mpfr_arg1 mpfr_j0 arg format
  | CASE_CFN_J1 => do_mpfr_arg1 mpfr_j1 arg format
  | CASE_CFN_Y0 =>
      if real_compare GT_EXPR arg dconst0
      then do_mpfr_arg1 mpfr_y0 arg format else None
  | CASE_CFN_Y1 =>
      if real_compare GT_EXPR arg dconst0
      then do_mpfr_arg1 mpfr_y1 arg format else None
  | CASE_CFN_FLOOR =>
      if negb (REAL_VALUE_ISSIGNALING_NAN arg)
      then Some (real_floor format arg) else None
  | CASE_CFN_CEIL =>
      if negb (REAL_VALUE_ISSIGNALING_NAN arg)
      then Some (real_ceil format arg) else None
  | CASE_CFN_TRUNC =>
      if negb (REAL_VALUE_ISSIGNALING_NAN arg)
      then Some (real_trunc format arg) else None
  | CASE_CFN_ROUND =>
      if negb (REAL_VALUE_ISSIGNALING_NAN arg)
      then Some (real_round format arg) else None
  | CASE_CFN_ROUNDEVEN =>
      if negb (REAL_VALUE_ISSIGNALING_NAN arg)
      then Some (real_roundeven format arg) else None
  | CASE_CFN_LOGB => fold_const_logb arg format
  | CASE_CFN_SIGNIFICAND => fold_const_significand arg format
  | _ => None
  end.

(** [fold_const_call_sss], real operands and real result. *)
Definition fold_const_call_sss_real (fn : combined_fn)
    (arg0 arg1 : real_value) (format : real_format) : option real_value :=
  match fn with
  | CASE_CFN_DREM | CASE_CFN_REMAINDER =>
      do_mpfr_arg2 mpfr_remainder arg0 arg1 format
  | CASE_CFN_ATAN2 => do_mpfr_arg2 mpfr_atan2 arg0 arg1 format
  | CASE_CFN_ATAN2PI =>
      if MPFR_VERSION_ge_4_2_0
      then do_mpfr_arg2 mpfr_atan2pi arg0 arg1 format else None
  | CASE_CFN_FDIM => do_mpfr_arg2 mpfr_dim arg0 arg1 format
  | CASE_CFN_FMOD => do_mpfr_arg2 mpfr_fmod arg0 arg1 format
  | CASE_CFN_HYPOT => do_mpfr_arg2 mpfr_hypot arg0 arg1 format
  | CASE_CFN_COPYSIGN =>
      let result := arg0 in
      let result := real_copysign result arg1 in
      Some result
  | CASE_CFN_FMIN => do_mpfr_arg2 mpfr_min arg0 arg1 format
  | CASE_CFN_FMAX => do_mpfr_arg2 mpfr_max arg0 arg1 format
  | CASE_CFN_POW => fold_const_pow arg0 arg1 format
  | CASE_CFN_NEXTAFTER | CFN_BUILT_IN_NEXTAFTERF16B | CASE_CFN_NEXTTOWARD =>
      fold_const_nextafter arg0 arg1 format
  | _ => None
  end.

(** [fold_const_call_sss], real and integer operands, real result. *)
Definition fold_const_call_sss_real_int (fn : combined_fn)
    (arg0 : real_value) (arg1 : wide_int) (format : real_format)
    : option real_value :=
  match fn with
  | CASE_CFN_LDEXP => fold_const_builtin_load_exponent arg0 arg1 format
  | CASE_CFN_SCALBN | CASE_CFN_SCALBLN =>
      if fmt_b format =? 2
      then fold_const_builtin_load_exponent arg0 arg1 format
      else None
  | CASE_CFN_POWI =>
      if negb (flag_unsafe_math_optimizations opts)
         && flag_signaling_nans opts
         && REAL_VALUE_ISSIGNALING_NAN arg0
      then None
      else Some (fst (real_powi format arg0 (wi.to_shwi arg1)))
  | _ => None
  end.

(** [fold_const_call_sss], integer and real operands, real result. *)
Definition fold_const_call_sss_int_real (fn : combined_fn)
    (arg0 : wide_int) (arg1 : real_value) (format : real_format)
    : option real_value :=
  match fn with
  | CASE_CFN_JN => do_mpfr_arg2_si mpfr_jn arg0 arg1 format
  | CASE_CFN_YN =>
      if real_compare GT_EXPR arg1 dconst0
      then do_mpfr_arg2_si mpfr_yn arg0 arg1 format else None
  | _ => None
  end.

(** [real_value_negate]: the sign bit flipped. *)
Definition real_value_negate (r : real_value) : real_value :=
  set_sign r (negb (rv_sign r)).

(** [fold_const_call_ssss]: three real operands, real result. *)
Definition fold_const_call_ssss (fn : combined_fn)
    (arg0 arg1 arg2 : real_value) (format : real_format)
    : option real_value :=
  match fn with
  | CASE_CFN_FMA => do_mpfr_arg3 mpfr_fma arg0 arg1 arg2 format
  | CFN_FMS =>
      let new_arg2 := real_value_negate arg2 in
      do_mpfr_arg3 mpfr_fma arg0 arg1 new_arg2 format
  | CFN_FNMA =>
      let new_arg0 := real_value_negate arg0 in
      do_mpfr_arg3 mpfr_fma new_arg0 arg1 arg2 format
  | CFN_FNMS =>
      let new_arg0 := real_value_negate arg0 in
      let new_arg2 := real_value_negate arg2 in
      do_mpfr_arg3 mpfr_fma new_arg0 arg1 new_arg2 format
  | _ => None
  end.

(** *** Complex handlers; a complex result is the pair (real, imaginary) *)

(** [fold_const_call_cs]: real operand, complex result. *)
Definition fold_const_call_cs (fn : combined_fn) (arg : real_value)
    (format : real_format) : option (real_value * real_value) :=
  match fn with
  | CASE_CFN_CEXPI =>
      match do_mpfr_sincos arg format with
      | Some (result_imag, result_real) => Some (result_real, result_imag)
      | None => None
      end
  | _ => None
  end.

(** [fold_const_call_sc]: complex operand, real result. *)
Definition fold_const_call_sc (fn : combined_fn)
    (arg_real arg_imag : real_value) (format : real_format)
    : option real_value :=
  match fn with
  | CASE_CFN_CABS => do_mpfr_arg2 mpfr_hypot arg_real arg_imag format
  | _ => None
  end.

(** [fold_const_call_cc]: complex operand, complex result. *)
Definition fold_const_call_cc (fn : combined_fn)
    (arg_real arg_imag : real_value) (format : real_format)
    : option (real_value * real_value) :=
  match fn with
  | CASE_CFN_CCOS => do_mpc_arg1 mpc_cos arg_real arg_imag format
  | CASE_CFN_CCOSH => do_mpc_arg1 mpc_cosh arg_real arg_imag format
  | CASE_CFN_CPROJ =>
      if real_isinf arg_real || real_isinf arg_imag
      then Some (dconstinf, set_sign dconst0 (rv_sign arg_imag))
      else Some (arg_real, arg_imag)
  | CASE_CFN_CSIN => do_mpc_arg1 mpc_sin arg_real arg_imag format
  | CASE_CFN_CSINH => do_mpc_arg1 mpc_sinh arg_real arg_imag format
  | CASE_CFN_CTAN => do_mpc_arg1 mpc_tan arg_real arg_imag format
  | CASE_CFN_CTANH => do_mpc_arg1 mpc_tanh arg_real arg_imag format
  | CASE_CFN_CLOG => do_mpc_arg1 mpc_log arg_real arg_imag format
  | CASE_CFN_CSQRT => do_mpc_arg1 mpc_sqrt arg_real arg_imag format
  | CASE_CFN_CASIN => do_mpc_arg1 mpc_asin arg_real arg_imag format
  | CASE_CFN_CACOS => do_mpc_arg1 mpc_acos arg_real arg_imag format
  | CASE_CFN_CATAN => do_mpc_arg1 mpc_atan arg_real arg_imag format
  | CASE_CFN_CASINH => do_mpc_arg1 mpc_asinh arg_real arg_imag format
  | CASE_CFN_CACOSH => do_mpc_arg1 mpc_acosh arg_real arg_imag format
  | CASE_CFN_CATANH => do_mpc_arg1 mpc_atanh arg_real arg_imag format
  | CASE_CFN_CEXP => do_mpc_arg1 mpc_exp arg_real arg_imag format
  | _ => None
  end.

(** [fold_const_call_ccc]: two complex operands, complex result. *)
Definition fold_const_call_ccc (fn : combined_fn)
    (arg0_real arg0_imag arg1_real arg1_imag : real_value)
    (format : real_format) : option (real_value * real_value) :=
  match fn with
  | CASE_CFN_CPOW =>
      do_mpc_arg2 mpc_pow arg0_real arg0_imag arg1_real arg1_imag format
  | _ => None
  end.

End Folder.

(** *** Integer handlers *)

Section IntegerFolder.

Context {TG : Target}.

(** [fold_const_call_ss], integer operand [arg] of type [arg_type] and
    integer result of [precision] bits. *)
Definition fold_const_call_ss_int (fn : combined_fn) (arg : wide_int)
    (precision : N) (arg_type : tree_type) : option wide_int :=
  match fn with
  | CFN_BUILT_IN_FFS | CFN_BUILT_IN_FFSL | CFN_BUILT_IN_FFSLL
  | CFN_BUILT_IN_FFSIMAX | CFN_FFS | CFN_BUILT_IN_FFSG =>
      Some (wi.shwi (wi.ffs arg) precision)
  | CFN_BUILT_IN_CLZ | CFN_BUILT_IN_CLZL | CFN_BUILT_IN_CLZLL
  | CFN_BUILT_IN_CLZIMAX | CFN_CLZ | CFN_BUILT_IN_CLZG =>
      let tmp :=
        if wi.ne_p arg 0 then wi.clz arg
        else
          match arg_type with
          | BITINT_TYPE _ _ => Z.of_N (TYPE_PRECISION arg_type)
          | _ =>
              let '(defined, value) :=
                CLZ_DEFINED_VALUE_AT_ZERO (SCALAR_INT_TYPE_MODE arg_type) in
              if defined =? 0 then Z.of_N (TYPE_PRECISION arg_type)
              else value
          end in
      Some (wi.shwi tmp precision)
  | CFN_BUILT_IN_CTZ | CFN_BUILT_IN_CTZL | CFN_BUILT_IN_CTZLL
  | CFN_BUILT_IN_CTZIMAX | CFN_CTZ | CFN_BUILT_IN_CTZG =>
      let tmp :=
        if wi.ne_p arg 0 then wi.ctz arg
        else
          match arg_type with
          | BITINT_TYPE _ _ => Z.of_N (TYPE_PRECISION arg_type)
          | _ =>
              let '(defined, value) :=
                CTZ_DEFINED_VALUE_AT_ZERO (SCALAR_INT_TYPE_MODE arg_type) in
              if defined =? 0 then Z.of_N (TYPE_PRECISION arg_type)
              else value
          end in
      Some (wi.shwi tmp precision)
  | CFN_BUILT_IN_CLRSB | CFN_BUILT_IN_CLRSBL | CFN_BUILT_IN_CLRSBLL
  | CFN_BUILT_IN_CLRSBIMAX | CFN_CLRSB | CFN_BUILT_IN_CLRSBG =>
      Some (wi.shwi (wi.clrsb arg) precision)
  | CFN_BUILT_IN_POPCOUNT | CFN_BUILT_IN_POPCOUNTL | CFN_BUILT_IN_POPCOUNTLL
  | CFN_BUILT_IN_POPCOUNTIMAX | CFN_POPCOUNT | CFN_BUILT_IN_POPCOUNTG =>
      Some (wi.shwi (wi.popcount arg) precision)
  | CFN_BUILT_IN_PARITY | CFN_BUILT_IN_PARITYL | CFN_BUILT_IN_PARITYLL
  | CFN_BUILT_IN_PARITYIMAX | CFN_PARITY | CFN_BUILT_IN_PARITYG =>
      Some (wi.shwi (wi.parity arg) precision)
  | CFN_BUILT_IN_BSWAP16 | CFN_BUILT_IN_BSWAP32 | CFN_BUILT_IN_BSWAP64
  | CFN_BUILT_IN_BSWAP128 =>
      Some (wi.bswap (wi.from arg precision (TYPE_SIGN arg_type)))
  | _ => None
  end.

(** [fold_const_call_sss], integer operands and integer result; the type
    of [arg0] is not used. *)
Definition fold_const_call_sss_int (fn : combined_fn) (arg0 arg1 : wide_int)
    (precision : N) (arg_type : tree_type) : option wide_int :=
  match fn with
  | CFN_CLZ | CFN_BUILT_IN_CLZG =>
      let tmp :=
        if wi.ne_p arg0 0 then wi.clz arg0 else to_int (wi.to_shwi arg1) in
      Some (wi.shwi tmp precision)
  | CFN_CTZ | CFN_BUILT_IN_CTZG =>
      let tmp :=
        if wi.ne_p arg0 0 then wi.ctz arg0 else to_int (wi.to_shwi arg1) in
      Some (wi.shwi tmp precision)
  | _ => None
  end.

End IntegerFolder.

(** ** The dispatcher: overflow-checked arithmetic and bounded string
    functions *)

Section Dispatch.

Context {TG : Target}.

(** The numeric dispatchers [fold_const_call_1] reached through the
    [default:] labels; the cases modelled below never reach them. *)
Variable fold_const_call_1_args2 :
  combined_fn -> tree_type -> tree -> tree -> option tree.
Variable fold_const_call_1_args3 :
  combined_fn -> tree_type -> tree -> tree -> tree -> option tree.

(** *** Accessors of [tree.h] *)

Definition TREE_TYPE (t : tree) : tree_type :=
  match t with
  | INTEGER_CST type _ _ | COMPLEX_CST type _ _ | POINTER_PLUS type _ _
  | EXPR type _ => type
  | STRING_ADDR _ => POINTER_TYPE pointer_precision
  end.

(** Modelled from the spec: a constant operand carries no observable
    side effect; only a non-constant operand can. *)
Fixpoint TREE_SIDE_EFFECTS (t : tree) : bool :=
  match t with
  | EXPR _ side_effects => side_effects
  | POINTER_PLUS _ base _ => TREE_SIDE_EFFECTS base
  | _ => false
  end.

Definition TREE_OVERFLOW (t : tree) : bool :=
  match t with
  | INTEGER_CST _ _ overflow => overflow
  | _ => false
  end.

Definition is_INTEGER_CST (t : tree) : bool :=
  match t with
  | INTEGER_CST _ _ _ => true
  | _ => false
  end.

Definition integer_cst_p (t : tree) : bool :=
  is_INTEGER_CST t && negb (TREE_OVERFLOW t).

(** *** Integer constants of a type *)

(** The value of the low [TYPE_PRECISION] bits of [v], read in the
    signedness of the type. *)
Definition wrap_to_type (type : tree_type) (v : Z) : Z :=
  match TYPE_SIGN type with
  | UNSIGNED => zext_hwi v (Z.of_N (TYPE_PRECISION type))
  | SIGNED => sext_hwi v (Z.of_N (TYPE_PRECISION type))
  end.

Definition int_fits_type_p (v : Z) (type : tree_type) : bool :=
  wrap_to_type type v =? v.

Definition build_int_cst (type : tree_type) (v : Z) : tree :=
  INTEGER_CST type (wrap_to_type type v) false.

Definition build_complex (type : tree_type) (real imag : tree) : tree :=
  COMPLEX_CST type real imag.

Definition drop_tree_overflow (t : tree) : tree :=
  match t with
  | INTEGER_CST type v _ => INTEGER_CST type v false
  | _ => t
  end.

Definition is_POINTER_TYPE (type : tree_type) : bool :=
  match type with
  | POINTER_TYPE _ => true
  | _ => false
  end.

(** Modelled from the spec: [fold_convert] is not part of the sources at
    hand.  An integer constant is truncated or extended to the new type,
    and marked as overflowed when it was already, or when the new type is
    signed and does not hold the value; any other operand keeps its
    shape under the new type. *)
Definition fold_convert (type : tree_type) (arg : tree) : tree :=
  match arg with
  | INTEGER_CST atype v overflow =>
      INTEGER_CST type (wrap_to_type type v)
        (overflow
         || (negb (int_fits_type_p v type)
             && negb (is_POINTER_TYPE atype)
             && signop_eqb (TYPE_SIGN type) SIGNED))
  | COMPLEX_CST _ real imag => COMPLEX_CST type real imag
  | STRING_ADDR bytes => POINTER_PLUS type (STRING_ADDR bytes) 0
  | POINTER_PLUS _ base off => POINTER_PLUS type base off
  | EXPR _ side_effects => EXPR type side_effects
  end.

Definition fold_build_pointer_plus_hwi (ptr : tree) (off : Z) : tree :=
  match ptr with
  | POINTER_PLUS type base off0 => POINTER_PLUS type base (off0 + off)
  | _ => POINTER_PLUS (TREE_TYPE ptr) ptr off
  end.

(** The exact result of an arithmetic code on unbounded integers. *)
Definition exact_binop (code : tree_code) (v0 v1 : Z) : option Z :=
  match code with
  | PLUS_EXPR => Some (v0 + v1)
  | MINUS_EXPR => Some (v0 - v1)
  | MULT_EXPR => Some (v0 * v1)
  | _ => None
  end.

(** Modelled from the spec: [int_const_binop] is not part of the sources
    at hand.  On two integer constants of one type it yields the result
    truncated to that type, marked as overflowed when an operand was or
    when the type is signed and the exact result does not fit; anything
    else yields no constant. *)
Definition int_const_binop (code : tree_code) (arg1 arg2 : tree)
    : option tree :=
  match arg1, arg2 with
  | INTEGER_CST type v1 o1, INTEGER_CST _ v2 o2 =>
      match exact_binop code v1 v2 with
      | Some v =>
          Some (INTEGER_CST type (wrap_to_type type v)
                  ((signop_eqb (TYPE_SIGN type) SIGNED
                    && negb (int_fits_type_p v type))
                   || o1 || o2))
      | None => None
      end
  | _, _ => None
  end.

(** Modelled from the spec: [arith_overflowed_p] is not part of the
    sources at hand.  The operation is computed at a width wide enough to
    be unambiguous, on the operands in their own types, and compared
    against its truncation to the nominal result width. *)
Definition arith_overflowed_p (code : tree_code) (type : tree_type)
    (arg0 arg1 : tree) : bool :=
  match arg0, arg1 with
  | INTEGER_CST _ v0 _, INTEGER_CST _ v1 _ =>
      match exact_binop code v0 v1 with
      | Some v => negb (int_fits_type_p v type)
      | None => false
      end
  | _, _ => false
  end.

(** [fold_const_call], two operands: the [arith_overflow:] label and the
    cases that jump to it. *)
Definition fold_const_call_args2 (fn : combined_fn) (type : tree_type)
    (arg0 arg1 : tree) : option tree :=
  let arith_overflow (subcode : tree_code) : option tree :=
    if integer_cst_p arg0 && integer_cst_p arg1 then
      let itype :=
        match type with
        | COMPLEX_TYPE elt => elt
        | _ => type
        end in
      let ovf := false in
      match int_const_binop subcode (fold_convert itype arg0)
                            (fold_convert itype arg1) with
      | None => None
      | Some r =>
          if negb (is_INTEGER_CST r) then None
          else
            let ovf :=
              if arith_overflowed_p subcode itype arg0 arg1
              then true else ovf in
            let r := if TREE_OVERFLOW r then drop_tree_overflow r else r in
            if tree_type_eqb itype type
            then if ovf then None else Some r
            else Some (build_complex type r (build_int_cst itype (b2z ovf)))
      end
    else None in
  match fn with
  | CFN_UBSAN_CHECK_ADD | CFN_ADD_OVERFLOW => arith_overflow PLUS_EXPR
  | CFN_UBSAN_CHECK_SUB | CFN_SUB_OVERFLOW => arith_overflow MINUS_EXPR
  | CFN_UBSAN_CHECK_MUL | CFN_MUL_OVERFLOW => arith_overflow MULT_EXPR
  | _ => fold_const_call_1_args2 fn type arg0 arg1
  end.

(** *** Literal buffers *)

Definition SIZE_MAX : Z := 2 ^ HOST_BITS_PER_WIDE_INT - 1.

Definition tree_fits_uhwi_p (t : tree) : bool :=
  match t with
  | INTEGER_CST _ v _ => (0 <=? v) && (v <=? SIZE_MAX)
  | _ => false
  end.

Definition tree_to_uhwi (t : tree) : Z :=
  match t with
  | INTEGER_CST _ v _ => v
  | _ => 0
  end.

Definition types_compatible_p (a b : tree_type) : bool := tree_type_eqb a b.

(** [size_t_cst_p]: the value of a [size_type_node] constant. *)
Definition size_t_cst_p (t : tree) : option Z :=
  if types_compatible_p size_type_node (TREE_TYPE t)
     && integer_cst_p t
     && tree_fits_uhwi_p t
  then Some (tree_to_uhwi t)
  else None.

(** [build_cmp_result]: a comparison result canonicalized to -1, 0 or 1. *)
Definition build_cmp_result (type : tree_type) (res : Z) : tree :=
  build_int_cst type (if res <? 0 then -1 else if 0 <? res then 1 else 0).

(** Modelled from the spec: [getbyterep], [c_getstr] and
    [target_char_cst_p] are not part of the sources at hand.  The
    string/memory oracle operates only on operands whose full byte
    content and length are statically known: [getbyterep] yields the
    bytes from the address to the end of the literal, [c_getstr] the
    bytes before the first NUL when there is one. *)
Fixpoint getbyterep (t : tree) : option (list Z) :=
  match t with
  | STRING_ADDR bytes => Some bytes
  | POINTER_PLUS _ base off =>
      match getbyterep base with
      | Some bytes =>
          if (0 <=? off) && (off <=? Z.of_nat (length bytes))
          then Some (skipn (Z.to_nat off) bytes)
          else None
      | None => None
      end
  | _ => None
  end.

Fixpoint until_nul (bytes : list Z) : option (list Z) :=
  match bytes with
  | [] => None
  | c :: rest =>
      if c =? 0 then Some []
      else match until_nul rest with
           | Some s => Some (c :: s)
           | None => None
           end
  end.

Definition c_getstr (t : tree) : option (list Z) :=
  match getbyterep t with
  | Some bytes => until_nul bytes
  | None => None
  end.

Definition target_char_cst_p (t : tree) : option Z :=
  if tree_fits_uhwi_p t then Some (tree_to_uhwi t mod 256) else None.

(** The host's [strncmp] on NUL-terminated strings (given without their
    terminator), [memcmp] and [memchr] on buffers; [memchr] yields the
    offset of the match. *)
Fixpoint strncmp (p0 p1 : list Z) (n : Z) : Z :=
  if n <=? 0 then 0
  else
    match p0, p1 with
    | [], [] => 0
    | [], c1 :: _ => - c1
    | c0 :: _, [] => c0
    | c0 :: t0, c1 :: t1 =>
        if c0 =? c1 then strncmp t0 t1 (n - 1) else c0 - c1
    end.

Fixpoint memcmp (p0 p1 : list Z) (n : Z) : Z :=
  if n <=? 0 then 0
  else
    match p0, p1 with
    | c0 :: t0, c1 :: t1 =>
        if c0 =? c1 then memcmp t0 t1 (n - 1) else c0 - c1
    | _, _ => 0
    end.

Fixpoint memchr (p : list Z) (c : Z) (n : Z) : option Z :=
  if n <=? 0 then None
  else
    match p with
    | [] => None
    | x :: rest =>
        if x =? c then Some 0
        else match memchr rest c (n - 1) with
             | Some r => Some (r + 1)
             | None => None
             end
    end.

(** [fold_const_call], three operands: the bounded string and memory
    functions. *)
Definition fold_const_call_args3 (fn : combined_fn) (type : tree_type)
    (arg0 arg1 arg2 : tree) : option tree :=
  match fn with
  | CFN_BUILT_IN_STRNCMP =>
      match size_t_cst_p arg2 with
      | None => None
      | Some s2 =>
          if (s2 =? 0)
             && negb (TREE_SIDE_EFFECTS arg0)
             && negb (TREE_SIDE_EFFECTS arg1)
          then Some (build_int_cst type 0)
          else
            match c_getstr arg0, c_getstr arg1 with
            | Some p0, Some p1 =>
                Some (build_int_cst type (strncmp p0 p1 (Z.min s2 SIZE_MAX)))
            | _, _ => None
            end
      end
  | CFN_BUILT_IN_STRNCASECMP =>
      match size_t_cst_p arg2 with
      | None => None
      | Some s2 =>
          if (s2 =? 0)
             && negb (TREE_SIDE_EFFECTS arg0)
             && negb (TREE_SIDE_EFFECTS arg1)
          then Some (build_int_cst type 0)
          else
            match c_getstr arg0, c_getstr arg1 with
            | Some p0, Some p1 =>
                if strncmp p0 p1 (Z.min s2 SIZE_MAX) =? 0
                then Some (build_int_cst type 0)
                else None
            | _, _ => None
            end
      end
  | CFN_BUILT_IN_BCMP | CFN_BUILT_IN_MEMCMP =>
      match size_t_cst_p arg2 with
      | None => None
      | Some s2 =>
          if (s2 =? 0)
             && negb (TREE_SIDE_EFFECTS arg0)
             && negb (TREE_SIDE_EFFECTS arg1)
          then Some (build_int_cst type 0)
          else
            match getbyterep arg0, getbyterep arg1 with
            | Some p0, Some p1 =>
                let s0 := Z.of_nat (length p0) in
                let s1 := Z.of_nat (length p1) in
                if (s2 <=? s0) && (s2 <=? s1)
                then Some (build_cmp_result type (memcmp p0 p1 s2))
                else None
            | _, _ => None
            end
      end
  | CFN_BUILT_IN_MEMCHR =>
      match size_t_cst_p arg2 with
      | None => None
      | Some s2 =>
          if (s2 =? 0)
             && negb (TREE_SIDE_EFFECTS arg0)
             && negb (TREE_SIDE_EFFECTS arg1)
          then Some (build_int_cst type 0)
          else
            match getbyterep arg0, target_char_cst_p arg1 with
            | Some p0, Some c =>
                let s0 := Z.of_nat (length p0) in
                if s2 <=? s0 then
                  match memchr p0 c s2 with
                  | None => Some (build_int_cst type 0)
                  | Some r =>
                      Some (fold_convert type
                              (fold_build_pointer_plus_hwi arg0 r))
                  end
                else None
            | _, _ => None
            end
      end
  | _ => fold_const_call_1_args3 fn type arg0 arg1 arg2
  end.

End Dispatch.

(** ** Reference instances of the interfaces

    A small executable instance of each interface, used to run the
    folder on concrete inputs.  The arithmetic is exact on integer-valued
    constants of binary formats without denormals; where it has no exact
    answer it reports an inexact result or answers NaN, so that the
    folder declines.  Every theorem below is proved for all instances. *)

Module Ref.

Definition get_inf (sign : bool) : real_value :=
  mk_real_value rvc_inf false sign false false 0 0.

Definition get_zero (sign : bool) : real_value :=
  mk_real_value rvc_zero false sign false false 0 0.

Definition get_canonical_qnan (sign : bool) : real_value :=
  mk_real_value rvc_nan false sign false true 0 0.

(** Integer part and fraction bits of the magnitude of a normal number. *)
Definition int_part (r : real_value) : Z :=
  Z.shiftr (rv_sig r) (SIGNIFICAND_BITS - REAL_EXP r).

Definition frac_width (r : real_value) : Z :=
  Z.max 0 (SIGNIFICAND_BITS - REAL_EXP r).

Definition frac_part (r : real_value) : Z :=
  Z.land (rv_sig r) (Z.ones (frac_width r)).

Definition is_integer (r : real_value) : bool :=
  match rv_cl r with
  | rvc_zero => true
  | rvc_normal => frac_part r =? 0
  | _ => false
  end.

Definition Z_of_real (r : real_value) : Z :=
  match rv_cl r with
  | rvc_normal => if rv_sign r then - int_part r else int_part r
  | _ => 0
  end.

Definition signed_real_of_Z (sign : bool) (n : Z) : real_value :=
  if n =? 0 then get_zero sign else real_of_Z (if sign then - n else n).

(** Rounding of a normal number to [p] significant bits, to nearest, ties
    to even. *)
Definition round_to_precision (p : Z) (r : real_value) : real_value :=
  match rv_cl r with
  | rvc_normal =>
      let shift := SIGNIFICAND_BITS - p in
      let q := Z.shiftr (rv_sig r) shift in
      let rem := Z.land (rv_sig r) (Z.ones shift) in
      let half := 2 ^ (shift - 1) in
      let q := if (half <? rem) || ((rem =? half) && Z.odd q)
               then q + 1 else q in
      if q =? 2 ^ p
      then SET_REAL_EXP
             (mk_real_value rvc_normal (rv_decimal r) (rv_sign r) false false
                0 SIG_TOP) (REAL_EXP r + 1)
      else mk_real_value rvc_normal (rv_decimal r) (rv_sign r) false false
             (rv_uexp r) (Z.shiftl q shift)
  | _ => r
  end.

Definition convert (format : real_format) (r : real_value) : real_value :=
  match rv_cl r with
  | rvc_normal =>
      let r := round_to_precision (fmt_p format) r in
      if fmt_emax format <? REAL_EXP r then get_inf (rv_sign r)
      else if REAL_EXP r <? fmt_emin format then get_zero (rv_sign r)
      else r
  | _ => r
  end.

Definition from_integer (format : option real_format) (n : Z) (sgn : signop)
    : real_value :=
  match format with
  | Some f => convert f (real_of_Z n)
  | None => real_of_Z n
  end.

Definition to_integer (r : real_value) : Z :=
  let overflow :=
    if rv_sign r then - 2 ^ (HOST_BITS_PER_WIDE_INT - 1)
    else 2 ^ (HOST_BITS_PER_WIDE_INT - 1) - 1 in
  match rv_cl r with
  | rvc_zero => 0
  | rvc_inf | rvc_nan => overflow
  | rvc_normal =>
      if REAL_EXP r <=? 0 then 0
      else if HOST_BITS_PER_WIDE_INT <? REAL_EXP r then overflow
      else sext_hwi (Z_of_real r) HOST_BITS_PER_WIDE_INT
  end.

Definition powi (format : real_format) (x : real_value) (n : Z)
    : real_value * bool :=
  if n =? 0 then (dconst1, false)
  else
    match rv_cl x with
    | rvc_nan => (x, false)
    | rvc_inf =>
        if 0 <? n then (get_inf (rv_sign x && Z.odd n), false)
        else (get_zero (rv_sign x && Z.odd n), false)
    | _ =>
        if is_integer x && (0 <? n)
        then
          let v := Z_of_real x ^ n in
          (convert format (real_of_Z v), negb (Z_of_real (real_of_Z v) =? v))
        else (get_canonical_qnan false, true)
    end.

Definition MAX_EXP : Z := 2 ^ (EXP_BITS - 1) - 1.

Definition ldexp (op0 : real_value) (exp : Z) : real_value :=
  match rv_cl op0 with
  | rvc_normal =>
      let exp := exp + REAL_EXP op0 in
      if MAX_EXP <? exp then get_inf (rv_sign op0)
      else if exp <? - MAX_EXP then get_zero (rv_sign op0)
      else SET_REAL_EXP op0 exp
  | _ => op0
  end.

(** Rounding to an integer in the direction given by [up], a function of
    the sign, the parity of the integer part, and the comparison of the
    fraction with one half. *)
Definition to_integral (up : bool -> bool -> comparison -> bool)
    (r : real_value) : real_value :=
  match rv_cl r with
  | rvc_normal =>
      if frac_part r =? 0 then r
      else
        let i := int_part r in
        let half := 2 ^ (frac_width r - 1) in
        let i := if up (rv_sign r) (Z.odd i) (frac_part r ?= half)
                 then i + 1 else i in
        signed_real_of_Z (rv_sign r) i
  | _ => r
  end.

Definition floor (_ : real_format) : real_value -> real_value :=
  to_integral (fun sign _ _ => sign).
Definition ceil (_ : real_format) : real_value -> real_value :=
  to_integral (fun sign _ _ => negb sign).
Definition trunc (_ : real_format) : real_value -> real_value :=
  to_integral (fun _ _ _ => false).
Definition round (_ : real_format) : real_value -> real_value :=
  to_integral (fun _ _ c => match c with Lt => false | _ => true end).
Definition roundeven (_ : real_format) : real_value -> real_value :=
  to_integral (fun _ odd c =>
                 match c with Lt => false | Eq => odd | Gt => true end).

#[export] Instance real_arith : RealArith := {
  real_convert := convert;
  real_value_truncate := convert;
  real_from_integer := from_integer;
  real_to_integer := to_integer;
  real_powi := powi;
  real_ldexp := ldexp;
  (* not provided: a quiet NaN with the exception flag raised *)
  real_nextafter := fun _ _ _ => (get_canonical_qnan false, true);
  real_floor := floor;
  real_ceil := ceil;
  real_trunc := trunc;
  real_round := round;
  real_roundeven := roundeven;
  (* decimal constants are outside the reference arithmetic *)
  decimal_do_compare := fun _ _ nan_result => nan_result
}.

(** The working-precision number: a precision and a value. *)
Record mpfr : Set := mk_mpfr { m_prec : Z; m_val : real_value }.

Definition number_p (m : mpfr) : bool :=
  match rv_cl (m_val m) with
  | rvc_zero | rvc_normal => true
  | _ => false
  end.

Definition zero_p (m : mpfr) : bool := rvc_eqb (rv_cl (m_val m)) rvc_zero.

Definition set_flags (nan inex divby0 : bool) (st : mpfr_flags) : mpfr_flags :=
  mk_mpfr_flags (mpfr_underflow_p st) (mpfr_overflow_p st)
    (mpfr_nanflag_p st || nan) (mpfr_inexflag_p st || inex)
    (mpfr_erangeflag_p st) (mpfr_divby0_p st || divby0).

(** An answer of integer value [v], rounded to the precision of [m]. *)
Definition answer (st : mpfr_flags) (m : mpfr) (v : Z)
    : mpfr * Z * mpfr_flags :=
  let r := round_to_precision (m_prec m) (real_of_Z v) in
  let inex := negb (Z_of_real r =? v) in
  (mk_mpfr (m_prec m) r, b2z inex, set_flags false inex false st).

Definition answer_nan (st : mpfr_flags) (m : mpfr) : mpfr * Z * mpfr_flags :=
  (mk_mpfr (m_prec m) (get_canonical_qnan false), 0,
   set_flags true false false st).

Definition answer_pole (st : mpfr_flags) (m : mpfr) (sign : bool)
    : mpfr * Z * mpfr_flags :=
  (mk_mpfr (m_prec m) (get_inf sign), 0, set_flags false false true st).

(** Square roots of perfect squares. *)
Definition call1 (f : mpfr_func1) (st : mpfr_flags) (m : mpfr)
    (rnd : mpfr_rnd_t) : mpfr * Z * mpfr_flags :=
  match f with
  | mpfr_sqrt =>
      let v := Z_of_real (m_val m) in
      if is_integer (m_val m) && (0 <=? v) && (Z.sqrt v * Z.sqrt v =? v)
      then answer st m (Z.sqrt v)
      else answer_nan st m
  | _ => answer_nan st m
  end.

(** Integer powers of integers, and the pole of a negative power of zero. *)
Definition call2 (f : mpfr_func2) (st : mpfr_flags) (m0 m1 : mpfr)
    (rnd : mpfr_rnd_t) : mpfr * Z * mpfr_flags :=
  match f with
  | mpfr_pow =>
      let x := Z_of_real (m_val m0) in
      let y := Z_of_real (m_val m1) in
      if is_integer (m_val m0) && is_integer (m_val m1) then
        if 0 <=? y then answer st m0 (x ^ y)
        else if x =? 0 then answer_pole st m0 (rv_sign (m_val m0) && Z.odd y)
        else answer_nan st m0
      else answer_nan st m0
  | _ => answer_nan st m0
  end.

#[export] Instance mpfr_lib : MpfrLib := {
  mpfr_t := mpfr;
  mpfr_number_p := number_p;
  mpfr_zero_p := zero_p;
  mpfr_from_real := fun prec r _ => mk_mpfr prec (round_to_precision prec r);
  real_from_mpfr := fun m format _ => convert format (m_val m);
  mpfr_call1 := call1;
  mpfr_call2 := call2;
  mpfr_call2_si := fun _ st _ m _ => answer_nan st m;
  mpfr_call3 := fun _ st m _ _ _ => answer_nan st m;
  mpfr_sin_cos := fun st m _ =>
    (mk_mpfr (m_prec m) (get_canonical_qnan false),
     mk_mpfr (m_prec m) (get_canonical_qnan false), 0,
     set_flags true false false st);
  mpc_call1 := fun _ st m _ =>
    (fst (fst (answer_nan st (fst m))), fst (fst (answer_nan st (snd m))), 0,
     set_flags true false false st);
  mpc_call2 := fun _ st m _ _ =>
    (fst (fst (answer_nan st (fst m))), fst (fst (answer_nan st (snd m))), 0,
     set_flags true false false st);
  MPFR_VERSION_ge_4_2_0 := true
}.

(** A target whose count of leading zeros is defined at zero (the width
    of the mode) and whose count of trailing zeros is not. *)
Definition mode_bitsize (mode : machine_mode) : Z :=
  match mode with
  | BLKmode => 0
  | QImode => 8
  | HImode => 16
  | SImode => 32
  | DImode => 64
  | TImode => 128
  end.

#[export] Instance target : Target := {
  CLZ_DEFINED_VALUE_AT_ZERO := fun mode => (2, mode_bitsize mode);
  CTZ_DEFINED_VALUE_AT_ZERO := fun mode => (0, 0);
  size_type_node := INTEGER_TYPE 64 UNSIGNED DImode;
  pointer_precision := 64%N
}.

(** Sample constants: 10, 1024, -1.5 and a signaling NaN. *)
Definition real_10 : real_value := real_of_Z 10.
Definition real_1024 : real_value := real_of_Z 1024.
Definition real_3 : real_value := real_of_Z 3.
Definition real_1000 : real_value := real_of_Z 1000.
Definition real_m1_5 : real_value := ldexp (real_of_Z (-3)) (-1).
Definition snan : real_value :=
  mk_real_value rvc_nan false false true false 0 (2 ^ (SIGNIFICAND_BITS - 3)).

(** Options: the defaults ([-ftrapping-math], [-fmath-errno]). *)
Definition default_options : options :=
  mk_options false true true false false.

(** Sample types and operands: [int], [signed char], [void *], two
    string literals, the [size_t] constant 0 and a call with a side
    effect. *)
Definition int_type : tree_type := INTEGER_TYPE 32 SIGNED SImode.
Definition signed_char_type : tree_type := INTEGER_TYPE 8 SIGNED QImode.
Definition ptr_type : tree_type := POINTER_TYPE 64.
Definition lit_abc : tree := STRING_ADDR [97; 98; 99; 0].
Definition lit_xyz : tree := STRING_ADDR [120; 121; 122; 0].
Definition size_zero : tree := INTEGER_CST (INTEGER_TYPE 64 UNSIGNED DImode) 0 false.
Definition call_expr : tree := EXPR ptr_type true.
Definition no_default2 (_ : combined_fn) (_ : tree_type) (_ _ : tree)
    : option tree := None.
Definition no_default3 (_ : combined_fn) (_ : tree_type) (_ _ _ : tree)
    : option tree := None.

(** The defaults with [-fsignaling-nans]. *)
Definition signaling_options : options :=
  mk_options false true true true false.

End Ref.

(** ** Statements of the properties *)

(** Two constants that [real_identical] accepts agree on every field
    that carries their value; for finite constants, on class, sign and,
    when normal, radix flag, exponent and significand. *)
Definition same_value (a b : real_value) : Prop :=
  rv_cl a = rv_cl b
  /\ rv_sign a = rv_sign b
  /\ (rv_cl a = rvc_normal ->
      rv_decimal a = rv_decimal b
      /\ REAL_EXP a = REAL_EXP b
      /\ rv_sig a = rv_sig b).

Section GateSpec.

Context {RA : RealArith} {ML : MpfrLib}.
Variable opts : options.

(** What the gate has checked when it accepts the working-precision
    number [m] and stores [result]. *)
Definition gate_accepted (st : mpfr_flags) (m : mpfr_t) (inexact : bool)
    (format : real_format) (result : real_value) : Prop :=
  let tmp := real_from_mpfr m format MPFR_RNDN in
  mpfr_number_p m = true
  /\ mpfr_overflow_p st = false
  /\ mpfr_underflow_p st = false
  /\ (flag_rounding_math opts = true -> inexact = false)
  /\ real_isfinite tmp = true
  /\ (rv_cl tmp = rvc_zero <-> mpfr_zero_p m = true)
  /\ result = real_convert format tmp
  /\ real_identical result tmp = true
  /\ same_value result tmp
  /\ real_isfinite result = true.

(** A folded constant is finite and is the conversion to the format of a
    finite value that it reproduces bit for bit. *)
Definition round_trips (format : real_format) (result : real_value) : Prop :=
  real_isfinite result = true
  /\ exists tmp : real_value,
       real_isfinite tmp = true
       /\ result = real_convert format tmp
       /\ real_identical result tmp = true
       /\ same_value result tmp.

End GateSpec.

Section DomainSpec.

Context {RA : RealArith}.

(** The arguments that the domain guard of a function excludes: below 0
    for [sqrt]; at most 0 for [log], [log2], [log10], [y0] and [y1]; at
    most -1 for [log1p]; below -1 or above 1 for [asin], [acos] and
    [atanh]; below 1 for [acosh]. *)
Definition out_of_domain (fn : combined_fn) (arg : real_value) : Prop :=
  match fn with
  | CASE_CFN_SQRT => real_compare LT_EXPR arg dconst0 = true
  | CASE_CFN_LOG | CASE_CFN_LOG2 | CASE_CFN_LOG10
  | CASE_CFN_Y0 | CASE_CFN_Y1 => real_compare LE_EXPR arg dconst0 = true
  | CASE_CFN_LOG1P => real_compare LE_EXPR arg dconstm1 = true
  | CASE_CFN_ASIN | CASE_CFN_ACOS | CASE_CFN_ATANH =>
      real_compare LT_EXPR arg dconstm1 = true
      \/ real_compare GT_EXPR arg dconst1 = true
  | CASE_CFN_ACOSH => real_compare LT_EXPR arg dconst1 = true
  | _ => False
  end.

End DomainSpec.

(** The reference bit definitions: [k] is the number of leading
    (trailing) zero bits of a non-zero [x] when bit [k] from the top
    (from the bottom) is set and every bit beyond it is clear. *)
Definition leading_zeros (x : wide_int) (k : Z) : Prop :=
  let prec := Z.of_N (wi_precision x) in
  0 <= k < prec
  /\ Z.testbit (wi_val x) (prec - 1 - k) = true
  /\ forall i, prec - 1 - k < i < prec -> Z.testbit (wi_val x) i = false.

Definition trailing_zeros (x : wide_int) (k : Z) : Prop :=
  let prec := Z.of_N (wi_precision x) in
  0 <= k < prec
  /\ Z.testbit (wi_val x) k = true
  /\ forall i, 0 <= i < k -> Z.testbit (wi_val x) i = false.

(** The policy of the one-operand forms on a zero argument: the bit
    width for [_BitInt], else the value the target defines, else the bit
    width.  [defined] is the target macro. *)
Definition zero_policy (defined : machine_mode -> Z * Z)
    (arg_type : tree_type) (tmp : Z) : Prop :=
  ((exists precision sgn, arg_type = BITINT_TYPE precision sgn) ->
   tmp = Z.of_N (TYPE_PRECISION arg_type))
  /\ ((forall precision sgn, arg_type <> BITINT_TYPE precision sgn) ->
      fst (defined (SCALAR_INT_TYPE_MODE arg_type)) <> 0 ->
      tmp = snd (defined (SCALAR_INT_TYPE_MODE arg_type)))
  /\ ((forall precision sgn, arg_type <> BITINT_TYPE precision sgn) ->
      fst (defined (SCALAR_INT_TYPE_MODE arg_type)) = 0 ->
      tmp = Z.of_N (TYPE_PRECISION arg_type)).

(** The members of the enumeration that the integer handlers treat as
    [clz] and [ctz], with one and with two operands. *)
Definition clz_fns : list combined_fn :=
  [CFN_BUILT_IN_CLZ; CFN_BUILT_IN_CLZL; CFN_BUILT_IN_CLZLL;
   CFN_BUILT_IN_CLZIMAX; CFN_CLZ; CFN_BUILT_IN_CLZG].

Definition ctz_fns : list combined_fn :=
  [CFN_BUILT_IN_CTZ; CFN_BUILT_IN_CTZL; CFN_BUILT_IN_CTZLL;
   CFN_BUILT_IN_CTZIMAX; CFN_CTZ; CFN_BUILT_IN_CTZG].

Definition clz2_fns : list combined_fn := [CFN_CLZ; CFN_BUILT_IN_CLZG].
Definition ctz2_fns : list combined_fn := [CFN_CTZ; CFN_BUILT_IN_CTZG].

(** The exact operation of the overflow-checked functions, on unbounded
    integers. *)
Definition checked_op (fn : combined_fn) : option (Z -> Z -> Z) :=
  match fn with
  | CFN_UBSAN_CHECK_ADD | CFN_ADD_OVERFLOW => Some Z.add
  | CFN_UBSAN_CHECK_SUB | CFN_SUB_OVERFLOW => Some Z.sub
  | CFN_UBSAN_CHECK_MUL | CFN_MUL_OVERFLOW => Some Z.mul
  | _ => None
  end.

Definition unsigned_char_type : tree_type := INTEGER_TYPE 8 UNSIGNED QImode.

(** The bounded-length string and memory functions. *)
Definition bounded_fns : list combined_fn :=
  [CFN_BUILT_IN_STRNCMP; CFN_BUILT_IN_STRNCASECMP; CFN_BUILT_IN_BCMP;
   CFN_BUILT_IN_MEMCMP; CFN_BUILT_IN_MEMCHR].

(** * Further parts of the folder

    The handlers and dispatcher cases below switch on members of
    [combined_fn] other than those listed so far; they are given an
    enumeration of their own, with the same naming. *)

Inductive combined_fn_ext : Set :=
  (* real -> integer *)
  | CASE_CFN_SIGNBIT | CASE_CFN_ILOGB
  | CASE_CFN_ICEIL | CASE_CFN_LCEIL | CASE_CFN_LLCEIL
  | CASE_CFN_LFLOOR | CASE_CFN_IFLOOR | CASE_CFN_LLFLOOR
  | CASE_CFN_IROUND | CASE_CFN_LROUND | CASE_CFN_LLROUND
  | CASE_CFN_IRINT | CASE_CFN_LRINT | CASE_CFN_LLRINT
  | CASE_CFN_FINITE | CFN_BUILT_IN_FINITED32 | CFN_BUILT_IN_FINITED64
  | CFN_BUILT_IN_FINITED128 | CFN_BUILT_IN_ISFINITE
  | CFN_BUILT_IN_ISSIGNALING
  | CASE_CFN_ISINF | CFN_BUILT_IN_ISINFD32 | CFN_BUILT_IN_ISINFD64
  | CFN_BUILT_IN_ISINFD128
  | CASE_CFN_ISNAN | CFN_BUILT_IN_ISNAND32 | CFN_BUILT_IN_ISNAND64
  | CFN_BUILT_IN_ISNAND128
  (* strings *)
  | CFN_BUILT_IN_STRLEN | CFN_BUILT_IN_STRSPN | CFN_BUILT_IN_STRCSPN
  | CFN_BUILT_IN_STRCMP | CFN_BUILT_IN_STRCASECMP
  | CFN_BUILT_IN_INDEX | CFN_BUILT_IN_STRCHR
  | CFN_BUILT_IN_RINDEX | CFN_BUILT_IN_STRRCHR | CFN_BUILT_IN_STRSTR
  (* add and subtract with carry *)
  | CFN_UADDC | CFN_USUBC.

(** ** Real operand, integer result *)

Section RealToInteger.

Context {RA : RealArith}.

(** [real_to_integer (r, &fail, precision)] of [real.cc]: the integer and
    the failure flag. *)
Variable real_to_integer_wide : real_value -> N -> wide_int * bool.

(** [fold_const_conversion]: [fn] rounds to an integral value, which is
    then converted to [precision] bits. *)
Definition fold_const_conversion
    (fn : real_format -> real_value -> real_value) (arg : real_value)
    (precision : N) (format : real_format) : option wide_int :=
  if negb (real_isfinite arg) then None
  else
    let rounded := fn format arg in
    let '(result, fail) := real_to_integer_wide rounded precision in
    if negb fail then Some result else None.

(** [fold_const_call_ss], real operand and integer result of
    [precision] bits; [format] is the format of the operand. *)
Definition fold_const_call_ss_int_real (fn : combined_fn_ext)
    (arg : real_value) (precision : N) (format : real_format)
    : option wide_int :=
  match fn with
  | CASE_CFN_SIGNBIT =>
      if real_isneg arg then Some (wi.one precision)
      else Some (wi.zero precision)
  | CASE_CFN_ILOGB =>
      (* For ilogb we don't know FP_ILOGB0, so only handle normal values.
         Proceed iff radix == 2.  *)
      if rvc_eqb (rv_cl arg) rvc_normal && (fmt_b format =? 2)
      then Some (wi.shwi (REAL_EXP arg - 1) precision)
      else None
  | CASE_CFN_ICEIL | CASE_CFN_LCEIL | CASE_CFN_LLCEIL =>
      fold_const_conversion real_ceil arg precision format
  | CASE_CFN_LFLOOR | CASE_CFN_IFLOOR | CASE_CFN_LLFLOOR =>
      fold_const_conversion real_floor arg precision format
  | CASE_CFN_IROUND | CASE_CFN_LROUND | CASE_CFN_LLROUND =>
      fold_const_conversion real_round arg precision format
  | CASE_CFN_IRINT | CASE_CFN_LRINT | CASE_CFN_LLRINT =>
      (* Not yet folded to a constant.  *)
      None
  | CASE_CFN_FINITE | CFN_BUILT_IN_FINITED32 | CFN_BUILT_IN_FINITED64
  | CFN_BUILT_IN_FINITED128 | CFN_BUILT_IN_ISFINITE =>
      Some (wi.shwi (if real_isfinite arg then 1 else 0) precision)
  | CFN_BUILT_IN_ISSIGNALING =>
      Some (wi.shwi (if real_issignaling_nan arg then 1 else 0) precision)
  | CASE_CFN_ISINF | CFN_BUILT_IN_ISINFD32 | CFN_BUILT_IN_ISINFD64
  | CFN_BUILT_IN_ISINFD128 =>
      if real_isinf arg
      then Some (wi.shwi (if rv_sign arg then -1 else 1) precision)
      else Some (wi.shwi 0 precision)
  | CASE_CFN_ISNAN | CFN_BUILT_IN_ISNAND32 | CFN_BUILT_IN_ISNAND64
  | CFN_BUILT_IN_ISNAND128 =>
      Some (wi.shwi (if real_isnan arg then 1 else 0) precision)
  | _ => None
  end.

End RealToInteger.

(** ** Vector reductions *)

(** The operand of a reduction: a [VECTOR_CST] with its elements (there
    is at least one) and whether [VECTOR_CST_NELTS] is a compile-time
    constant, or anything else. *)
Inductive vector_operand : Set :=
  | VECTOR_CST (first : tree) (rest : list tree) (nelts_is_constant : bool)
  | NOT_A_VECTOR (t : tree).

Definition CONSTANT_CLASS_P (t : tree) : bool :=
  match t with
  | INTEGER_CST _ _ _ | COMPLEX_CST _ _ _ => true
  | _ => false
  end.

Section Reductions.

(** [const_binop] of [fold-const.cc]: the folded operation or nothing. *)
Variable const_binop : tree_code -> tree_type -> tree -> tree -> option tree.

(** The loop of both functions: [res] is combined with the elements in
    order, and the first step that gives nothing or no constant ends
    the fold. *)
Fixpoint reduce_elts (code : tree_code) (type : tree_type) (res : tree)
    (elts : list tree) : option tree :=
  match elts with
  | [] => Some res
  | elt :: elts' =>
      match const_binop code type res elt with
      | None => None
      | Some res' =>
          if negb (CONSTANT_CLASS_P res') then None
          else reduce_elts code type res' elts'
      end
  end.

(** [fold_const_reduction]: [IFN_REDUC_<CODE> (arg)]. *)
Definition fold_const_reduction (type : tree_type) (arg : vector_operand)
    (code : tree_code) : option tree :=
  match arg with
  | VECTOR_CST first rest true => reduce_elts code type first rest
  | _ => None
  end.

(** [fold_const_fold_left]: [IFN_FOLD_LEFT_<CODE> (arg0, arg1)]. *)
Definition fold_const_fold_left (type : tree_type) (arg0 : tree)
    (arg1 : vector_operand) (code : tree_code) : option tree :=
  match arg1 with
  | VECTOR_CST first rest true => reduce_elts code type arg0 (first :: rest)
  | _ => None
  end.

End Reductions.

(** ** String functions and add-with-carry in the dispatcher *)

(** The host's string functions on NUL-terminated strings (given without
    their terminator).  A search yields the offset of the match; the
    terminator itself can be searched for. *)
Fixpoint strcmp (p0 p1 : list Z) : Z :=
  match p0, p1 with
  | [], [] => 0
  | [], c1 :: _ => - c1
  | c0 :: _, [] => c0
  | c0 :: t0, c1 :: t1 => if c0 =? c1 then strcmp t0 t1 else c0 - c1
  end.

Definition strlen (p : list Z) : Z := Z.of_nat (length p).

Fixpoint strchr (p : list Z) (c : Z) : option Z :=
  match p with
  | [] => if c =? 0 then Some 0 else None
  | x :: rest =>
      if x =? c then Some 0
      else match strchr rest c with
           | Some r => Some (r + 1)
           | None => None
           end
  end.

Fixpoint strrchr (p : list Z) (c : Z) : option Z :=
  match p with
  | [] => if c =? 0 then Some 0 else None
  | x :: rest =>
      match strrchr rest c with
      | Some r => Some (r + 1)
      | None => if x =? c then Some 0 else None
      end
  end.

Definition mem_char (c : Z) (set : list Z) : bool := existsb (Z.eqb c) set.

Fixpoint strspn (p accept : list Z) : Z :=
  match p with
  | [] => 0
  | x :: rest => if mem_char x accept then 1 + strspn rest accept else 0
  end.

Fixpoint strcspn (p reject : list Z) : Z :=
  match p with
  | [] => 0
  | x :: rest => if mem_char x reject then 0 else 1 + strcspn rest reject
  end.

Fixpoint is_prefix (needle p : list Z) : bool :=
  match needle, p with
  | [], _ => true
  | _ :: _, [] => false
  | a :: needle', x :: p' => (a =? x) && is_prefix needle' p'
  end.

Fixpoint strstr (p needle : list Z) : option Z :=
  if is_prefix needle p then Some 0
  else
    match p with
    | [] => None
    | _ :: rest =>
        match strstr rest needle with
        | Some r => Some (r + 1)
        | None => None
        end
    end.

Section StringDispatch.

Context {TG : Target}.

(** The numeric dispatchers [fold_const_call_1] reached through the
    [default:] labels. *)
Variable fold_const_call_1_ext1 :
  combined_fn_ext -> tree_type -> tree -> option tree.
Variable fold_const_call_1_ext2 :
  combined_fn_ext -> tree_type -> tree -> tree -> option tree.
Variable fold_const_call_1_ext3 :
  combined_fn_ext -> tree_type -> tree -> tree -> tree -> option tree.

(** [fold_const_call], one operand: [strlen]. *)
Definition fold_const_call_args1_str (fn : combined_fn_ext)
    (type : tree_type) (arg : tree) : option tree :=
  match fn with
  | CFN_BUILT_IN_STRLEN =>
      match c_getstr arg with
      | Some str => Some (build_int_cst type (strlen str))
      | None => None
      end
  | _ => fold_const_call_1_ext1 fn type arg
  end.

(** [fold_const_call], two operands: the string functions. *)
Definition fold_const_call_args2_str (fn : combined_fn_ext)
    (type : tree_type) (arg0 arg1 : tree) : option tree :=
  match fn with
  | CFN_BUILT_IN_STRSPN =>
      match c_getstr arg0, c_getstr arg1 with
      | Some p0, Some p1 => Some (build_int_cst type (strspn p0 p1))
      | _, _ => None
      end
  | CFN_BUILT_IN_STRCSPN =>
      match c_getstr arg0, c_getstr arg1 with
      | Some p0, Some p1 => Some (build_int_cst type (strcspn p0 p1))
      | _, _ => None
      end
  | CFN_BUILT_IN_STRCMP =>
      match c_getstr arg0, c_getstr arg1 with
      | Some p0, Some p1 => Some (build_cmp_result type (strcmp p0 p1))
      | _, _ => None
      end
  | CFN_BUILT_IN_STRCASECMP =>
      match c_getstr arg0, c_getstr arg1 with
      | Some p0, Some p1 =>
          let r := strcmp p0 p1 in
          if r =? 0 then Some (build_cmp_result type r) else None
      | _, _ => None
      end
  | CFN_BUILT_IN_INDEX | CFN_BUILT_IN_STRCHR =>
      match c_getstr arg0, target_char_cst_p arg1 with
      | Some p0, Some c =>
          match strchr p0 c with
          | None => Some (build_int_cst type 0)
          | Some r =>
              Some (fold_convert type (fold_build_pointer_plus_hwi arg0 r))
          end
      | _, _ => None
      end
  | CFN_BUILT_IN_RINDEX | CFN_BUILT_IN_STRRCHR =>
      match c_getstr arg0, target_char_cst_p arg1 with
      | Some p0, Some c =>
          match strrchr p0 c with
          | None => Some (build_int_cst type 0)
          | Some r =>
              Some (fold_convert type (fold_build_pointer_plus_hwi arg0 r))
          end
      | _, _ => None
      end
  | CFN_BUILT_IN_STRSTR =>
      match c_getstr arg1 with
      | Some p1 =>
          match c_getstr arg0 with
          | Some p0 =>
              match strstr p0 p1 with
              | None => Some (build_int_cst type 0)
              | Some r =>
                  Some (fold_convert type
                          (fold_build_pointer_plus_hwi arg0 r))
              end
          | None =>
              match p1 with
              | [] => Some (fold_convert type arg0)
              | _ :: _ => None
              end
          end
      | None => None
      end
  | _ => fold_const_call_1_ext2 fn type arg0 arg1
  end.

(** [fold_const_call], three operands: [IFN_UADDC] and [IFN_USUBC].  The
    result type is a complex type; the arithmetic is done in its
    element type, which any other type does not have. *)
Definition fold_const_call_args3_carry (fn : combined_fn_ext)
    (type : tree_type) (arg0 arg1 arg2 : tree) : option tree :=
  match fn with
  | CFN_UADDC | CFN_USUBC =>
      if integer_cst_p arg0 && integer_cst_p arg1 && integer_cst_p arg2 then
        match type with
        | COMPLEX_TYPE itype =>
            let ovf := false in
            let subcode :=
              match fn with CFN_UADDC => PLUS_EXPR | _ => MINUS_EXPR end in
            match int_const_binop subcode (fold_convert itype arg0)
                                  (fold_convert itype arg1) with
            | None => None
            | Some r =>
                let ovf :=
                  if arith_overflowed_p subcode itype arg0 arg1
                  then true else ovf in
                match int_const_binop subcode r (fold_convert itype arg2) with
                | None => None
                | Some r2 =>
                    if negb (is_INTEGER_CST r2) then None
                    else
                      let ovf :=
                        if arith_overflowed_p subcode itype r arg2
                        then true else ovf in
                      let r2 :=
                        if TREE_OVERFLOW r2 then drop_tree_overflow r2
                        else r2 in
                      Some (build_complex type r2
                              (build_int_cst itype (b2z ovf)))
                end
            end
        | _ => None
        end
      else None
  | _ => fold_const_call_1_ext3 fn type arg0 arg1 arg2
  end.

End StringDispatch.

(** * Safe iterator and sequence bases ([debug/safe_base.h])

    The members with a body in the header.  Iterators live in a store
    indexed by address; a pointer is an address or null.  [unsigned int]
    is 32 bits wide. *)

Module SafeBase.

Definition UINT_WIDTH : Z := 32.

(** Increment of an [unsigned int]. *)
Definition uint_incr (v : Z) : Z := (v + 1) mod 2 ^ UINT_WIDTH.

Definition address : Set := positive.
Definition pointer : Set := option address.

Definition pointer_eqb (p q : pointer) : bool :=
  match p, q with
  | None, None => true
  | Some a, Some b => Pos.eqb a b
  | _, _ => false
  end.

Module _Safe_iterator_base.

Record t : Set := mk {
  _M_sequence : pointer;
  _M_version : Z;
  _M_prior : pointer;
  _M_next : pointer
}.

(** The default constructor: a singular iterator. *)
Definition init : t := mk None 0 None None.

(** [_M_attached_to]. *)
Definition _M_attached_to (this : t) (__seq : pointer) : bool :=
  pointer_eqb (_M_sequence this) __seq.

(** [_M_invalidate]. *)
Definition _M_invalidate (this : t) : t :=
  mk (_M_sequence this) 0 (_M_prior this) (_M_next this).

End _Safe_iterator_base.

Module _Safe_sequence_base.

Record t : Set := mk {
  _M_iterators : pointer;
  _M_const_iterators : pointer;
  _M_version : Z
}.

(** The default constructor: version 1 and no iterators. *)
Definition init : t := mk None None 1.

(** [_M_invalidate_all]. *)
Definition _M_invalidate_all (this : t) : t :=
  let version := uint_incr (_M_version this) in
  if version =? 0
  then mk (_M_iterators this) (_M_const_iterators this) 1
  else mk (_M_iterators this) (_M_const_iterators this) version.

End _Safe_sequence_base.

(** The store of iterators. *)
Definition store : Type := address -> option _Safe_iterator_base.t.

Definition store_set (h : store) (a : address) (it : _Safe_iterator_base.t)
    : store :=
  fun b => if Pos.eqb b a then Some it else h b.

Definition set_M_next (it : _Safe_iterator_base.t) (p : pointer)
    : _Safe_iterator_base.t :=
  _Safe_iterator_base.mk (_Safe_iterator_base._M_sequence it)
    (_Safe_iterator_base._M_version it) (_Safe_iterator_base._M_prior it) p.

Definition set_M_prior (it : _Safe_iterator_base.t) (p : pointer)
    : _Safe_iterator_base.t :=
  _Safe_iterator_base.mk (_Safe_iterator_base._M_sequence it)
    (_Safe_iterator_base._M_version it) p (_Safe_iterator_base._M_next it).

(** [p->_M_next = v] and [p->_M_prior = v] for a non-null [p]; a pointer
    to no object of the store is not dereferenced. *)
Definition write_M_next (h : store) (p : address) (v : pointer) : store :=
  match h p with
  | Some it => store_set h p (set_M_next it v)
  | None => h
  end.

Definition write_M_prior (h : store) (p : address) (v : pointer) : store :=
  match h p with
  | Some it => store_set h p (set_M_prior it v)
  | None => h
  end.

(** [_Safe_iterator_base::_M_unlink] on the iterator at [this].  The
    members [_M_prior] and [_M_next] of [*this] are read again for the
    second statement, after the first assignment. *)
Definition _M_unlink (h : store) (this : address) : store :=
  match h this with
  | None => h
  | Some it =>
      let h :=
        match _Safe_iterator_base._M_prior it with
        | Some prior => write_M_next h prior (_Safe_iterator_base._M_next it)
        | None => h
        end in
      match h this with
      | None => h
      | Some it =>
          match _Safe_iterator_base._M_next it with
          | Some next => write_M_prior h next (_Safe_iterator_base._M_prior it)
          | None => h
          end
      end
  end.

(** The iterators at the addresses [l], in this order, are linked as a
    segment of a doubly-linked list that is entered from [prior] and
    left to [next]. *)
Definition head_or (l : list address) (next : pointer) : pointer :=
  match l with
  | [] => next
  | a :: _ => Some a
  end.

Fixpoint linked (h : store) (prior : pointer) (l : list address)
    (next : pointer) : Prop :=
  match l with
  | [] => True
  | a :: l' =>
      (exists it, h a = Some it
                  /\ _Safe_iterator_base._M_prior it = prior
                  /\ _Safe_iterator_base._M_next it = head_or l' next)
      /\ linked h (Some a) l' next
  end.

(** The state of a sequence after [n] calls of [_M_invalidate_all]. *)
Definition versions (n : nat) (s : _Safe_sequence_base.t)
    : _Safe_sequence_base.t :=
  Nat.iter n _Safe_sequence_base._M_invalidate_all s.

(** The effect of [_M_unlink] in one formula: the iterator that [next]
    points to gets the [prior] of the unlinked one, the iterator that
    [prior] points to gets its [next]. *)
Definition relink (P N : pointer) (h : store) : store :=
  fun a =>
    match h a with
    | None => None
    | Some ita =>
        Some (_Safe_iterator_base.mk
                (_Safe_iterator_base._M_sequence ita)
                (_Safe_iterator_base._M_version ita)
                (if pointer_eqb (Some a) N then P
                 else _Safe_iterator_base._M_prior ita)
                (if pointer_eqb (Some a) P then N
                 else _Safe_iterator_base._M_next ita))
    end.

(** A pointer that is null or points to no iterator of [l]. *)
Definition outside (p : pointer) (l : list address) : Prop :=
  match p with
  | Some a => ~ In a l
  | None => True
  end.

(** The last address of [l], or [prior] for the empty list. *)
Definition last_or (l : list address) (prior : pointer) : pointer :=
  fold_left (fun _ a => Some a) l prior.

(** A store with three iterators at 1, 2 and 3, linked in this order. *)
Definition sample_store : store :=
  fun a =>
    match a with
    | 1%positive =>
        Some (_Safe_iterator_base.mk (Some 9%positive) 1 None (Some 2%positive))
    | 2%positive =>
        Some (_Safe_iterator_base.mk (Some 9%positive) 1 (Some 1%positive)
                (Some 3%positive))
    | 3%positive =>
        Some (_Safe_iterator_base.mk (Some 9%positive) 1 (Some 2%positive) None)
    | _ => None
    end.

End SafeBase.

(** * A second reference backend

    The reference backend extended with a few more exact values on
    integer-valued operands: maximum, fused multiply-add, the Bessel
    function of order 0 at 0, sine and cosine at 0, the complex
    exponential at 0 and complex integer powers of real integers.
    Everywhere else it answers NaN, so that the folder declines. *)

Module Calc.

Definition integers2 (m0 m1 : Ref.mpfr) : bool :=
  Ref.is_integer (Ref.m_val m0) && Ref.is_integer (Ref.m_val m1).

Definition call2 (f : mpfr_func2) (st : mpfr_flags) (m0 m1 : Ref.mpfr)
    (rnd : mpfr_rnd_t) : Ref.mpfr * Z * mpfr_flags :=
  match f with
  | mpfr_max =>
      if integers2 m0 m1
      then Ref.answer st m0
             (Z.max (Ref.Z_of_real (Ref.m_val m0))
                    (Ref.Z_of_real (Ref.m_val m1)))
      else Ref.answer_nan st m0
  | _ => Ref.call2 f st m0 m1 rnd
  end.

Definition call2_si (f : mpfr_func2_si) (st : mpfr_flags) (n : Z)
    (m : Ref.mpfr) (rnd : mpfr_rnd_t) : Ref.mpfr * Z * mpfr_flags :=
  match f with
  | mpfr_jn =>
      if (n =? 0) && Ref.zero_p m then Ref.answer st m 1
      else Ref.answer_nan st m
  | mpfr_yn => Ref.answer_nan st m
  end.

Definition call3 (f : mpfr_func3) (st : mpfr_flags) (m0 m1 m2 : Ref.mpfr)
    (rnd : mpfr_rnd_t) : Ref.mpfr * Z * mpfr_flags :=
  if integers2 m0 m1 && Ref.is_integer (Ref.m_val m2)
  then Ref.answer st m0
         (Ref.Z_of_real (Ref.m_val m0) * Ref.Z_of_real (Ref.m_val m1)
          + Ref.Z_of_real (Ref.m_val m2))
  else Ref.answer_nan st m0.

Definition sin_cos (st : mpfr_flags) (m : Ref.mpfr) (rnd : mpfr_rnd_t)
    : Ref.mpfr * Ref.mpfr * Z * mpfr_flags :=
  if Ref.zero_p m
  then (m, fst (fst (Ref.answer st m 1)), 0, st)
  else (fst (fst (Ref.answer_nan st m)), fst (fst (Ref.answer_nan st m)), 0,
        Ref.set_flags true false false st).

Definition ccall1 (f : mpc_func1) (st : mpfr_flags) (m : Ref.mpfr * Ref.mpfr)
    (rnd : mpc_rnd_t) : (Ref.mpfr * Ref.mpfr) * Z * mpfr_flags :=
  match f with
  | mpc_exp =>
      if Ref.zero_p (fst m) && Ref.zero_p (snd m)
      then (fst (fst (Ref.answer st (fst m) 1)), snd m, 0, st)
      else (fst (fst (Ref.answer_nan st (fst m))),
            fst (fst (Ref.answer_nan st (snd m))), 0,
            Ref.set_flags true false false st)
  | _ =>
      (fst (fst (Ref.answer_nan st (fst m))),
       fst (fst (Ref.answer_nan st (snd m))), 0,
       Ref.set_flags true false false st)
  end.

Definition ccall2 (f : mpc_func2) (st : mpfr_flags)
    (m0 m1 : Ref.mpfr * Ref.mpfr) (rnd : mpc_rnd_t)
    : (Ref.mpfr * Ref.mpfr) * Z * mpfr_flags :=
  let x := Ref.Z_of_real (Ref.m_val (fst m0)) in
  let y := Ref.Z_of_real (Ref.m_val (fst m1)) in
  if integers2 (fst m0) (fst m1)
     && Ref.zero_p (snd m0) && Ref.zero_p (snd m1) && (0 <=? y)
  then
    let '(r, ternary, st') := Ref.answer st (fst m0) (x ^ y) in
    (r, snd m0, ternary, st')
  else (fst (fst (Ref.answer_nan st (fst m0))),
        fst (fst (Ref.answer_nan st (snd m0))), 0,
        Ref.set_flags true false false st).

#[export] Instance mpfr_lib : MpfrLib := {
  mpfr_t := Ref.mpfr;
  mpfr_number_p := Ref.number_p;
  mpfr_zero_p := Ref.zero_p;
  mpfr_from_real := fun prec r _ =>
    Ref.mk_mpfr prec (Ref.round_to_precision prec r);
  real_from_mpfr := fun m format _ => Ref.convert format (Ref.m_val m);
  mpfr_call1 := Ref.call1;
  mpfr_call2 := call2;
  mpfr_call2_si := call2_si;
  mpfr_call3 := call3;
  mpfr_sin_cos := sin_cos;
  mpc_call1 := ccall1;
  mpc_call2 := ccall2;
  MPFR_VERSION_ge_4_2_0 := true
}.

(** [real_to_integer] to a given precision: the integer part and
    whether it does not fit the signed range of [precision] bits. *)
Definition to_integer_wide (r : real_value) (precision : N)
    : wide_int * bool :=
  let v := Ref.Z_of_real (Ref.trunc ieee_double_format r) in
  (wi.shwi v precision,
   negb (real_isfinite r)
   || negb ((- 2 ^ (Z.of_N precision - 1) <=? v)
            && (v <? 2 ^ (Z.of_N precision - 1)))).

(** Sample constants: 0, 1, 2, 3, 5 and 7, infinity and a quiet NaN. *)
Definition real_0 : real_value := real_of_Z 0.
Definition real_1 : real_value := real_of_Z 1.
Definition real_2 : real_value := real_of_Z 2.
Definition real_5 : real_value := real_of_Z 5.
Definition real_7 : real_value := real_of_Z 7.
Definition qnan : real_value := Ref.get_canonical_qnan false.

(** [const_binop] on integer constants only. *)
Definition const_binop (code : tree_code) (type : tree_type)
    (arg1 arg2 : tree) : option tree :=
  int_const_binop code arg1 arg2.

Definition uchar (v : Z) : tree :=
  INTEGER_CST (INTEGER_TYPE 8 UNSIGNED QImode) v false.

Definition int_cst (v : Z) : tree := INTEGER_CST Ref.int_type v false.

Definition no_default_ext1 (_ : combined_fn_ext) (_ : tree_type) (_ : tree)
    : option tree := None.
Definition no_default_ext2 (_ : combined_fn_ext) (_ : tree_type)
    (_ _ : tree) : option tree := None.
Definition no_default_ext3 (_ : combined_fn_ext) (_ : tree_type)
    (_ _ _ : tree) : option tree := None.

End Calc.

(** * Reference notions for the further properties *)

(** The lexicographic order on byte strings; a proper prefix comes
    first. *)
Fixpoint lex_compare (p0 p1 : list Z) : comparison :=
  match p0, p1 with
  | [], [] => Eq
  | [], _ :: _ => Lt
  | _ :: _, [] => Gt
  | c0 :: t0, c1 :: t1 =>
      match c0 ?= c1 with
      | Eq => lex_compare t0 t1
      | Lt => Lt
      | Gt => Gt
      end
  end.

Definition comparison_sign (c : comparison) : Z :=
  match c with
  | Lt => -1
  | Eq => 0
  | Gt => 1
  end.

(** Bytes read as [unsigned char]. *)
Definition unsigned_chars (p : list Z) : Prop :=
  Forall (fun c => 0 <= c <= 255) p.

(** The real-to-integer conversions and the rounding each one applies
    before the conversion. *)
Definition ceil_conversions : list combined_fn_ext :=
  [CASE_CFN_ICEIL; CASE_CFN_LCEIL; CASE_CFN_LLCEIL].
Definition floor_conversions : list combined_fn_ext :=
  [CASE_CFN_LFLOOR; CASE_CFN_IFLOOR; CASE_CFN_LLFLOOR].
Definition round_conversions : list combined_fn_ext :=
  [CASE_CFN_IROUND; CASE_CFN_LROUND; CASE_CFN_LLROUND].
Definition rint_conversions : list combined_fn_ext :=
  [CASE_CFN_IRINT; CASE_CFN_LRINT; CASE_CFN_LLRINT].

(** * Properties *)

(** ** The exactness gate *)

Lemma rvc_eqb_eq (a b : real_value_class) : rvc_eqb a b = true <-> a = b.
Proof. destruct a, b; simpl; split; intro H; congruence. Qed.

Lemma rvc_eqb_refl (a : real_value_class) : rvc_eqb a a = true.
Proof. destruct a; reflexivity. Qed.

Lemma real_identical_same_value (a b : real_value) :
  real_identical a b = true -> same_value a b.
Proof.
  unfold real_identical, same_value.
  destruct (rvc_eqb (rv_cl a) (rv_cl b)) eqn:Hcl; simpl; [| discriminate].
  apply rvc_eqb_eq in Hcl.
  destruct (Bool.eqb (rv_sign a) (rv_sign b)) eqn:Hs; simpl; [| discriminate].
  apply Bool.eqb_prop in Hs.
  intros H. split; [exact Hcl |]. split; [exact Hs |].
  intros Hn. rewrite Hn in H.
  destruct (Bool.eqb (rv_decimal a) (rv_decimal b)) eqn:Hd; simpl in H;
    [| discriminate].
  destruct (REAL_EXP a =? REAL_EXP b) eqn:He; simpl in H; [| discriminate].
  split; [now apply Bool.eqb_prop |].
  split; now apply Z.eqb_eq.
Qed.

Lemma same_value_isfinite (a b : real_value) :
  same_value a b -> real_isfinite b = true -> real_isfinite a = true.
Proof.
  intros (Hcl & _) Hb. unfold real_isfinite in *. now rewrite Hcl.
Qed.

Section GateProperties.

Context {RA : RealArith} {ML : MpfrLib}.
Variable opts : options.

Lemma do_mpfr_ckconv_accepted st m inexact format result :
  do_mpfr_ckconv opts st m inexact format = Some result ->
  gate_accepted opts st m inexact format result.
Proof.
  unfold do_mpfr_ckconv, gate_accepted.
  destruct (mpfr_number_p m) eqn:Hnum; simpl; [| discriminate].
  destruct (mpfr_overflow_p st) eqn:Hov; simpl; [discriminate |].
  destruct (mpfr_underflow_p st) eqn:Hun; simpl; [discriminate |].
  destruct (flag_rounding_math opts && inexact) eqn:Hrm; [discriminate |].
  destruct (real_isfinite (real_from_mpfr m format MPFR_RNDN)) eqn:Hfin;
    simpl; [| discriminate].
  destruct (xorb _ _) eqn:Hz; [discriminate |].
  destruct (real_identical _ _) eqn:Hid; [| discriminate].
  intros H; injection H as <-.
  pose proof (real_identical_same_value _ _ Hid) as Hsame.
  apply xorb_eq in Hz.
  split; [trivial |]. split; [trivial |]. split; [trivial |].
  split; [intros Hr; rewrite Hr in Hrm; exact Hrm |].
  split; [trivial |].
  split; [rewrite <- Hz; symmetry; apply rvc_eqb_eq |].
  split; [trivial |]. split; [trivial |].
  split; [exact Hsame |].
  eapply same_value_isfinite; eauto.
Qed.

Lemma gate_accepted_round_trips st m inexact format result :
  gate_accepted opts st m inexact format result -> round_trips format result.
Proof.
  intros (_ & _ & _ & _ & Hfin & _ & Heq & Hid & Hsame & Hres).
  split; [exact Hres |].
  exists (real_from_mpfr m format MPFR_RNDN). auto.
Qed.

Lemma do_mpc_ckconv_accepted st m inexact format result_real result_imag :
  do_mpc_ckconv opts st m inexact format = Some (result_real, result_imag) ->
  gate_accepted opts st (mpc_realref m) inexact format result_real
  /\ gate_accepted opts st (mpc_imagref m) inexact format result_imag.
Proof.
  unfold do_mpc_ckconv, gate_accepted.
  destruct (mpfr_number_p (mpc_realref m)) eqn:Hnr; simpl; [| discriminate].
  destruct (mpfr_number_p (mpc_imagref m)) eqn:Hni; simpl; [| discriminate].
  destruct (mpfr_overflow_p st) eqn:Hov; simpl; [discriminate |].
  destruct (mpfr_underflow_p st) eqn:Hun; simpl; [discriminate |].
  destruct (flag_rounding_math opts && inexact) eqn:Hrm; [discriminate |].
  destruct (real_isfinite (real_from_mpfr (mpc_realref m) format MPFR_RNDN))
    eqn:Hfr; simpl; [| discriminate].
  destruct (real_isfinite (real_from_mpfr (mpc_imagref m) format MPFR_RNDN))
    eqn:Hfi; simpl; [| discriminate].
  destruct (xorb (rvc_eqb (rv_cl (real_from_mpfr (mpc_realref m) _ _)) _) _)
    eqn:Hzr; simpl; [discriminate |].
  destruct (xorb (rvc_eqb (rv_cl (real_from_mpfr (mpc_imagref m) _ _)) _) _)
    eqn:Hzi; simpl; [discriminate |].
  destruct (real_identical (real_convert format
              (real_from_mpfr (mpc_realref m) format MPFR_RNDN)) _) eqn:Hir;
    simpl; [| discriminate].
  destruct (real_identical (real_convert format
              (real_from_mpfr (mpc_imagref m) format MPFR_RNDN)) _) eqn:Hii;
    simpl; [| discriminate].
  intros H; injection H as <- <-.
  pose proof (real_identical_same_value _ _ Hir) as Hsr.
  pose proof (real_identical_same_value _ _ Hii) as Hsi.
  apply xorb_eq in Hzr. apply xorb_eq in Hzi.
  assert (Hin : flag_rounding_math opts = true -> inexact = false)
    by (intros Hr; rewrite Hr in Hrm; exact Hrm).
  split.
  - split; [trivial |]. split; [trivial |]. split; [trivial |].
    split; [exact Hin |]. split; [trivial |].
    split; [rewrite <- Hzr; symmetry; apply rvc_eqb_eq |].
    split; [trivial |]. split; [trivial |].
    split; [exact Hsr |].
    eapply same_value_isfinite; eauto.
  - split; [trivial |]. split; [trivial |]. split; [trivial |].
    split; [exact Hin |]. split; [trivial |].
    split; [rewrite <- Hzi; symmetry; apply rvc_eqb_eq |].
    split; [trivial |]. split; [trivial |].
    split; [exact Hsi |].
    eapply same_value_isfinite; eauto.
Qed.

End GateProperties.

Section GenericEvaluators.

Context {RA : RealArith} {ML : MpfrLib}.
Variable opts : options.

Local Ltac through_gate :=
  match goal with
  | H : do_mpfr_ckconv _ _ _ _ _ = Some _ |- round_trips _ _ =>
      eapply gate_accepted_round_trips, do_mpfr_ckconv_accepted, H
  end.

Lemma do_mpfr_arg1_round_trips func arg format result :
  do_mpfr_arg1 opts func arg format = Some result ->
  round_trips format result.
Proof.
  unfold do_mpfr_arg1.
  destruct (negb (fmt_b format =? 2) || negb (real_isfinite arg));
    [discriminate |].
  destruct (mpfr_call1 _ _ _ _) as [[m ternary] st]. intros H. through_gate.
Qed.

Lemma do_mpfr_arg2_round_trips func arg0 arg1 format result :
  do_mpfr_arg2 opts func arg0 arg1 format = Some result ->
  round_trips format result.
Proof.
  unfold do_mpfr_arg2.
  destruct (negb (fmt_b format =? 2) || negb (real_isfinite arg0)
            || negb (real_isfinite arg1)); [discriminate |].
  destruct (mpfr_call2 _ _ _ _ _) as [[m ternary] st]. intros H. through_gate.
Qed.

Lemma do_mpfr_arg2_si_round_trips func arg0 arg1 format result :
  do_mpfr_arg2_si opts func arg0 arg1 format = Some result ->
  round_trips format result.
Proof.
  unfold do_mpfr_arg2_si.
  destruct (negb (fmt_b format =? 2) || negb (real_isfinite arg1));
    [discriminate |].
  destruct (mpfr_call2_si _ _ _ _ _) as [[m ternary] st].
  intros H. through_gate.
Qed.

Lemma do_mpfr_arg3_round_trips func arg0 arg1 arg2 format result :
  do_mpfr_arg3 opts func arg0 arg1 arg2 format = Some result ->
  round_trips format result.
Proof.
  unfold do_mpfr_arg3.
  destruct (negb (fmt_b format =? 2) || negb (real_isfinite arg0)
            || negb (real_isfinite arg1) || negb (real_isfinite arg2));
    [discriminate |].
  destruct (mpfr_call3 _ _ _ _ _ _) as [[m ternary] st].
  intros H. through_gate.
Qed.

Lemma do_mpfr_sincos_round_trips arg format result_sin result_cos :
  do_mpfr_sincos opts arg format = Some (result_sin, result_cos) ->
  round_trips format result_sin /\ round_trips format result_cos.
Proof.
  unfold do_mpfr_sincos.
  destruct (negb (fmt_b format =? 2) || negb (real_isfinite arg));
    [discriminate |].
  destruct (mpfr_sin_cos _ _ _) as [[[ms mc] ternary] st].
  destruct (do_mpfr_ckconv opts st ms _ format) as [rs |] eqn:Hs;
    [| discriminate].
  destruct (do_mpfr_ckconv opts st mc _ format) as [rc |] eqn:Hc;
    [| discriminate].
  intros H; injection H as <- <-. split; through_gate.
Qed.

Lemma do_mpc_ckconv_round_trips st m inexact format result_real result_imag :
  do_mpc_ckconv opts st m inexact format = Some (result_real, result_imag) ->
  round_trips format result_real /\ round_trips format result_imag.
Proof.
  intros H. apply do_mpc_ckconv_accepted in H. destruct H as [Hr Hi].
  split; eapply gate_accepted_round_trips; eauto.
Qed.

Lemma do_mpc_arg1_round_trips func arg_real arg_imag format rr ri :
  do_mpc_arg1 opts func arg_real arg_imag format = Some (rr, ri) ->
  round_trips format rr /\ round_trips format ri.
Proof.
  unfold do_mpc_arg1.
  destruct (negb (fmt_b format =? 2) || negb (real_isfinite arg_real)
            || negb (real_isfinite arg_imag)); [discriminate |].
  destruct (mpc_call1 _ _ _ _) as [[m ternary] st].
  apply do_mpc_ckconv_round_trips.
Qed.

Lemma do_mpc_arg2_round_trips func a0r a0i a1r a1i format rr ri :
  do_mpc_arg2 opts func a0r a0i a1r a1i format = Some (rr, ri) ->
  round_trips format rr /\ round_trips format ri.
Proof.
  unfold do_mpc_arg2.
  destruct (negb (real_isfinite a0r) || negb (real_isfinite a0i)
            || negb (real_isfinite a1r) || negb (real_isfinite a1i));
    [discriminate |].
  destruct (mpc_call2 _ _ _ _ _) as [[m ternary] st].
  apply do_mpc_ckconv_round_trips.
Qed.

End GenericEvaluators.

(** C1, as the code has it.  The exactness gate certifies a round trip.
    When [do_mpfr_ckconv] accepts a working-precision number, that
    number is finite, neither the overflow nor the underflow flag is
    raised (and the call was exact under [-frounding-math]), its
    conversion to the target format is finite and is zero exactly when
    the number is, and converting that value to the format again
    reproduces it bit for bit; [do_mpc_ckconv] certifies the same of the
    real and of the imaginary part.  Hence every constant folded by the
    generic MPFR and MPC evaluators, which all end in the gate, is
    finite and is reproduced exactly by its own re-conversion. *)
Theorem exactness_gate_round_trips :
  forall (RA : RealArith) (ML : MpfrLib) (opts : options)
         (format : real_format),
    (forall st m inexact result,
        do_mpfr_ckconv opts st m inexact format = Some result ->
        gate_accepted opts st m inexact format result
        /\ round_trips format result)
    /\ (forall st m inexact result_real result_imag,
        do_mpc_ckconv opts st m inexact format
          = Some (result_real, result_imag) ->
        gate_accepted opts st (mpc_realref m) inexact format result_real
        /\ gate_accepted opts st (mpc_imagref m) inexact format result_imag
        /\ round_trips format result_real
        /\ round_trips format result_imag)
    /\ (forall func arg result,
        do_mpfr_arg1 opts func arg format = Some result ->
        round_trips format result)
    /\ (forall func arg0 arg1 result,
        do_mpfr_arg2 opts func arg0 arg1 format = Some result ->
        round_trips format result)
    /\ (forall func arg0 arg1 result,
        do_mpfr_arg2_si opts func arg0 arg1 format = Some result ->
        round_trips format result)
    /\ (forall func arg0 arg1 arg2 result,
        do_mpfr_arg3 opts func arg0 arg1 arg2 format = Some result ->
        round_trips format result)
    /\ (forall arg result_sin result_cos,
        do_mpfr_sincos opts arg format = Some (result_sin, result_cos) ->
        round_trips format result_sin /\ round_trips format result_cos)
    /\ (forall func arg_real arg_imag result_real result_imag,
        do_mpc_arg1 opts func arg_real arg_imag format
          = Some (result_real, result_imag) ->
        round_trips format result_real /\ round_trips format result_imag)
    /\ (forall func arg0_real arg0_imag arg1_real arg1_imag
               result_real result_imag,
        do_mpc_arg2 opts func arg0_real arg0_imag arg1_real arg1_imag format
          = Some (result_real, result_imag) ->
        round_trips format result_real /\ round_trips format result_imag).
Proof.
  intros RA ML opts format.
  split.
  { intros st m inexact result H. split.
    - now apply do_mpfr_ckconv_accepted.
    - eapply gate_accepted_round_trips, do_mpfr_ckconv_accepted, H. }
  split.
  { intros st m inexact rr ri H.
    destruct (do_mpc_ckconv_accepted opts _ _ _ _ _ _ H) as [Hr Hi].
    destruct (do_mpc_ckconv_round_trips opts _ _ _ _ _ _ H) as [Tr Ti].
    auto. }
  split; [intros; eapply do_mpfr_arg1_round_trips; eauto |].
  split; [intros; eapply do_mpfr_arg2_round_trips; eauto |].
  split; [intros; eapply do_mpfr_arg2_si_round_trips; eauto |].
  split; [intros; eapply do_mpfr_arg3_round_trips; eauto |].
  split; [intros; eapply do_mpfr_sincos_round_trips; eauto |].
  split; [intros; eapply do_mpc_arg1_round_trips; eauto |].
  intros; eapply do_mpc_arg2_round_trips; eauto.
Qed.

(** C1 as the specification words it does not hold of every folded
    constant: the closed-form handlers do not go through the gate.
    [logb] of plus infinity folds to plus infinity, [copysign] of a
    signaling NaN folds to that NaN with the new sign, and [cproj] of
    an infinite complex number folds to (plus infinity, zero); none of
    these results is finite. *)
Lemma folded_constant_not_finite :
  (fold_const_call_ss_real (RA := Ref.real_arith) (ML := Ref.mpfr_lib)
     Ref.default_options CASE_CFN_LOGB dconstinf ieee_double_format
   = Some dconstinf
   /\ real_isfinite dconstinf = false)
  /\ (fold_const_call_sss_real (RA := Ref.real_arith) (ML := Ref.mpfr_lib)
        Ref.default_options CASE_CFN_COPYSIGN Ref.snan dconstm1
        ieee_double_format
      = Some (set_sign Ref.snan true)
      /\ real_isfinite (set_sign Ref.snan true) = false)
  /\ (fold_const_call_cc (RA := Ref.real_arith) (ML := Ref.mpfr_lib)
        Ref.default_options CASE_CFN_CPROJ dconstinf dconst1
        ieee_double_format
      = Some (dconstinf, dconst0)
      /\ real_isfinite dconstinf = false).
Proof. repeat split. Qed.

(** ** Domain guards of the real evaluator *)

Section Comparison.

Context {RA : RealArith}.

(** With a NaN operand the comparison is the caller's [nan_result]. *)
Lemma do_compare_unordered a b n :
  rv_cl a = rvc_nan \/ rv_cl b = rvc_nan -> do_compare a b n = n.
Proof.
  unfold do_compare. intros [H | H]; rewrite H.
  - destruct (rv_cl b); reflexivity.
  - destruct (rv_cl a); reflexivity.
Qed.

(** Without one, and on binary constants, it does not depend on it. *)
Lemma do_compare_ordered a b n1 n2 :
  rv_decimal a = false -> rv_decimal b = false ->
  rv_cl a <> rvc_nan -> rv_cl b <> rvc_nan ->
  do_compare a b n1 = do_compare a b n2.
Proof.
  unfold do_compare. intros Ha Hb Hna Hnb. rewrite Ha, Hb.
  destruct (rv_cl a), (rv_cl b); try reflexivity; congruence.
Qed.

Lemma do_compare_cases a b n :
  rv_decimal a = false -> rv_decimal b = false ->
  do_compare a b n = n \/ forall n', do_compare a b n' = do_compare a b n.
Proof.
  intros Ha Hb.
  destruct (rv_cl a) eqn:Ca;
    try (destruct (rv_cl b) eqn:Cb;
         try (right; intros n'; apply do_compare_ordered; congruence));
    left; apply do_compare_unordered; auto.
Qed.

(** [x < c] excludes [x >= c]. *)
Lemma real_less_not_ge arg c :
  rv_decimal arg = false -> rv_decimal c = false ->
  real_compare LT_EXPR arg c = true -> real_compare GE_EXPR arg c = false.
Proof.
  simpl. unfold real_less. intros Ha Hc H.
  destruct (do_compare_cases arg c 1 Ha Hc) as [E | E].
  - rewrite E in H. discriminate.
  - rewrite (E (-1)). apply Z.ltb_lt in H. apply Z.leb_gt. exact H.
Qed.

(** [x <= c] excludes [x > c]. *)
Lemma real_le_not_gt arg c :
  rv_decimal arg = false -> rv_decimal c = false ->
  real_compare LE_EXPR arg c = true -> real_compare GT_EXPR arg c = false.
Proof.
  simpl. intros Ha Hc H.
  destruct (do_compare_cases arg c 1 Ha Hc) as [E | E].
  - rewrite E in H. discriminate.
  - rewrite (E (-1)). apply Z.leb_le in H. apply Z.ltb_ge. exact H.
Qed.

(** [x > c] excludes [x <= c]. *)
Lemma real_gt_not_le arg c :
  rv_decimal arg = false -> rv_decimal c = false ->
  real_compare GT_EXPR arg c = true -> real_compare LE_EXPR arg c = false.
Proof.
  simpl. intros Ha Hc H.
  destruct (do_compare_cases arg c (-1) Ha Hc) as [E | E].
  - rewrite E in H. discriminate.
  - rewrite (E 1). apply Z.ltb_lt in H. apply Z.leb_gt. exact H.
Qed.

(** What "below zero" means for a binary constant: a negative normal
    number or minus infinity. *)
Lemma real_less_dconst0 arg :
  rv_decimal arg = false ->
  (real_compare LT_EXPR arg dconst0 = true
   <-> rv_sign arg = true /\ (rv_cl arg = rvc_normal \/ rv_cl arg = rvc_inf)).
Proof.
  intros Ha. simpl. unfold real_less, do_compare. rewrite Ha. simpl.
  destruct (rv_cl arg), (rv_sign arg); simpl; split;
    first [ discriminate | reflexivity | intros [? [? | ?]]; discriminate
          | intros _; split; [reflexivity | auto] ].
Qed.

End Comparison.

(** C2.  The domain guards of the real evaluator reject an argument
    outside the domain of the function whatever the backend: for every
    constant of a binary format, [sqrt] of an argument below 0, [log],
    [log2], [log10], [y0] and [y1] of an argument at most 0, [log1p] of
    an argument at most -1, [asin], [acos] and [atanh] of an argument
    below -1 or above 1 and [acosh] of an argument below 1 are not
    folded; in particular [sqrt (-1)], [log (0)], [log (-1)], [asin (2)]
    and [acosh (0)] are not. *)
Theorem domain_guards_reject :
  forall (RA : RealArith) (ML : MpfrLib) (opts : options)
         (format : real_format),
    (forall fn arg,
        rv_decimal arg = false ->
        out_of_domain fn arg ->
        fold_const_call_ss_real opts fn arg format = None)
    /\ fold_const_call_ss_real opts CASE_CFN_SQRT dconstm1 format = None
    /\ fold_const_call_ss_real opts CASE_CFN_LOG dconst0 format = None
    /\ fold_const_call_ss_real opts CASE_CFN_LOG dconstm1 format = None
    /\ fold_const_call_ss_real opts CASE_CFN_ASIN dconst2 format = None
    /\ fold_const_call_ss_real opts CASE_CFN_ACOSH dconst0 format = None.
Proof.
  intros RA ML opts format.
  assert (G : forall fn arg,
             rv_decimal arg = false -> out_of_domain fn arg ->
             fold_const_call_ss_real opts fn arg format = None).
  { intros fn arg Hd Hood.
    destruct fn; cbv beta iota delta [out_of_domain] in Hood;
      try contradiction; unfold fold_const_call_ss_real;
      try destruct Hood as [Hood | Hood];
      first
        [ erewrite real_less_not_ge
            by first [exact Hd | exact Hood | reflexivity]; reflexivity
        | erewrite real_le_not_gt
            by first [exact Hd | exact Hood | reflexivity]; reflexivity
        | erewrite real_gt_not_le
            by first [exact Hd | exact Hood | reflexivity];
          rewrite andb_false_r; reflexivity ]. }
  split; [exact G |].
  repeat split; apply G; try reflexivity; simpl; auto.
Qed.

(** ** The integer-power fallback of [pow] *)

Section PowFallback.

Context {RA : RealArith} {ML : MpfrLib}.
Variable opts : options.

(** The generic evaluation comes first and its result is final. *)
Lemma fold_const_pow_generic arg0 arg1 format result :
  do_mpfr_arg2 opts mpfr_pow arg0 arg1 format = Some result ->
  fold_const_pow opts arg0 arg1 format = Some result.
Proof. unfold fold_const_pow. intros ->. reflexivity. Qed.

(** When it fails, the outcome is that of the fallback. *)
Lemma fold_const_pow_fallback arg0 arg1 format :
  do_mpfr_arg2 opts mpfr_pow arg0 arg1 format = None ->
  fold_const_pow opts arg0 arg1 format =
  (if real_identical arg1
        (real_from_integer None (real_to_integer arg1) SIGNED)
      && ((0 <? real_to_integer arg1)
          || (negb (flag_trapping_math opts) && negb (flag_errno_math opts))
          || negb (real_equal arg0 dconst0))
   then
     if flag_unsafe_math_optimizations opts
        || (negb (snd (real_powi format arg0 (real_to_integer arg1)))
            && negb (flag_signaling_nans opts
                     && REAL_VALUE_ISSIGNALING_NAN arg0))
     then Some (fst (real_powi format arg0 (real_to_integer arg1)))
     else None
   else None).
Proof.
  unfold fold_const_pow. intros ->. cbv zeta.
  destruct (real_powi format arg0 (real_to_integer arg1)) as [result inexact].
  reflexivity.
Qed.

Lemma pow_entry_condition arg0 n1 :
  (0 <? n1)
  || (negb (flag_trapping_math opts) && negb (flag_errno_math opts))
  || negb (real_equal arg0 dconst0) = true
  <-> 0 < n1
      \/ (flag_trapping_math opts = false /\ flag_errno_math opts = false)
      \/ real_equal arg0 dconst0 = false.
Proof.
  rewrite !orb_true_iff, andb_true_iff, !negb_true_iff, Z.ltb_lt. tauto.
Qed.

End PowFallback.

(** C3, as the code has it.  Once the generic evaluation of
    [pow (arg0, arg1)] has failed and the fallback has been entered
    ([arg1] is an exact integer [n1], and [n1] is positive, or neither
    trapping math nor errno math is active, or [arg0] is not zero), the
    computed integer power is dropped exactly when unsafe math
    optimizations are off and either the computation was inexact, or
    signaling NaNs are honored and [arg0] is a signaling NaN; otherwise
    the fold succeeds with the integer power. *)
Theorem pow_fallback_suppression :
  forall (RA : RealArith) (ML : MpfrLib) (opts : options)
         (arg0 arg1 : real_value) (format : real_format),
    do_mpfr_arg2 opts mpfr_pow arg0 arg1 format = None ->
    real_identical arg1
      (real_from_integer None (real_to_integer arg1) SIGNED) = true ->
    (0 < real_to_integer arg1
     \/ (flag_trapping_math opts = false /\ flag_errno_math opts = false)
     \/ real_equal arg0 dconst0 = false) ->
    (fold_const_pow opts arg0 arg1 format = None
     <-> flag_unsafe_math_optimizations opts = false
         /\ (snd (real_powi format arg0 (real_to_integer arg1)) = true
             \/ (flag_signaling_nans opts = true
                 /\ REAL_VALUE_ISSIGNALING_NAN arg0 = true)))
    /\ (fold_const_pow opts arg0 arg1 format <> None ->
        fold_const_pow opts arg0 arg1 format
        = Some (fst (real_powi format arg0 (real_to_integer arg1)))).
Proof.
  intros RA ML opts arg0 arg1 format Hgen Hid Hentry.
  rewrite (fold_const_pow_fallback opts _ _ _ Hgen), Hid.
  apply pow_entry_condition in Hentry. rewrite Hentry. simpl.
  destruct (flag_unsafe_math_optimizations opts),
    (snd (real_powi format arg0 (real_to_integer arg1))),
    (flag_signaling_nans opts), (REAL_VALUE_ISSIGNALING_NAN arg0);
    simpl; (split; [split |]); try tauto; try discriminate;
    try (intros [? [? | [? ?]]]; discriminate);
    try (intros _; split; [reflexivity |]; auto).
Qed.

(** C3 as the specification words it (dropped only when signaling NaNs
    are honored, the computation was inexact and the base is a signaling
    NaN, all three at once) does not hold.  With signaling NaNs honored,
    [pow (sNaN, 2)] enters the fallback (the generic evaluation rejects
    the NaN, 2 is a positive integer) and the integer power is computed
    exactly, yet the fold is dropped; and with the default options
    [pow (3, 1000)] in the double format enters the fallback (the
    generic result overflows the format) and is dropped because the
    integer power is inexact, although no signaling NaN is in sight. *)
Lemma pow_fallback_counterexample :
  (do_mpfr_arg2 (RA := Ref.real_arith) (ML := Ref.mpfr_lib)
     Ref.signaling_options mpfr_pow Ref.snan dconst2 ieee_double_format = None
   /\ real_identical dconst2
        (Ref.from_integer None (Ref.to_integer dconst2) SIGNED) = true
   /\ 0 < Ref.to_integer dconst2
   /\ snd (Ref.powi ieee_double_format Ref.snan (Ref.to_integer dconst2))
      = false
   /\ fold_const_pow (RA := Ref.real_arith) (ML := Ref.mpfr_lib)
        Ref.signaling_options Ref.snan dconst2 ieee_double_format = None)
  /\ (do_mpfr_arg2 (RA := Ref.real_arith) (ML := Ref.mpfr_lib)
        Ref.default_options mpfr_pow Ref.real_3 Ref.real_1000
        ieee_double_format = None
      /\ real_identical Ref.real_1000
           (Ref.from_integer None (Ref.to_integer Ref.real_1000) SIGNED)
         = true
      /\ 0 < Ref.to_integer Ref.real_1000
      /\ snd (Ref.powi ieee_double_format Ref.real_3
                (Ref.to_integer Ref.real_1000)) = true
      /\ flag_signaling_nans Ref.default_options = false
      /\ REAL_VALUE_ISSIGNALING_NAN Ref.real_3 = false
      /\ fold_const_pow (RA := Ref.real_arith) (ML := Ref.mpfr_lib)
           Ref.default_options Ref.real_3 Ref.real_1000 ieee_double_format
         = None).
Proof. vm_compute. repeat split. Qed.

(** C9.  When the generic evaluation of [pow (x, y)] fails, a fold can
    only come from the integer-power fallback, and then [y] is an exact
    integer [n] and [n] is positive, or neither trapping math nor errno
    math is active, or [x] is not zero.  Consequently [pow (0.0, -1)] is
    not folded while trapping math or errno math is active (the backend
    answers the pole with a value that is not a number, and -1.0
    converts to the integer -1); and [pow (2.0, 10)] in the IEEE double
    format folds to exactly 1024.0 (the backend computes the power
    exactly and 1024.0 is a value of the format). *)
Theorem pow_integer_fallback :
  forall (RA : RealArith) (ML : MpfrLib) (opts : options),
    (forall format arg0 arg1 result,
        do_mpfr_arg2 opts mpfr_pow arg0 arg1 format = None ->
        fold_const_pow opts arg0 arg1 format = Some result ->
        real_identical arg1
          (real_from_integer None (real_to_integer arg1) SIGNED) = true
        /\ (0 < real_to_integer arg1
            \/ (flag_trapping_math opts = false
                /\ flag_errno_math opts = false)
            \/ real_equal arg0 dconst0 = false)
        /\ result = fst (real_powi format arg0 (real_to_integer arg1)))
    /\ (forall format,
        flag_trapping_math opts = true \/ flag_errno_math opts = true ->
        real_to_integer dconstm1 = -1 ->
        mpfr_number_p
          (fst (fst (mpfr_call2 mpfr_pow mpfr_clear_flags
                       (mpfr_from_real (fmt_p format) dconst0 MPFR_RNDN)
                       (mpfr_from_real (fmt_p format) dconstm1 MPFR_RNDN)
                       (mpfr_rnd_of format)))) = false ->
        fold_const_pow opts dconst0 dconstm1 format = None)
    /\ (forall m st,
        mpfr_call2 mpfr_pow mpfr_clear_flags
          (mpfr_from_real 53 dconst2 MPFR_RNDN)
          (mpfr_from_real 53 (real_of_Z 10) MPFR_RNDN) MPFR_RNDN
        = (m, 0, st) ->
        mpfr_overflow_p st = false ->
        mpfr_underflow_p st = false ->
        mpfr_number_p m = true ->
        mpfr_zero_p m = false ->
        real_from_mpfr m ieee_double_format MPFR_RNDN = real_of_Z 1024 ->
        real_convert ieee_double_format (real_of_Z 1024) = real_of_Z 1024 ->
        fold_const_pow opts dconst2 (real_of_Z 10) ieee_double_format
        = Some (real_of_Z 1024)).
Proof.
  intros RA ML opts. split; [| split].
  - intros format arg0 arg1 result Hgen Hfold.
    rewrite (fold_const_pow_fallback opts _ _ _ Hgen) in Hfold.
    destruct (real_identical arg1 _) eqn:Hid; simpl in Hfold;
      [| discriminate].
    match type of Hfold with
    | (if ?c then _ else _) = _ => destruct c eqn:Hentry; [| discriminate]
    end.
    apply pow_entry_condition in Hentry.
    match type of Hfold with
    | (if ?c then _ else _) = _ => destruct c; [| discriminate]
    end.
    injection Hfold as <-. auto.
  - intros format Hflags Hint Hpole.
    assert (Hgen : do_mpfr_arg2 opts mpfr_pow dconst0 dconstm1 format = None).
    { unfold do_mpfr_arg2.
      destruct (negb (fmt_b format =? 2) || negb (real_isfinite dconst0)
                || negb (real_isfinite dconstm1)); [reflexivity |].
      destruct (mpfr_call2 _ _ _ _ _) as [[m ternary] st]. simpl in Hpole.
      unfold do_mpfr_ckconv. rewrite Hpole. reflexivity. }
    rewrite (fold_const_pow_fallback opts _ _ _ Hgen), Hint.
    assert (Hz : real_equal dconst0 dconst0 = true) by reflexivity.
    rewrite Hz.
    replace (negb (flag_trapping_math opts) && negb (flag_errno_math opts))
      with false
      by (destruct Hflags as [-> | ->]; simpl;
          [reflexivity | now rewrite andb_false_r]).
    simpl. now rewrite andb_false_r.
  - intros m st Hcall Hov Hun Hnum Hzero Hfrom Hconv.
    apply fold_const_pow_generic.
    unfold do_mpfr_arg2, mpfr_rnd_of. simpl.
    change (real_isfinite (real_of_Z 10)) with true. simpl.
    rewrite Hcall. unfold do_mpfr_ckconv.
    rewrite Hnum, Hov, Hun. simpl. rewrite andb_false_r. simpl.
    rewrite Hfrom.
    change (real_isfinite (real_of_Z 1024)) with true.
    change (rvc_eqb (rv_cl (real_of_Z 1024)) rvc_zero) with false.
    rewrite Hzero. simpl. rewrite Hconv.
    replace (real_identical (real_of_Z 1024) (real_of_Z 1024)) with true
      by (vm_compute; reflexivity).
    reflexivity.
Qed.

(** ** Sign extension *)

Lemma pow2_half (prec : Z) : 0 < prec -> 2 ^ prec = 2 * 2 ^ (prec - 1).
Proof.
  intros H. replace prec with (Z.succ (prec - 1)) at 1 by lia.
  apply Z.pow_succ_r. lia.
Qed.

Lemma sext_hwi_range (v prec : Z) :
  0 < prec -> - 2 ^ (prec - 1) <= sext_hwi v prec < 2 ^ (prec - 1).
Proof.
  intros H. unfold sext_hwi.
  pose proof (pow2_half prec H) as E.
  assert (0 < 2 ^ (prec - 1)) by (apply Z.pow_pos_nonneg; lia).
  pose proof (Z.mod_pos_bound (v + 2 ^ (prec - 1)) (2 ^ prec)). lia.
Qed.

Lemma sext_hwi_small (v prec : Z) :
  0 < prec -> - 2 ^ (prec - 1) <= v < 2 ^ (prec - 1) -> sext_hwi v prec = v.
Proof.
  intros H Hv. unfold sext_hwi.
  pose proof (pow2_half prec H) as E.
  rewrite Z.mod_small; lia.
Qed.

Lemma sext_hwi_zero_width (v : Z) : sext_hwi v 0 = 0.
Proof. unfold sext_hwi. simpl. rewrite Z.add_0_r, Z.mod_1_r. reflexivity. Qed.

(** Sign-extending from [q] bits and then from [p <= q] bits is
    sign-extending from [p] bits. *)
Lemma sext_hwi_narrow (v p q : Z) :
  0 < p <= q -> sext_hwi (sext_hwi v q) p = sext_hwi v p.
Proof.
  intros H. unfold sext_hwi at 1 3. f_equal.
  assert (E : v = sext_hwi v q + (v + 2 ^ (q - 1)) / 2 ^ q * 2 ^ q).
  { unfold sext_hwi.
    assert (0 < 2 ^ q) by (apply Z.pow_pos_nonneg; lia).
    pose proof (Z.div_mod (v + 2 ^ (q - 1)) (2 ^ q)). lia. }
  rewrite E at 2.
  replace (2 ^ q) with (2 ^ (q - p) * 2 ^ p) at 2
    by (rewrite <- Z.pow_add_r by lia; f_equal; lia).
  rewrite Z.mul_assoc.
  replace (sext_hwi v q + (v + 2 ^ (q - 1)) / 2 ^ q * 2 ^ (q - p) * 2 ^ p
           + 2 ^ (p - 1))
    with (sext_hwi v q + 2 ^ (p - 1)
          + (v + 2 ^ (q - 1)) / 2 ^ q * 2 ^ (q - p) * 2 ^ p) by ring.
  now rewrite Z_mod_plus_full.
Qed.

Lemma to_int_small (z : Z) : - 2 ^ 31 <= z < 2 ^ 31 -> to_int z = z.
Proof. intros H. unfold to_int. apply sext_hwi_small; [reflexivity | exact H]. Qed.

(** The host integer read from a wide integer whose signed value fits an
    [int] is that value. *)
Lemma to_int_to_shwi (x : wide_int) :
  - 2 ^ 31 <= wi.to_signed x < 2 ^ 31 ->
  to_int (wi.to_shwi x) = wi.to_signed x.
Proof.
  intros H. unfold wi.to_shwi.
  destruct (Z.of_N (wi_precision x) <? HOST_BITS_PER_WIDE_INT) eqn:Hp.
  - now apply to_int_small.
  - apply Z.ltb_ge in Hp. unfold HOST_BITS_PER_WIDE_INT in *.
    unfold wi.to_signed in *.
    rewrite <- (sext_hwi_narrow (wi_val x) 64 (Z.of_N (wi_precision x)))
      by lia.
    rewrite (sext_hwi_small (sext_hwi _ _) 64) by lia.
    now apply to_int_small.
Qed.

(** ** [ldexp], [scalbn] and [scalbln] *)

Section LoadExponent.

Context {RA : RealArith}.
Variable opts : options.

(** An adjustment beyond the bound is refused, whatever the width of the
    integer constant. *)
Lemma load_exponent_bound arg0 arg1 format :
  2 * Z.abs (fmt_emax format - fmt_emin format) <= INT_MAX ->
  Z.abs (wi.to_signed arg1)
    >= 2 * Z.abs (fmt_emax format - fmt_emin format) ->
  0 < Z.abs (wi.to_signed arg1) ->
  fold_const_builtin_load_exponent opts arg0 arg1 format = None.
Proof.
  intros HM Hn Hpos. unfold fold_const_builtin_load_exponent, labs.
  set (M := 2 * Z.abs (fmt_emax format - fmt_emin format)) in *.
  assert (HM0 : 0 <= M) by (unfold M; lia).
  unfold INT_MAX, HOST_BITS_PER_INT in HM. simpl in HM.
  rewrite (to_int_small M) by lia.
  replace (wi.les_p arg1 (- M) || wi.ges_p arg1 M) with true; [reflexivity |].
  symmetry. apply orb_true_iff.
  unfold wi.les_p, wi.ges_p, wi.hwi_operand.
  set (prec := Z.of_N (wi_precision arg1)).
  set (n := wi.to_signed arg1) in *.
  assert (Hprec : 0 <= prec) by (unfold prec; lia).
  destruct (prec <? HOST_BITS_PER_WIDE_INT) eqn:Hp.
  - destruct (Z.eq_dec prec 0) as [E0 | E0].
    + exfalso. unfold n, wi.to_signed in Hpos. fold prec in Hpos.
      rewrite E0, sext_hwi_zero_width in Hpos. simpl in Hpos. lia.
    + assert (Hr : - 2 ^ (prec - 1) <= n < 2 ^ (prec - 1))
        by (apply sext_hwi_range; lia).
      destruct (Z_lt_le_dec M (2 ^ (prec - 1))) as [Hfit | Hbig].
      * rewrite !sext_hwi_small by lia. rewrite Z.leb_le, Z.leb_le. lia.
      * assert (HnM : - n = M /\ M = 2 ^ (prec - 1)) by lia.
        left. apply Z.leb_le.
        destruct HnM as [E1 E2]. rewrite E2.
        rewrite sext_hwi_small by lia. lia.
  - rewrite Z.leb_le, Z.leb_le. lia.
Qed.

Lemma load_exponent_snan arg0 arg1 format :
  flag_unsafe_math_optimizations opts = false ->
  flag_signaling_nans opts = true ->
  REAL_VALUE_ISSIGNALING_NAN arg0 = true ->
  fold_const_builtin_load_exponent opts arg0 arg1 format = None.
Proof.
  intros H1 H2 H3. unfold fold_const_builtin_load_exponent.
  rewrite H1, H2, H3. simpl. now destruct (_ || _).
Qed.

Lemma load_exponent_inf arg0 arg1 format :
  real_isinf (real_ldexp arg0 (to_int (wi.to_shwi arg1))) = true ->
  fold_const_builtin_load_exponent opts arg0 arg1 format = None.
Proof.
  intros H. unfold fold_const_builtin_load_exponent. rewrite H.
  destruct (_ || _); [reflexivity |]. now destruct (_ && _).
Qed.

Lemma load_exponent_inexact arg0 arg1 format :
  real_equal (real_ldexp arg0 (to_int (wi.to_shwi arg1)))
    (real_value_truncate format
       (real_ldexp arg0 (to_int (wi.to_shwi arg1)))) = false ->
  fold_const_builtin_load_exponent opts arg0 arg1 format = None.
Proof.
  intros H. unfold fold_const_builtin_load_exponent. rewrite H.
  destruct (_ || _); [reflexivity |]. destruct (_ && _); [reflexivity |].
  now destruct (real_isinf _).
Qed.

Lemma load_exponent_family fn arg0 arg1 format :
  In fn [CASE_CFN_LDEXP; CASE_CFN_SCALBN; CASE_CFN_SCALBLN] ->
  fold_const_builtin_load_exponent opts arg0 arg1 format = None ->
  fold_const_call_sss_real_int opts fn arg0 arg1 format = None.
Proof.
  intros Hfn H. simpl in Hfn.
  destruct Hfn as [<- | [<- | [<- | []]]]; simpl; rewrite H;
    try reflexivity; now destruct (fmt_b format =? 2).
Qed.

End LoadExponent.

(** C5.  [ldexp], [scalbn] and [scalbln] of a real constant [x] and an
    integer constant of signed value [n] are not folded when the
    magnitude of [n] exceeds twice the exponent range of the format,
    whatever [x] is; and within that bound they are not folded when
    signaling NaNs are honored, unsafe math optimizations are off and
    [x] is a signaling NaN, nor when the shifted value is infinite, nor
    when truncating the shifted value to the format changes it.  The
    format is one whose doubled exponent range fits an [int]. *)
Theorem load_exponent_rejections :
  forall (RA : RealArith) (opts : options) (fn : combined_fn)
         (x : real_value) (arg1 : wide_int) (format : real_format),
    In fn [CASE_CFN_LDEXP; CASE_CFN_SCALBN; CASE_CFN_SCALBLN] ->
    2 * Z.abs (fmt_emax format - fmt_emin format) <= INT_MAX ->
    let n := wi.to_signed arg1 in
    let bound := 2 * Z.abs (fmt_emax format - fmt_emin format) in
    (Z.abs n > bound ->
     fold_const_call_sss_real_int opts fn x arg1 format = None)
    /\ (Z.abs n <= bound ->
        (flag_unsafe_math_optimizations opts = false ->
         flag_signaling_nans opts = true ->
         REAL_VALUE_ISSIGNALING_NAN x = true ->
         fold_const_call_sss_real_int opts fn x arg1 format = None)
        /\ (real_isinf (real_ldexp x n) = true ->
            fold_const_call_sss_real_int opts fn x arg1 format = None)
        /\ (real_equal (real_ldexp x n)
              (real_value_truncate format (real_ldexp x n)) = false ->
            fold_const_call_sss_real_int opts fn x arg1 format = None)).
Proof.
  intros RA opts fn x arg1 format Hfn HM n bound. split.
  - intros Hn. apply load_exponent_family; [exact Hfn |].
    apply load_exponent_bound; [exact HM | fold n; fold bound; lia |].
    fold n. unfold bound in Hn. lia.
  - intros Hn.
    assert (E : to_int (wi.to_shwi arg1) = n).
    { apply to_int_to_shwi. fold n.
      change INT_MAX with 2147483647 in HM. fold bound in HM.
      change (2 ^ 31) with 2147483648. lia. }
    split; [| split].
    + intros H1 H2 H3. apply load_exponent_family; [exact Hfn |].
      now apply load_exponent_snan.
    + intros H. apply load_exponent_family; [exact Hfn |].
      apply load_exponent_inf. now rewrite E.
    + intros H. apply load_exponent_family; [exact Hfn |].
      apply load_exponent_inexact. now rewrite E.
Qed.

(** ** Rounding functions, [logb], [significand] and [copysign] *)

(** C7.  [floor], [ceil], [trunc], [round] and [roundeven] fold exactly
    when their argument is not a signaling NaN.  [logb] and
    [significand] of a NaN, signaling or quiet, return the argument
    itself, with its class, its signaling bit and its payload; [logb] of
    an infinity returns that infinity with the sign cleared;
    [significand] returns a zero or an infinity unchanged.  So none of
    these folds turns a signaling NaN into another value.  This does
    not extend to every fold, as the lemma that follows shows. *)
Theorem rounding_and_logb_keep_signaling_nans :
  forall (RA : RealArith) (ML : MpfrLib) (opts : options)
         (arg : real_value) (format : real_format),
    (forall fn,
        In fn [CASE_CFN_FLOOR; CASE_CFN_CEIL; CASE_CFN_TRUNC;
               CASE_CFN_ROUND; CASE_CFN_ROUNDEVEN] ->
        ((exists result,
             fold_const_call_ss_real opts fn arg format = Some result)
         <-> REAL_VALUE_ISSIGNALING_NAN arg = false))
    /\ (rv_cl arg = rvc_nan ->
        fold_const_call_ss_real opts CASE_CFN_LOGB arg format = Some arg
        /\ fold_const_call_ss_real opts CASE_CFN_SIGNIFICAND arg format
           = Some arg)
    /\ (rv_cl arg = rvc_inf ->
        fold_const_call_ss_real opts CASE_CFN_LOGB arg format
        = Some (mk_real_value rvc_inf (rv_decimal arg) false
                  (rv_signalling arg) (rv_canonical arg) (rv_uexp arg)
                  (rv_sig arg))
        /\ fold_const_call_ss_real opts CASE_CFN_SIGNIFICAND arg format
           = Some arg)
    /\ (rv_cl arg = rvc_zero ->
        fold_const_call_ss_real opts CASE_CFN_SIGNIFICAND arg format
        = Some arg)
    /\ (forall fn result,
        In fn [CASE_CFN_FLOOR; CASE_CFN_CEIL; CASE_CFN_TRUNC;
               CASE_CFN_ROUND; CASE_CFN_ROUNDEVEN; CASE_CFN_LOGB;
               CASE_CFN_SIGNIFICAND] ->
        REAL_VALUE_ISSIGNALING_NAN arg = true ->
        fold_const_call_ss_real opts fn arg format = Some result ->
        result = arg).
Proof.
  intros RA ML opts arg format.
  split; [| split; [| split; [| split]]].
  - intros fn Hfn. simpl in Hfn.
    destruct Hfn as [<- | [<- | [<- | [<- | [<- | []]]]]]; simpl;
      destruct (REAL_VALUE_ISSIGNALING_NAN arg); simpl;
      (split; [intros [r Hr]; congruence || reflexivity
              | intros H; try discriminate; eexists; reflexivity]).
  - intros Hcl. simpl. unfold fold_const_logb, fold_const_significand.
    rewrite Hcl. split; reflexivity.
  - intros Hcl. simpl. unfold fold_const_logb, fold_const_significand.
    rewrite Hcl. split; [| reflexivity].
    unfold set_sign. now rewrite Hcl.
  - intros Hcl. simpl. unfold fold_const_significand. now rewrite Hcl.
  - intros fn result Hfn Hs. simpl in Hfn.
    assert (Hcl : rv_cl arg = rvc_nan).
    { unfold REAL_VALUE_ISSIGNALING_NAN, real_issignaling_nan in Hs.
      apply andb_true_iff in Hs. now apply rvc_eqb_eq. }
    destruct Hfn as [<- | [<- | [<- | [<- | [<- | [<- | [<- | []]]]]]]];
      simpl; rewrite ?Hs; simpl; try discriminate;
      unfold fold_const_logb, fold_const_significand; rewrite Hcl; congruence.
Qed.

(** Folds that do drop a signaling NaN.  [pow] and [powi] test for a
    signaling NaN only when signaling NaNs are honored: with the default
    options [powi (x, n)] folds to whatever [real_powi] gives, for every
    backend, format and [x], and [pow] does so through its fallback.
    On the reference backend, where as in [real.cc] a power with
    exponent 0 is 1, [pow (sNaN, 0.0)] and [powi (sNaN, 0)] fold to 1.0
    in the double format: the signaling NaN is gone and nothing was
    raised. *)
Lemma signaling_nan_folded_away :
  REAL_VALUE_ISSIGNALING_NAN Ref.snan = true
  /\ flag_signaling_nans Ref.default_options = false
  /\ flag_unsafe_math_optimizations Ref.default_options = false
  /\ fold_const_call_sss_real (RA := Ref.real_arith) (ML := Ref.mpfr_lib)
       Ref.default_options CASE_CFN_POW Ref.snan dconst0 ieee_double_format
     = Some dconst1
  /\ fold_const_call_sss_real_int (RA := Ref.real_arith) Ref.default_options
       CASE_CFN_POWI Ref.snan (wi.shwi 0 32) ieee_double_format
     = Some dconst1
  /\ dconst1 <> Ref.snan
  /\ (forall (RA : RealArith) (format : real_format) (x : real_value)
             (n : wide_int),
        fold_const_call_sss_real_int Ref.default_options CASE_CFN_POWI x n
          format
        = Some (fst (real_powi format x (wi.to_shwi n)))).
Proof.
  split; [reflexivity |]. split; [reflexivity |]. split; [reflexivity |].
  split; [vm_compute; reflexivity |]. split; [vm_compute; reflexivity |].
  split; [discriminate | reflexivity].
Qed.

(** C10.  [copysign] of two real constants always folds, whatever the
    options, the format and the classes of the operands; the result is
    the first operand with the sign of the second, every other field
    (class, signaling bit, payload, exponent, significand) unchanged. *)
Theorem copysign_always_folds :
  forall (RA : RealArith) (ML : MpfrLib) (opts : options)
         (arg0 arg1 : real_value) (format : real_format),
    fold_const_call_sss_real opts CASE_CFN_COPYSIGN arg0 arg1 format
    = Some (mk_real_value (rv_cl arg0) (rv_decimal arg0) (rv_sign arg1)
              (rv_signalling arg0) (rv_canonical arg0) (rv_uexp arg0)
              (rv_sig arg0)).
Proof. reflexivity. Qed.

(** ** Leading and trailing zero counts *)

Lemma sext_hwi_unsigned (v p : Z) :
  0 < p ->
  sext_hwi v p
  = if v mod 2 ^ p <? 2 ^ (p - 1) then v mod 2 ^ p else v mod 2 ^ p - 2 ^ p.
Proof.
  intros Hp. unfold sext_hwi.
  pose proof (pow2_half p Hp) as E.
  assert (Hh : 0 < 2 ^ (p - 1)) by (apply Z.pow_pos_nonneg; lia).
  pose proof (Z.mod_pos_bound v (2 ^ p)) as Hu.
  rewrite <- Z.add_mod_idemp_l by lia.
  destruct (v mod 2 ^ p <? 2 ^ (p - 1)) eqn:Hlt.
  - apply Z.ltb_lt in Hlt. rewrite Z.mod_small; lia.
  - apply Z.ltb_ge in Hlt.
    replace (v mod 2 ^ p + 2 ^ (p - 1))
      with (v mod 2 ^ p - 2 ^ (p - 1) + 1 * 2 ^ p) by lia.
    rewrite Z_mod_plus_full, Z.mod_small; lia.
Qed.

Lemma wi_to_signed_zero (x : wide_int) :
  wi.to_signed x = 0 <-> wi.to_unsigned x = 0.
Proof.
  unfold wi.to_signed, wi.to_unsigned, zext_hwi.
  destruct (Z.eq_dec (Z.of_N (wi_precision x)) 0) as [E | E].
  - rewrite E, sext_hwi_zero_width. simpl. rewrite Z.mod_1_r. tauto.
  - assert (Hp : 0 < Z.of_N (wi_precision x)) by lia.
    rewrite sext_hwi_unsigned by exact Hp.
    pose proof (pow2_half _ Hp).
    assert (0 < 2 ^ (Z.of_N (wi_precision x) - 1))
      by (apply Z.pow_pos_nonneg; lia).
    pose proof (Z.mod_pos_bound (wi_val x) (2 ^ Z.of_N (wi_precision x))).
    destruct (_ <? _) eqn:Hlt; [tauto |].
    apply Z.ltb_ge in Hlt. lia.
Qed.

Lemma wi_hwi_operand_zero (x : wide_int) : wi.hwi_operand x 0 = 0.
Proof.
  unfold wi.hwi_operand. destruct (_ <? _); [| reflexivity].
  destruct (Z.eq_dec (Z.of_N (wi_precision x)) 0) as [E | E].
  - rewrite E. apply sext_hwi_zero_width.
  - apply sext_hwi_small; [lia |].
    assert (0 < 2 ^ (Z.of_N (wi_precision x) - 1))
      by (apply Z.pow_pos_nonneg; lia). lia.
Qed.

(** [wi::ne_p (x, 0)] holds exactly of a non-zero value. *)
Lemma wi_ne_p_zero (x : wide_int) :
  wi.ne_p x 0 = true <-> wi.to_unsigned x <> 0.
Proof.
  unfold wi.ne_p. rewrite wi_hwi_operand_zero, negb_true_iff, Z.eqb_neq.
  now rewrite wi_to_signed_zero.
Qed.

(** A value whose low bits are all clear is zero. *)
Lemma wi_all_bits_clear (x : wide_int) :
  (forall i, 0 <= i < Z.of_N (wi_precision x) ->
             Z.testbit (wi_val x) i = false) ->
  wi.to_unsigned x = 0.
Proof.
  intros H. unfold wi.to_unsigned, zext_hwi. apply Z.bits_inj'. intros n Hn.
  rewrite Z.bits_0.
  destruct (Z_lt_le_dec n (Z.of_N (wi_precision x))) as [Hlo | Hhi].
  - rewrite Z.mod_pow2_bits_low by lia. apply H. lia.
  - apply Z.mod_pow2_bits_high. lia.
Qed.

Lemma clz_aux_spec (n : nat) (v : Z) :
  0 <= wi.clz_aux n v <= Z.of_nat n
  /\ (forall i, Z.of_nat n - wi.clz_aux n v <= i < Z.of_nat n ->
                Z.testbit v i = false)
  /\ (wi.clz_aux n v < Z.of_nat n ->
      Z.testbit v (Z.of_nat n - 1 - wi.clz_aux n v) = true).
Proof.
  induction n as [| m IH].
  - simpl. repeat split; intros; lia.
  - cbn [wi.clz_aux]. destruct (Z.testbit v (Z.of_nat m)) eqn:Hb.
    + repeat split; intros; try lia.
      replace (Z.of_nat (S m) - 1 - 0) with (Z.of_nat m) by lia. exact Hb.
    + destruct IH as (Hr & Hz & Ht). repeat split; try lia.
      * intros i Hi. destruct (Z.eq_dec i (Z.of_nat m)) as [-> | Hne];
          [exact Hb | apply Hz; lia].
      * intros Hk.
        replace (Z.of_nat (S m) - 1 - (1 + wi.clz_aux m v))
          with (Z.of_nat m - 1 - wi.clz_aux m v) by lia.
        apply Ht. lia.
Qed.

Lemma ctz_aux_spec (n : nat) (i : Z) (v : Z) :
  0 <= wi.ctz_aux n i v <= Z.of_nat n
  /\ (forall j, i <= j < i + wi.ctz_aux n i v -> Z.testbit v j = false)
  /\ (wi.ctz_aux n i v < Z.of_nat n ->
      Z.testbit v (i + wi.ctz_aux n i v) = true).
Proof.
  revert i. induction n as [| m IH]; intros i.
  - simpl. repeat split; intros; lia.
  - cbn [wi.ctz_aux]. destruct (Z.testbit v i) eqn:Hb.
    + repeat split; intros; try lia. now rewrite Z.add_0_r.
    + destruct (IH (i + 1)) as (Hr & Hz & Ht). repeat split; try lia.
      * intros j Hj. destruct (Z.eq_dec j i) as [-> | Hne];
          [exact Hb | apply Hz; lia].
      * intros Hk.
        replace (i + (1 + wi.ctz_aux m (i + 1) v))
          with (i + 1 + wi.ctz_aux m (i + 1) v) by lia.
        apply Ht. lia.
Qed.

(** [wi::clz] and [wi::ctz] of a non-zero value meet the reference bit
    definitions. *)
Lemma wi_clz_leading_zeros (x : wide_int) :
  wi.to_unsigned x <> 0 -> leading_zeros x (wi.clz x).
Proof.
  intros Hnz. unfold leading_zeros, wi.clz.
  destruct (clz_aux_spec (N.to_nat (wi_precision x)) (wi_val x))
    as (Hr & Hz & Ht).
  rewrite N_nat_Z in *.
  assert (Hlt : wi.clz_aux (N.to_nat (wi_precision x)) (wi_val x)
                < Z.of_N (wi_precision x)).
  { destruct (Z_lt_le_dec (wi.clz_aux (N.to_nat (wi_precision x)) (wi_val x))
                (Z.of_N (wi_precision x))) as [? | Hge]; [assumption |].
    exfalso. apply Hnz, wi_all_bits_clear. intros i Hi. apply Hz. lia. }
  repeat split; try lia.
  - now apply Ht.
  - intros i Hi. apply Hz. lia.
Qed.

Lemma wi_ctz_trailing_zeros (x : wide_int) :
  wi.to_unsigned x <> 0 -> trailing_zeros x (wi.ctz x).
Proof.
  intros Hnz. unfold trailing_zeros, wi.ctz.
  destruct (ctz_aux_spec (N.to_nat (wi_precision x)) 0 (wi_val x))
    as (Hr & Hz & Ht).
  rewrite N_nat_Z in *.
  assert (Hlt : wi.ctz_aux (N.to_nat (wi_precision x)) 0 (wi_val x)
                < Z.of_N (wi_precision x)).
  { destruct (Z_lt_le_dec
                (wi.ctz_aux (N.to_nat (wi_precision x)) 0 (wi_val x))
                (Z.of_N (wi_precision x))) as [? | Hge]; [assumption |].
    exfalso. apply Hnz, wi_all_bits_clear. intros i Hi. apply Hz. lia. }
  repeat split; try lia.
  - now apply Ht.
  - intros i Hi. apply Hz. lia.
Qed.

Lemma zero_policy_holds (defined : machine_mode -> Z * Z)
    (arg_type : tree_type) :
  zero_policy defined arg_type
    (match arg_type with
     | BITINT_TYPE _ _ => Z.of_N (TYPE_PRECISION arg_type)
     | _ =>
         let '(d, value) := defined (SCALAR_INT_TYPE_MODE arg_type) in
         if d =? 0 then Z.of_N (TYPE_PRECISION arg_type) else value
     end).
Proof.
  unfold zero_policy.
  destruct arg_type as [p s m | p s | p | elt];
    try (destruct (defined _) as [d value] eqn:Hd; simpl;
         split; [intros (p' & s' & E); discriminate |];
         split; intros _ Hdef;
         [ apply Z.eqb_neq in Hdef | apply Z.eqb_eq in Hdef ];
         now rewrite Hdef).
  split; [reflexivity |].
  split; intros Hnot; exfalso; now apply (Hnot p s).
Qed.

(** C6.  [clz] and [ctz] of an integer constant always fold.  On a
    non-zero argument the result is the count of leading, respectively
    trailing, zero bits of the reference bit definition.  On a zero
    argument the one-operand forms yield the bit width of the operand
    type for [_BitInt], else the value the target defines at zero when
    it defines one, else the bit width; the two-operand forms yield the
    second operand (read as the [int] it is).  The result is stored in
    the [precision] bits of the result type. *)
Theorem clz_ctz_always_fold :
  forall (TG : Target) (arg arg1 : wide_int) (precision : N)
         (arg_type : tree_type),
    (forall fn, In fn clz_fns ->
        exists tmp,
          fold_const_call_ss_int fn arg precision arg_type
          = Some (wi.shwi tmp precision)
          /\ (wi.to_unsigned arg <> 0 ->
              tmp = wi.clz arg /\ leading_zeros arg tmp)
          /\ (wi.to_unsigned arg = 0 ->
              zero_policy CLZ_DEFINED_VALUE_AT_ZERO arg_type tmp))
    /\ (forall fn, In fn ctz_fns ->
        exists tmp,
          fold_const_call_ss_int fn arg precision arg_type
          = Some (wi.shwi tmp precision)
          /\ (wi.to_unsigned arg <> 0 ->
              tmp = wi.ctz arg /\ trailing_zeros arg tmp)
          /\ (wi.to_unsigned arg = 0 ->
              zero_policy CTZ_DEFINED_VALUE_AT_ZERO arg_type tmp))
    /\ (forall fn, In fn clz2_fns ->
        exists tmp,
          fold_const_call_sss_int fn arg arg1 precision arg_type
          = Some (wi.shwi tmp precision)
          /\ (wi.to_unsigned arg <> 0 ->
              tmp = wi.clz arg /\ leading_zeros arg tmp)
          /\ (wi.to_unsigned arg = 0 ->
              tmp = to_int (wi.to_shwi arg1)
              /\ (- 2 ^ 31 <= wi.to_signed arg1 < 2 ^ 31 ->
                  tmp = wi.to_signed arg1)))
    /\ (forall fn, In fn ctz2_fns ->
        exists tmp,
          fold_const_call_sss_int fn arg arg1 precision arg_type
          = Some (wi.shwi tmp precision)
          /\ (wi.to_unsigned arg <> 0 ->
              tmp = wi.ctz arg /\ trailing_zeros arg tmp)
          /\ (wi.to_unsigned arg = 0 ->
              tmp = to_int (wi.to_shwi arg1)
              /\ (- 2 ^ 31 <= wi.to_signed arg1 < 2 ^ 31 ->
                  tmp = wi.to_signed arg1))).
Proof.
  intros TG arg arg1 precision arg_type.
  pose proof (wi_ne_p_zero arg) as Hne.
  split; [| split; [| split]]; intros fn Hfn; simpl in Hfn.
  - assert (E : fold_const_call_ss_int fn arg precision arg_type
                = Some (wi.shwi
                    (if wi.ne_p arg 0 then wi.clz arg
                     else match arg_type with
                          | BITINT_TYPE _ _ => Z.of_N (TYPE_PRECISION arg_type)
                          | _ =>
                              let '(d, value) :=
                                CLZ_DEFINED_VALUE_AT_ZERO
                                  (SCALAR_INT_TYPE_MODE arg_type) in
                              if d =? 0
                              then Z.of_N (TYPE_PRECISION arg_type)
                              else value
                          end) precision))
      by (destruct Hfn as [<- | [<- | [<- | [<- | [<- | [<- | []]]]]]];
          reflexivity).
    eexists. split; [exact E |]. destruct (wi.ne_p arg 0).
    + split; [| intros Hz; exfalso; now apply (proj1 Hne)].
      intros Hnz. split; [reflexivity | now apply wi_clz_leading_zeros].
    + split; [intros Hnz; apply Hne in Hnz; discriminate |].
      intros _. apply zero_policy_holds.
  - assert (E : fold_const_call_ss_int fn arg precision arg_type
                = Some (wi.shwi
                    (if wi.ne_p arg 0 then wi.ctz arg
                     else match arg_type with
                          | BITINT_TYPE _ _ => Z.of_N (TYPE_PRECISION arg_type)
                          | _ =>
                              let '(d, value) :=
                                CTZ_DEFINED_VALUE_AT_ZERO
                                  (SCALAR_INT_TYPE_MODE arg_type) in
                              if d =? 0
                              then Z.of_N (TYPE_PRECISION arg_type)
                              else value
                          end) precision))
      by (destruct Hfn as [<- | [<- | [<- | [<- | [<- | [<- | []]]]]]];
          reflexivity).
    eexists. split; [exact E |]. destruct (wi.ne_p arg 0).
    + split; [| intros Hz; exfalso; now apply (proj1 Hne)].
      intros Hnz. split; [reflexivity | now apply wi_ctz_trailing_zeros].
    + split; [intros Hnz; apply Hne in Hnz; discriminate |].
      intros _. apply zero_policy_holds.
  - assert (E : fold_const_call_sss_int fn arg arg1 precision arg_type
                = Some (wi.shwi
                    (if wi.ne_p arg 0 then wi.clz arg
                     else to_int (wi.to_shwi arg1)) precision))
      by (destruct Hfn as [<- | [<- | []]]; reflexivity).
    eexists. split; [exact E |]. destruct (wi.ne_p arg 0).
    + split; [| intros Hz; exfalso; now apply (proj1 Hne)].
      intros Hnz. split; [reflexivity | now apply wi_clz_leading_zeros].
    + split; [intros Hnz; apply Hne in Hnz; discriminate |].
      intros _. split; [reflexivity | apply to_int_to_shwi].
  - assert (E : fold_const_call_sss_int fn arg arg1 precision arg_type
                = Some (wi.shwi
                    (if wi.ne_p arg 0 then wi.ctz arg
                     else to_int (wi.to_shwi arg1)) precision))
      by (destruct Hfn as [<- | [<- | []]]; reflexivity).
    eexists. split; [exact E |]. destruct (wi.ne_p arg 0).
    + split; [| intros Hz; exfalso; now apply (proj1 Hne)].
      intros Hnz. split; [reflexivity | now apply wi_ctz_trailing_zeros].
    + split; [intros Hnz; apply Hne in Hnz; discriminate |].
      intros _. split; [reflexivity | apply to_int_to_shwi].
Qed.

(** ** Overflow-checked arithmetic *)

Lemma tree_type_eqb_refl (t : tree_type) : tree_type_eqb t t = true.
Proof.
  induction t as [p s m | p s | p | elt IH]; simpl;
    rewrite ?N.eqb_refl; try destruct s; try destruct m; auto.
Qed.

(** A complex type is not its element type. *)
Lemma tree_type_eqb_complex (t : tree_type) :
  tree_type_eqb t (COMPLEX_TYPE t) = false.
Proof. induction t; simpl; auto. Qed.

Lemma pow2_pos (p : N) : 0 < 2 ^ Z.of_N p.
Proof. apply Z.pow_pos_nonneg; lia. Qed.

(** Truncation to a type keeps the value modulo [2^precision] and
    depends on nothing else. *)
Lemma wrap_to_type_mod (type : tree_type) (v : Z) :
  wrap_to_type type v mod 2 ^ Z.of_N (TYPE_PRECISION type)
  = v mod 2 ^ Z.of_N (TYPE_PRECISION type).
Proof.
  pose proof (pow2_pos (TYPE_PRECISION type)).
  unfold wrap_to_type, zext_hwi, sext_hwi. destruct (TYPE_SIGN type).
  - rewrite Zminus_mod_idemp_l. f_equal. lia.
  - apply Z.mod_mod. lia.
Qed.

Lemma wrap_to_type_congr (type : tree_type) (a b : Z) :
  a mod 2 ^ Z.of_N (TYPE_PRECISION type)
  = b mod 2 ^ Z.of_N (TYPE_PRECISION type) ->
  wrap_to_type type a = wrap_to_type type b.
Proof.
  intros H. unfold wrap_to_type, zext_hwi, sext_hwi.
  destruct (TYPE_SIGN type); [| exact H].
  f_equal. rewrite (Zplus_mod a), (Zplus_mod b), H. reflexivity.
Qed.

(** Operating on truncated operands and truncating is truncating the
    exact result. *)
Lemma wrap_to_type_op (fn : combined_fn) (op : Z -> Z -> Z)
    (type : tree_type) (a b : Z) :
  checked_op fn = Some op ->
  wrap_to_type type (op (wrap_to_type type a) (wrap_to_type type b))
  = wrap_to_type type (op a b).
Proof.
  intros Hop. apply wrap_to_type_congr.
  pose proof (wrap_to_type_mod type a) as Ha.
  pose proof (wrap_to_type_mod type b) as Hb.
  destruct fn; simpl in Hop; try discriminate; injection Hop as <-.
  all: first [ rewrite Zplus_mod, Ha, Hb, <- Zplus_mod
             | rewrite Zminus_mod, Ha, Hb, <- Zminus_mod
             | rewrite Zmult_mod, Ha, Hb, <- Zmult_mod ]; reflexivity.
Qed.

Section ArithOverflow.

Variable fold_const_call_1_args2 :
  combined_fn -> tree_type -> tree -> tree -> option tree.

(** What the [arith_overflow:] label computes on two integer constants,
    [itype] being the type the arithmetic is done in. *)
Lemma arith_overflow_shape fn op type t0 t1 v0 v1 :
  checked_op fn = Some op ->
  let itype := match type with COMPLEX_TYPE elt => elt | _ => type end in
  let exact := op v0 v1 in
  let ovf := negb (wrap_to_type itype exact =? exact) in
  let r := INTEGER_CST itype (wrap_to_type itype exact) false in
  fold_const_call_args2 fold_const_call_1_args2 fn type
    (INTEGER_CST t0 v0 false) (INTEGER_CST t1 v1 false)
  = if tree_type_eqb itype type
    then if ovf then None else Some r
    else Some (build_complex type r (build_int_cst itype (b2z ovf))).
Proof.
  intros Hop itype exact ovf r.
  pose proof (wrap_to_type_op fn op itype v0 v1 Hop) as Hw.
  fold exact in Hw.
  destruct fn; simpl in Hop; try discriminate; injection Hop as <-;
    unfold fold_const_call_args2; simpl; fold itype;
    unfold int_fits_type_p; rewrite Hw; fold exact; fold ovf;
    destruct (_ || _ || _); simpl; destruct ovf; reflexivity.
Qed.

End ArithOverflow.

(** C4.  On two integer constants the overflow-checked functions with a
    complex result type never fail: they fold to the pair of the exact
    result truncated to the width of the element type and of a flag
    that is set exactly when the truncation differs from the exact
    result.  With a scalar result type (the trapping variants) the same
    computation folds only when there is no overflow.  In 8 unsigned
    bits 200 + 100 folds to (44, 1) and 10 + 20 to (30, 0). *)
Theorem overflow_checked_arithmetic :
  forall (fold_const_call_1_args2 :
            combined_fn -> tree_type -> tree -> tree -> option tree)
         (fn : combined_fn) (op : Z -> Z -> Z) (itype t0 t1 : tree_type)
         (v0 v1 : Z),
    checked_op fn = Some op ->
    fold_const_call_args2 fold_const_call_1_args2 fn (COMPLEX_TYPE itype)
      (INTEGER_CST t0 v0 false) (INTEGER_CST t1 v1 false)
    = Some (COMPLEX_CST (COMPLEX_TYPE itype)
              (INTEGER_CST itype (wrap_to_type itype (op v0 v1)) false)
              (build_int_cst itype
                 (if wrap_to_type itype (op v0 v1) =? op v0 v1
                  then 0 else 1)))
    /\ ((forall elt, itype <> COMPLEX_TYPE elt) ->
        fold_const_call_args2 fold_const_call_1_args2 fn itype
          (INTEGER_CST t0 v0 false) (INTEGER_CST t1 v1 false)
        = if wrap_to_type itype (op v0 v1) =? op v0 v1
          then Some (INTEGER_CST itype (op v0 v1) false)
          else None)
    /\ fold_const_call_args2 fold_const_call_1_args2 CFN_ADD_OVERFLOW
         (COMPLEX_TYPE unsigned_char_type)
         (INTEGER_CST unsigned_char_type 200 false)
         (INTEGER_CST unsigned_char_type 100 false)
       = Some (COMPLEX_CST (COMPLEX_TYPE unsigned_char_type)
                 (INTEGER_CST unsigned_char_type 44 false)
                 (INTEGER_CST unsigned_char_type 1 false))
    /\ fold_const_call_args2 fold_const_call_1_args2 CFN_ADD_OVERFLOW
         (COMPLEX_TYPE unsigned_char_type)
         (INTEGER_CST unsigned_char_type 10 false)
         (INTEGER_CST unsigned_char_type 20 false)
       = Some (COMPLEX_CST (COMPLEX_TYPE unsigned_char_type)
                 (INTEGER_CST unsigned_char_type 30 false)
                 (INTEGER_CST unsigned_char_type 0 false)).
Proof.
  intros dflt fn op itype t0 t1 v0 v1 Hop.
  split; [| split; [| split; reflexivity]].
  - rewrite (arith_overflow_shape dflt fn op _ t0 t1 v0 v1 Hop).
    cbv zeta. rewrite tree_type_eqb_complex. unfold build_complex.
    now destruct (_ =? _).
  - intros Hscalar.
    rewrite (arith_overflow_shape dflt fn op _ t0 t1 v0 v1 Hop).
    cbv zeta.
    assert (E : match itype with COMPLEX_TYPE elt => elt | _ => itype end
                = itype)
      by (destruct itype; try reflexivity; exfalso; eapply Hscalar; eauto).
    rewrite E, tree_type_eqb_refl.
    destruct (_ =? _) eqn:Hfit; simpl; [| reflexivity].
    apply Z.eqb_eq in Hfit. now rewrite Hfit.
Qed.

(** ** Bounded string and memory functions with a zero bound *)

Lemma wrap_to_type_0 (type : tree_type) : wrap_to_type type 0 = 0.
Proof.
  pose proof (pow2_pos (TYPE_PRECISION type)).
  unfold wrap_to_type, zext_hwi. destruct (TYPE_SIGN type).
  - destruct (Z.eq_dec (Z.of_N (TYPE_PRECISION type)) 0) as [E | E].
    + rewrite E. apply sext_hwi_zero_width.
    + apply sext_hwi_small; [lia |].
      assert (0 < 2 ^ (Z.of_N (TYPE_PRECISION type) - 1))
        by (apply Z.pow_pos_nonneg; lia). lia.
  - apply Z.mod_0_l. lia.
Qed.

Section SideEffects.

Context {TG : Target}.

(** An operand with a side effect is not a literal buffer and is not a
    character constant. *)
Lemma side_effects_no_bytes (t : tree) :
  TREE_SIDE_EFFECTS t = true -> getbyterep t = None.
Proof.
  induction t as [ty v o | ty re IHre im IHim | bytes | ty base IH off
                  | ty se]; simpl; intros H; try discriminate.
  - now rewrite (IH H).
  - reflexivity.
Qed.

Lemma side_effects_no_string (t : tree) :
  TREE_SIDE_EFFECTS t = true -> c_getstr t = None.
Proof. intros H. unfold c_getstr. now rewrite side_effects_no_bytes. Qed.

Lemma side_effects_no_char (t : tree) :
  TREE_SIDE_EFFECTS t = true -> target_char_cst_p t = None.
Proof. destruct t; simpl; intros H; try discriminate; reflexivity. Qed.

End SideEffects.

(** C8.  A bounded-length string or memory function ([strncmp],
    [strncasecmp], [bcmp], [memcmp], [memchr]) whose bound is the
    [size_t] constant zero folds to the integer constant 0, whatever
    its two other operands are, when neither of them has a side effect;
    when one of them has a side effect the call is not folded. *)
Theorem zero_bound_folds_to_zero :
  forall (TG : Target)
         (fold_const_call_1_args3 :
            combined_fn -> tree_type -> tree -> tree -> tree -> option tree)
         (fn : combined_fn) (type : tree_type) (arg0 arg1 arg2 : tree),
    In fn bounded_fns ->
    size_t_cst_p arg2 = Some 0 ->
    (TREE_SIDE_EFFECTS arg0 = false ->
     TREE_SIDE_EFFECTS arg1 = false ->
     fold_const_call_args3 fold_const_call_1_args3 fn type arg0 arg1 arg2
     = Some (INTEGER_CST type 0 false))
    /\ (TREE_SIDE_EFFECTS arg0 = true \/ TREE_SIDE_EFFECTS arg1 = true ->
        fold_const_call_args3 fold_const_call_1_args3 fn type arg0 arg1 arg2
        = None).
Proof.
  intros TG dflt fn type arg0 arg1 arg2 Hfn Hsize. simpl in Hfn. split.
  - intros H0 H1.
    destruct Hfn as [<- | [<- | [<- | [<- | [<- | []]]]]];
      unfold fold_const_call_args3; rewrite Hsize, H0, H1; simpl;
      unfold build_int_cst; now rewrite wrap_to_type_0.
  - intros Hse.
    assert (Hguard : (0 =? 0) && negb (TREE_SIDE_EFFECTS arg0)
                     && negb (TREE_SIDE_EFFECTS arg1) = false)
      by (destruct Hse as [-> | ->]; simpl;
          [reflexivity | apply andb_false_r]).
    assert (Hstr : match c_getstr arg0, c_getstr arg1 with
                   | Some _, Some _ => False
                   | _, _ => True
                   end).
    { destruct Hse as [H | H]; rewrite (side_effects_no_string _ H);
        [| destruct (c_getstr arg0)]; exact I. }
    assert (Hmem : match getbyterep arg0, getbyterep arg1 with
                   | Some _, Some _ => False
                   | _, _ => True
                   end).
    { destruct Hse as [H | H]; rewrite (side_effects_no_bytes _ H);
        [| destruct (getbyterep arg0)]; exact I. }
    assert (Hchr : match getbyterep arg0, target_char_cst_p arg1 with
                   | Some _, Some _ => False
                   | _, _ => True
                   end).
    { destruct Hse as [H | H];
        [ rewrite (side_effects_no_bytes _ H)
        | rewrite (side_effects_no_char _ H); destruct (getbyterep arg0) ];
        exact I. }
    destruct Hfn as [<- | [<- | [<- | [<- | [<- | []]]]]];
      unfold fold_const_call_args3; rewrite Hsize, Hguard.
    + destruct (c_getstr arg0), (c_getstr arg1); tauto.
    + destruct (c_getstr arg0), (c_getstr arg1); tauto.
    + destruct (getbyterep arg0), (getbyterep arg1); tauto.
    + destruct (getbyterep arg0), (getbyterep arg1); tauto.
    + destruct (getbyterep arg0), (target_char_cst_p arg1); tauto.
Qed.

(** ** Runs of the folder on the reference instances *)

Example sqrt_4_folds :
  fold_const_call_ss_real (RA := Ref.real_arith) (ML := Ref.mpfr_lib)
    Ref.default_options CASE_CFN_SQRT (real_of_Z 4) ieee_double_format
  = Some dconst2.
Proof. vm_compute. reflexivity. Qed.

Example floor_minus_1_5 :
  fold_const_call_ss_real (RA := Ref.real_arith) (ML := Ref.mpfr_lib)
    Ref.default_options CASE_CFN_FLOOR Ref.real_m1_5 ieee_double_format
  = Some (real_of_Z (-2)).
Proof. vm_compute. reflexivity. Qed.

Example ldexp_1_10 :
  fold_const_call_sss_real_int (RA := Ref.real_arith) Ref.default_options
    CASE_CFN_LDEXP dconst1 (wi.shwi 10 32) ieee_double_format
  = Some (real_of_Z 1024).
Proof. vm_compute. reflexivity. Qed.

(** The bound of [ldexp] in the double format is 4090, and 4090 itself
    is refused. *)
Example ldexp_at_the_bound :
  fold_const_call_sss_real_int (RA := Ref.real_arith) Ref.default_options
    CASE_CFN_LDEXP dconst0 (wi.shwi 4090 32) ieee_double_format = None
  /\ fold_const_call_sss_real_int (RA := Ref.real_arith) Ref.default_options
       CASE_CFN_LDEXP dconst0 (wi.shwi 4089 32) ieee_double_format
     = Some dconst0.
Proof. vm_compute. split; reflexivity. Qed.

Example ctz_of_zero_on_the_reference_target :
  fold_const_call_ss_int (TG := Ref.target) CFN_BUILT_IN_CTZ (wi.shwi 0 32)
    32 (INTEGER_TYPE 32 UNSIGNED SImode) = Some (wi.shwi 32 32)
  /\ fold_const_call_ss_int (TG := Ref.target) CFN_BUILT_IN_CLZL
       (wi.shwi 0 64) 32 (INTEGER_TYPE 64 UNSIGNED DImode)
     = Some (wi.shwi 64 32)
  /\ fold_const_call_sss_int CFN_BUILT_IN_CTZG (wi.shwi 0 32)
       (wi.shwi (-1) 32) 32 (INTEGER_TYPE 32 UNSIGNED SImode)
     = Some (wi.shwi (-1) 32).
Proof. vm_compute. repeat split; reflexivity. Qed.

Example sub_overflow_unsigned :
  fold_const_call_args2 Ref.no_default2 CFN_SUB_OVERFLOW
    (COMPLEX_TYPE unsigned_char_type)
    (INTEGER_CST Ref.int_type 3 false) (INTEGER_CST Ref.int_type 5 false)
  = Some (COMPLEX_CST (COMPLEX_TYPE unsigned_char_type)
            (INTEGER_CST unsigned_char_type 254 false)
            (INTEGER_CST unsigned_char_type 1 false)).
Proof. vm_compute. reflexivity. Qed.

Example memchr_finds_a_byte :
  fold_const_call_args3 (TG := Ref.target) Ref.no_default3
    CFN_BUILT_IN_MEMCHR Ref.ptr_type Ref.lit_abc
    (INTEGER_CST Ref.int_type 99 false)
    (INTEGER_CST (INTEGER_TYPE 64 UNSIGNED DImode) 3 false)
  = Some (POINTER_PLUS Ref.ptr_type Ref.lit_abc 2).
Proof. vm_compute. reflexivity. Qed.

(** ** The statements at concrete inputs

    Each lemma below applies one of the theorems to the reference
    instances and to concrete operands, and checks its hypotheses there
    by computation. *)

#[local] Existing Instance Ref.real_arith.
#[local] Existing Instance Ref.mpfr_lib.
#[local] Existing Instance Ref.target.

Lemma exactness_gate_round_trips_witness :
  (do_mpfr_ckconv Ref.default_options mpfr_clear_flags
     (Ref.mk_mpfr 53 Ref.real_1024) false ieee_double_format
   = Some Ref.real_1024
   /\ round_trips ieee_double_format Ref.real_1024)
  /\ (do_mpc_ckconv Ref.default_options mpfr_clear_flags
        (Ref.mk_mpfr 53 Ref.real_1024, Ref.mk_mpfr 53 dconst0) false
        ieee_double_format
      = Some (Ref.real_1024, dconst0)
      /\ round_trips ieee_double_format dconst0).
Proof.
  pose proof (exactness_gate_round_trips Ref.real_arith Ref.mpfr_lib
                Ref.default_options ieee_double_format) as (Hr & Hc & _).
  assert (H1 : do_mpfr_ckconv Ref.default_options
                 mpfr_clear_flags (Ref.mk_mpfr 53 Ref.real_1024) false
                 ieee_double_format = Some Ref.real_1024)
    by (vm_compute; reflexivity).
  assert (H2 : do_mpc_ckconv Ref.default_options
                 mpfr_clear_flags
                 (Ref.mk_mpfr 53 Ref.real_1024, Ref.mk_mpfr 53 dconst0) false
                 ieee_double_format = Some (Ref.real_1024, dconst0))
    by (vm_compute; reflexivity).
  split; split; [exact H1 | apply (Hr _ _ _ _ H1) | exact H2
                | apply (Hc _ _ _ _ _ H2)].
Defined.

Lemma domain_guards_reject_witness :
  rv_decimal dconstm1 = false
  /\ out_of_domain CASE_CFN_SQRT dconstm1
  /\ fold_const_call_ss_real
       Ref.default_options CASE_CFN_SQRT dconstm1 ieee_double_format = None.
Proof.
  assert (H1 : rv_decimal dconstm1 = false) by reflexivity.
  assert (H2 : out_of_domain CASE_CFN_SQRT dconstm1)
    by reflexivity.
  split; [exact H1 |]. split; [exact H2 |].
  exact (proj1 (domain_guards_reject Ref.real_arith Ref.mpfr_lib
                  Ref.default_options ieee_double_format) _ _ H1 H2).
Defined.

Lemma pow_fallback_suppression_witness :
  do_mpfr_arg2
    Ref.default_options mpfr_pow (Ref.get_inf true) Ref.real_3
    ieee_double_format = None
  /\ real_identical Ref.real_3
       (Ref.from_integer None (Ref.to_integer Ref.real_3) SIGNED) = true
  /\ 0 < Ref.to_integer Ref.real_3
  /\ (fold_const_pow
        Ref.default_options (Ref.get_inf true) Ref.real_3 ieee_double_format
      <> None ->
      fold_const_pow
        Ref.default_options (Ref.get_inf true) Ref.real_3 ieee_double_format
      = Some (Ref.get_inf true)).
Proof.
  assert (H1 : do_mpfr_arg2
                 Ref.default_options mpfr_pow (Ref.get_inf true) Ref.real_3
                 ieee_double_format = None) by (vm_compute; reflexivity).
  assert (H2 : real_identical Ref.real_3
                 (Ref.from_integer None (Ref.to_integer Ref.real_3) SIGNED)
               = true) by (vm_compute; reflexivity).
  assert (H3 : 0 < Ref.to_integer Ref.real_3) by (vm_compute; reflexivity).
  split; [exact H1 |]. split; [exact H2 |]. split; [exact H3 |].
  exact (proj2 (pow_fallback_suppression Ref.real_arith Ref.mpfr_lib
                  Ref.default_options (Ref.get_inf true) Ref.real_3
                  ieee_double_format H1 H2 (or_introl H3))).
Defined.

Lemma overflow_checked_arithmetic_witness :
  checked_op CFN_MUL_OVERFLOW = Some Z.mul
  /\ fold_const_call_args2 Ref.no_default2 CFN_MUL_OVERFLOW
       (COMPLEX_TYPE Ref.signed_char_type)
       (INTEGER_CST Ref.int_type 100 false) (INTEGER_CST Ref.int_type 2 false)
     = Some (COMPLEX_CST (COMPLEX_TYPE Ref.signed_char_type)
               (INTEGER_CST Ref.signed_char_type (-56) false)
               (INTEGER_CST Ref.signed_char_type 1 false))
  /\ fold_const_call_args2 Ref.no_default2 CFN_UBSAN_CHECK_MUL
       Ref.signed_char_type
       (INTEGER_CST Ref.int_type 100 false) (INTEGER_CST Ref.int_type 2 false)
     = None.
Proof.
  assert (H : checked_op CFN_MUL_OVERFLOW = Some Z.mul) by reflexivity.
  assert (H' : checked_op CFN_UBSAN_CHECK_MUL = Some Z.mul) by reflexivity.
  split; [exact H |]. split.
  - exact (proj1 (overflow_checked_arithmetic Ref.no_default2
                    CFN_MUL_OVERFLOW Z.mul Ref.signed_char_type Ref.int_type
                    Ref.int_type 100 2 H)).
  - refine (proj1 (proj2 (overflow_checked_arithmetic Ref.no_default2
                    CFN_UBSAN_CHECK_MUL Z.mul Ref.signed_char_type
                    Ref.int_type Ref.int_type 100 2 H')) _).
    intros elt. discriminate.
Defined.

Lemma load_exponent_rejections_witness :
  In CASE_CFN_LDEXP [CASE_CFN_LDEXP; CASE_CFN_SCALBN; CASE_CFN_SCALBLN]
  /\ 2 * Z.abs (fmt_emax ieee_double_format - fmt_emin ieee_double_format)
     <= INT_MAX
  /\ Z.abs (wi.to_signed (wi.shwi 5000 32))
     > 2 * Z.abs (fmt_emax ieee_double_format - fmt_emin ieee_double_format)
  /\ fold_const_call_sss_real_int Ref.default_options CASE_CFN_LDEXP dconst1
       (wi.shwi 5000 32) ieee_double_format = None.
Proof.
  assert (H1 : In CASE_CFN_LDEXP
                 [CASE_CFN_LDEXP; CASE_CFN_SCALBN; CASE_CFN_SCALBLN])
    by (left; reflexivity).
  assert (H2 : 2 * Z.abs (fmt_emax ieee_double_format
                          - fmt_emin ieee_double_format) <= INT_MAX)
    by (vm_compute; discriminate).
  assert (H3 : Z.abs (wi.to_signed (wi.shwi 5000 32))
               > 2 * Z.abs (fmt_emax ieee_double_format
                            - fmt_emin ieee_double_format))
    by (vm_compute; reflexivity).
  split; [exact H1 |]. split; [exact H2 |]. split; [exact H3 |].
  exact (proj1 (load_exponent_rejections Ref.real_arith Ref.default_options
                  CASE_CFN_LDEXP dconst1 (wi.shwi 5000 32) ieee_double_format
                  H1 H2) H3).
Defined.

Lemma clz_ctz_always_fold_witness :
  In CFN_BUILT_IN_CLZ clz_fns
  /\ wi.to_unsigned (wi.shwi 1 32) <> 0
  /\ exists tmp,
       fold_const_call_ss_int CFN_BUILT_IN_CLZ (wi.shwi 1 32) 32
         (INTEGER_TYPE 32 UNSIGNED SImode) = Some (wi.shwi tmp 32)
       /\ tmp = 31.
Proof.
  assert (H1 : In CFN_BUILT_IN_CLZ clz_fns) by (left; reflexivity).
  assert (H2 : wi.to_unsigned (wi.shwi 1 32) <> 0)
    by (vm_compute; discriminate).
  split; [exact H1 |]. split; [exact H2 |].
  destruct (proj1 (clz_ctz_always_fold Ref.target (wi.shwi 1 32)
                     (wi.shwi 0 32) 32 (INTEGER_TYPE 32 UNSIGNED SImode))
              CFN_BUILT_IN_CLZ H1) as (tmp & Hfold & Hnz & _).
  exists tmp. split; [exact Hfold |]. exact (proj1 (Hnz H2)).
Defined.

Lemma rounding_and_logb_keep_signaling_nans_witness :
  rv_cl Ref.snan = rvc_nan
  /\ REAL_VALUE_ISSIGNALING_NAN Ref.snan = true
  /\ fold_const_call_ss_real Ref.default_options CASE_CFN_LOGB Ref.snan
       ieee_double_format = Some Ref.snan
  /\ fold_const_call_ss_real Ref.default_options CASE_CFN_SIGNIFICAND
       Ref.snan ieee_double_format = Some Ref.snan
  /\ ~ (exists result,
          fold_const_call_ss_real Ref.default_options CASE_CFN_FLOOR
            Ref.snan ieee_double_format = Some result).
Proof.
  pose proof (rounding_and_logb_keep_signaling_nans Ref.real_arith
                Ref.mpfr_lib Ref.default_options Ref.snan ieee_double_format)
    as (Hround & Hnan & _).
  assert (H1 : rv_cl Ref.snan = rvc_nan) by reflexivity.
  assert (H2 : REAL_VALUE_ISSIGNALING_NAN Ref.snan = true) by reflexivity.
  split; [exact H1 |]. split; [exact H2 |].
  split; [exact (proj1 (Hnan H1)) |]. split; [exact (proj2 (Hnan H1)) |].
  intros Hex. apply (Hround CASE_CFN_FLOOR (or_introl eq_refl)) in Hex.
  rewrite H2 in Hex. discriminate.
Defined.

Lemma zero_bound_folds_to_zero_witness :
  In CFN_BUILT_IN_STRNCMP bounded_fns
  /\ size_t_cst_p Ref.size_zero = Some 0
  /\ TREE_SIDE_EFFECTS Ref.lit_abc = false
  /\ TREE_SIDE_EFFECTS Ref.lit_xyz = false
  /\ TREE_SIDE_EFFECTS Ref.call_expr = true
  /\ fold_const_call_args3 Ref.no_default3 CFN_BUILT_IN_STRNCMP Ref.int_type
       Ref.lit_abc Ref.lit_xyz Ref.size_zero
     = Some (INTEGER_CST Ref.int_type 0 false)
  /\ fold_const_call_args3 Ref.no_default3 CFN_BUILT_IN_STRNCMP Ref.int_type
       Ref.call_expr Ref.lit_xyz Ref.size_zero
     = None.
Proof.
  assert (H1 : In CFN_BUILT_IN_STRNCMP bounded_fns) by (left; reflexivity).
  assert (H2 : size_t_cst_p Ref.size_zero = Some 0) by reflexivity.
  assert (H3 : TREE_SIDE_EFFECTS Ref.lit_abc = false) by reflexivity.
  assert (H4 : TREE_SIDE_EFFECTS Ref.lit_xyz = false) by reflexivity.
  assert (H5 : TREE_SIDE_EFFECTS Ref.call_expr = true) by reflexivity.
  repeat (split; [assumption |]). split.
  - exact (proj1 (zero_bound_folds_to_zero Ref.target Ref.no_default3
                    CFN_BUILT_IN_STRNCMP Ref.int_type Ref.lit_abc Ref.lit_xyz
                    Ref.size_zero H1 H2) H3 H4).
  - exact (proj2 (zero_bound_folds_to_zero Ref.target Ref.no_default3
                    CFN_BUILT_IN_STRNCMP Ref.int_type Ref.call_expr
                    Ref.lit_xyz Ref.size_zero H1 H2) (or_introl H5)).
Defined.

Lemma pow_integer_fallback_witness :
  (flag_trapping_math Ref.default_options = true
   /\ Ref.to_integer dconstm1 = -1
   /\ fold_const_pow Ref.default_options dconst0 dconstm1 ieee_double_format
      = None)
  /\ (Ref.call2 mpfr_pow mpfr_clear_flags
        (Ref.mk_mpfr 53 dconst2) (Ref.mk_mpfr 53 (real_of_Z 10)) MPFR_RNDN
      = (Ref.mk_mpfr 53 (real_of_Z 1024), 0, mpfr_clear_flags)
      /\ Ref.convert ieee_double_format (real_of_Z 1024) = real_of_Z 1024
      /\ fold_const_pow Ref.default_options dconst2 (real_of_Z 10)
           ieee_double_format = Some (real_of_Z 1024)).
Proof.
  pose proof (pow_integer_fallback Ref.real_arith Ref.mpfr_lib
                Ref.default_options) as (_ & Hpole & Hexact).
  assert (H1 : flag_trapping_math Ref.default_options = true) by reflexivity.
  assert (H2 : Ref.to_integer dconstm1 = -1) by (vm_compute; reflexivity).
  assert (H3 : Ref.call2 mpfr_pow mpfr_clear_flags
                 (Ref.mk_mpfr 53 dconst2) (Ref.mk_mpfr 53 (real_of_Z 10))
                 MPFR_RNDN
               = (Ref.mk_mpfr 53 (real_of_Z 1024), 0, mpfr_clear_flags))
    by (vm_compute; reflexivity).
  assert (H4 : Ref.convert ieee_double_format (real_of_Z 1024)
               = real_of_Z 1024) by (vm_compute; reflexivity).
  split.
  - split; [exact H1 |]. split; [exact H2 |].
    apply (Hpole ieee_double_format (or_introl H1) H2).
    vm_compute. reflexivity.
  - split; [exact H3 |]. split; [exact H4 |].
    apply (Hexact (Ref.mk_mpfr 53 (real_of_Z 1024)) mpfr_clear_flags);
      try (vm_compute; reflexivity).
Defined.

(** * Further properties *)

(** ** [cproj] *)

(** X1.  [cproj] of a complex constant always folds, whatever the options,
    the format and the backend: to the argument itself when neither
    part is infinite, and otherwise to plus infinity with a zero
    imaginary part that has the sign of the argument's imaginary part.
    Folding [cproj] of the result gives the result again. *)
Theorem cproj_folds_and_is_idempotent :
  forall (RA : RealArith) (ML : MpfrLib) (opts : options)
         (arg_real arg_imag : real_value) (format : real_format),
    exists result_real result_imag,
      fold_const_call_cc opts CASE_CFN_CPROJ arg_real arg_imag format
      = Some (result_real, result_imag)
      /\ (real_isinf arg_real = false /\ real_isinf arg_imag = false ->
          result_real = arg_real /\ result_imag = arg_imag)
      /\ (real_isinf arg_real = true \/ real_isinf arg_imag = true ->
          result_real = dconstinf
          /\ rv_cl result_imag = rvc_zero
          /\ rv_sign result_imag = rv_sign arg_imag)
      /\ fold_const_call_cc opts CASE_CFN_CPROJ result_real result_imag format
         = Some (result_real, result_imag).
Proof.
  intros RA ML opts ar ai format. simpl.
  destruct (real_isinf ar) eqn:Hr; [| destruct (real_isinf ai) eqn:Hi]; simpl.
  - eexists _, _. split; [reflexivity |].
    split; [intros [? _]; discriminate |]. split; [| reflexivity]. auto.
  - eexists _, _. split; [reflexivity |].
    split; [intros [_ ?]; discriminate |]. split; [| reflexivity]. auto.
  - exists ar, ai. split; [reflexivity |]. split; [auto |].
    split; [intros [? | ?]; discriminate |]. now rewrite Hr, Hi.
Qed.

(** ** Which functions fold a NaN, an infinity, or in a non-binary format *)

Section GenericPreconditions.

Context {RA : RealArith} {ML : MpfrLib}.
Variable opts : options.

(** Every generic evaluator requires finite operands, and all but
    [do_mpc_arg2] a format of radix 2. *)
Lemma do_mpfr_arg1_requires func arg format result :
  do_mpfr_arg1 opts func arg format = Some result ->
  fmt_b format = 2 /\ real_isfinite arg = true.
Proof.
  unfold do_mpfr_arg1.
  destruct (fmt_b format =? 2) eqn:Hb; simpl; [| discriminate].
  destruct (real_isfinite arg); simpl; [| discriminate].
  intros _. split; [now apply Z.eqb_eq | reflexivity].
Qed.

Lemma do_mpfr_arg2_requires func arg0 arg1 format result :
  do_mpfr_arg2 opts func arg0 arg1 format = Some result ->
  fmt_b format = 2 /\ real_isfinite arg0 = true /\ real_isfinite arg1 = true.
Proof.
  unfold do_mpfr_arg2.
  destruct (fmt_b format =? 2) eqn:Hb; simpl; [| discriminate].
  destruct (real_isfinite arg0); simpl; [| discriminate].
  destruct (real_isfinite arg1); simpl; [| discriminate].
  intros _. split; [now apply Z.eqb_eq | auto].
Qed.

Lemma do_mpfr_arg2_si_requires func arg0 arg1 format result :
  do_mpfr_arg2_si opts func arg0 arg1 format = Some result ->
  fmt_b format = 2 /\ real_isfinite arg1 = true.
Proof.
  unfold do_mpfr_arg2_si.
  destruct (fmt_b format =? 2) eqn:Hb; simpl; [| discriminate].
  destruct (real_isfinite arg1); simpl; [| discriminate].
  intros _. split; [now apply Z.eqb_eq | reflexivity].
Qed.

Lemma do_mpfr_arg3_requires func arg0 arg1 arg2 format result :
  do_mpfr_arg3 opts func arg0 arg1 arg2 format = Some result ->
  fmt_b format = 2 /\ real_isfinite arg0 = true
  /\ real_isfinite arg1 = true /\ real_isfinite arg2 = true.
Proof.
  unfold do_mpfr_arg3.
  destruct (fmt_b format =? 2) eqn:Hb; simpl; [| discriminate].
  destruct (real_isfinite arg0); simpl; [| discriminate].
  destruct (real_isfinite arg1); simpl; [| discriminate].
  destruct (real_isfinite arg2); simpl; [| discriminate].
  intros _. split; [now apply Z.eqb_eq | auto].
Qed.

Lemma do_mpfr_sincos_requires arg format result :
  do_mpfr_sincos opts arg format = Some result ->
  fmt_b format = 2 /\ real_isfinite arg = true.
Proof.
  unfold do_mpfr_sincos.
  destruct (fmt_b format =? 2) eqn:Hb; simpl; [| discriminate].
  destruct (real_isfinite arg); simpl; [| discriminate].
  intros _. split; [now apply Z.eqb_eq | reflexivity].
Qed.

Lemma do_mpc_arg1_requires func arg_real arg_imag format result :
  do_mpc_arg1 opts func arg_real arg_imag format = Some result ->
  fmt_b format = 2 /\ real_isfinite arg_real = true
  /\ real_isfinite arg_imag = true.
Proof.
  unfold do_mpc_arg1.
  destruct (fmt_b format =? 2) eqn:Hb; simpl; [| discriminate].
  destruct (real_isfinite arg_real); simpl; [| discriminate].
  destruct (real_isfinite arg_imag); simpl; [| discriminate].
  intros _. split; [now apply Z.eqb_eq | auto].
Qed.

Lemma do_mpc_arg2_requires func a0r a0i a1r a1i format result :
  do_mpc_arg2 opts func a0r a0i a1r a1i format = Some result ->
  real_isfinite a0r = true /\ real_isfinite a0i = true
  /\ real_isfinite a1r = true /\ real_isfinite a1i = true.
Proof.
  unfold do_mpc_arg2.
  destruct (real_isfinite a0r); simpl; [| discriminate].
  destruct (real_isfinite a0i); simpl; [| discriminate].
  destruct (real_isfinite a1r); simpl; [| discriminate].
  destruct (real_isfinite a1i); simpl; [| discriminate].
  auto.
Qed.

End GenericPreconditions.

(** X2.  A unary real function folds a NaN or an infinity, or a constant of
    a format whose radix is not 2, only through a closed-form handler:
    the five roundings to an integral value, [logb] and [significand].
    Every other function is folded for finite arguments of binary
    formats only. *)
Theorem unary_fold_of_special_operand :
  forall (RA : RealArith) (ML : MpfrLib) (opts : options) (fn : combined_fn)
         (arg : real_value) (format : real_format) (result : real_value),
    fold_const_call_ss_real opts fn arg format = Some result ->
    (fmt_b format = 2 /\ real_isfinite arg = true)
    \/ In fn [CASE_CFN_FLOOR; CASE_CFN_CEIL; CASE_CFN_TRUNC; CASE_CFN_ROUND;
              CASE_CFN_ROUNDEVEN; CASE_CFN_LOGB; CASE_CFN_SIGNIFICAND].
Proof.
  intros RA ML opts fn arg format result H.
  destruct fn; simpl in H; try discriminate;
    try (right; simpl; tauto);
    left;
    repeat match type of H with
           | (if ?c then _ else _) = Some _ =>
               destruct c; [| discriminate]
           end;
    eapply do_mpfr_arg1_requires; exact H.
Qed.

(** X3.  Among the functions of two operands with a real result, a NaN
    or an infinity, or a constant of a non-binary format, is folded only
    by [copysign], [pow], [nextafter] and [nexttoward] on two reals, and
    by [powi], [ldexp], [scalbn] and [scalbln] on a real and an integer;
    of these [scalbn] and [scalbln] still require a binary format.  Every
    other function, the Bessel functions [jn] and [yn] included, folds
    finite real operands of binary formats only.  [powi] folds every
    operand, NaN and infinity included, in every format, unless the
    operand is a signaling NaN that is honored and unsafe math is off. *)
Theorem binary_fold_of_special_operand :
  forall (RA : RealArith) (ML : MpfrLib) (opts : options) (fn : combined_fn)
         (arg0 arg1 : real_value) (n : wide_int) (format : real_format),
    (forall result,
        fold_const_call_sss_real opts fn arg0 arg1 format = Some result ->
        (fmt_b format = 2
         /\ real_isfinite arg0 = true /\ real_isfinite arg1 = true)
        \/ In fn [CASE_CFN_COPYSIGN; CASE_CFN_POW; CASE_CFN_NEXTAFTER;
                  CFN_BUILT_IN_NEXTAFTERF16B; CASE_CFN_NEXTTOWARD])
    /\ (forall result,
          fold_const_call_sss_int_real opts fn n arg1 format = Some result ->
          fmt_b format = 2 /\ real_isfinite arg1 = true)
    /\ (forall result,
          fold_const_call_sss_real_int opts fn arg0 n format = Some result ->
          In fn [CASE_CFN_POWI; CASE_CFN_LDEXP; CASE_CFN_SCALBN;
                 CASE_CFN_SCALBLN]
          /\ (In fn [CASE_CFN_SCALBN; CASE_CFN_SCALBLN] ->
              fmt_b format = 2))
    /\ (negb (flag_unsafe_math_optimizations opts)
        && flag_signaling_nans opts
        && REAL_VALUE_ISSIGNALING_NAN arg0 = false ->
        fold_const_call_sss_real_int opts CASE_CFN_POWI arg0 n format
        = Some (fst (real_powi format arg0 (wi.to_shwi n)))).
Proof.
  intros RA ML opts fn arg0 arg1 n format.
  split; [| split; [| split]].
  - intros result H.
    destruct fn; simpl in H; try discriminate;
      try (right; simpl; tauto);
      left;
      repeat match type of H with
             | (if ?c then _ else _) = Some _ =>
                 destruct c; [| discriminate]
             end;
      eapply do_mpfr_arg2_requires; exact H.
  - intros result H.
    destruct fn; simpl in H; try discriminate;
      repeat match type of H with
             | (if ?c then _ else _) = Some _ =>
                 destruct c; [| discriminate]
             end;
      eapply do_mpfr_arg2_si_requires; exact H.
  - intros result H.
    destruct fn; simpl in H; try discriminate.
    + split; [simpl; tauto |].
      intros [E | [E | []]]; discriminate.
    + destruct (fmt_b format =? 2) eqn:Hb; [| discriminate].
      split; [simpl; tauto |]. intros _. now apply Z.eqb_eq.
    + destruct (fmt_b format =? 2) eqn:Hb; [| discriminate].
      split; [simpl; tauto |]. intros _. now apply Z.eqb_eq.
    + split; [simpl; tauto |].
      intros [E | [E | []]]; discriminate.
  - intros H. simpl. now rewrite H.
Qed.

Lemma real_isfinite_negate (r : real_value) :
  real_isfinite (real_value_negate r) = real_isfinite r.
Proof. reflexivity. Qed.

Lemma real_value_negate_involutive (r : real_value) :
  real_value_negate (real_value_negate r) = r.
Proof.
  destruct r as [cl d s sg cn e sig]. unfold real_value_negate, set_sign.
  simpl. now rewrite negb_involutive.
Qed.

(** X4.  The fused multiply-add family folds finite operands of binary
    formats only, and its members are one function up to the sign of the
    operands: [fms (a, b, c)] folds as [fma (a, b, -c)], [fnma (a, b, c)]
    as [fma (-a, b, c)] and [fnms (a, b, c)] as [fma (-a, b, -c)], so
    that [fnms (-a, b, -c)] folds as [fma (a, b, c)]. *)
Theorem fma_family :
  forall (RA : RealArith) (ML : MpfrLib) (opts : options) (fn : combined_fn)
         (arg0 arg1 arg2 : real_value) (format : real_format),
    (forall result,
        fold_const_call_ssss opts fn arg0 arg1 arg2 format = Some result ->
        fmt_b format = 2 /\ real_isfinite arg0 = true
        /\ real_isfinite arg1 = true /\ real_isfinite arg2 = true)
    /\ fold_const_call_ssss opts CFN_FMS arg0 arg1 arg2 format
       = fold_const_call_ssss opts CASE_CFN_FMA arg0 arg1
           (real_value_negate arg2) format
    /\ fold_const_call_ssss opts CFN_FNMA arg0 arg1 arg2 format
       = fold_const_call_ssss opts CASE_CFN_FMA (real_value_negate arg0) arg1
           arg2 format
    /\ fold_const_call_ssss opts CFN_FNMS arg0 arg1 arg2 format
       = fold_const_call_ssss opts CASE_CFN_FMA (real_value_negate arg0) arg1
           (real_value_negate arg2) format
    /\ fold_const_call_ssss opts CFN_FNMS (real_value_negate arg0) arg1
         (real_value_negate arg2) format
       = fold_const_call_ssss opts CASE_CFN_FMA arg0 arg1 arg2 format.
Proof.
  intros RA ML opts fn arg0 arg1 arg2 format.
  split; [| split; [reflexivity | split; [reflexivity | split;
                                          [reflexivity |]]]].
  - intros result H.
    destruct fn; simpl in H; try discriminate;
      apply do_mpfr_arg3_requires in H;
      rewrite ?real_isfinite_negate in H; exact H.
  - simpl. now rewrite !real_value_negate_involutive.
Qed.

(** X5.  Of the complex functions only [cproj] folds an operand with an
    infinite or NaN part.  All but [cpow] also require a binary format. *)
Theorem complex_fold_of_special_operand :
  forall (RA : RealArith) (ML : MpfrLib) (opts : options) (fn : combined_fn)
         (arg0_real arg0_imag arg1_real arg1_imag : real_value)
         (format : real_format),
    (forall result,
        fold_const_call_cc opts fn arg0_real arg0_imag format = Some result ->
        fn = CASE_CFN_CPROJ
        \/ (fmt_b format = 2 /\ real_isfinite arg0_real = true
            /\ real_isfinite arg0_imag = true))
    /\ (forall result,
          fold_const_call_cs opts fn arg0_real format = Some result ->
          fmt_b format = 2 /\ real_isfinite arg0_real = true)
    /\ (forall result,
          fold_const_call_sc opts fn arg0_real arg0_imag format
          = Some result ->
          fmt_b format = 2 /\ real_isfinite arg0_real = true
          /\ real_isfinite arg0_imag = true)
    /\ (forall result,
          fold_const_call_ccc opts fn arg0_real arg0_imag arg1_real arg1_imag
            format = Some result ->
          real_isfinite arg0_real = true /\ real_isfinite arg0_imag = true
          /\ real_isfinite arg1_real = true
          /\ real_isfinite arg1_imag = true).
Proof.
  intros RA ML opts fn a0r a0i a1r a1i format.
  split; [| split; [| split]]; intros result H.
  - destruct fn; simpl in H; try discriminate;
      try (left; reflexivity);
      right; eapply do_mpc_arg1_requires; exact H.
  - destruct fn; simpl in H; try discriminate.
    destruct (do_mpfr_sincos opts a0r format) as [[s c] |] eqn:E;
      [| discriminate].
    eapply do_mpfr_sincos_requires; exact E.
  - destruct fn; simpl in H; try discriminate.
    eapply do_mpfr_arg2_requires; exact H.
  - destruct fn; simpl in H; try discriminate.
    eapply do_mpc_arg2_requires; exact H.
Qed.

(** ** Closed-form handlers *)

Section ClosedForms.

Context {RA : RealArith}.

Lemma real_equal_finite (a b : real_value) :
  real_equal a b = true ->
  real_isinf a = false ->
  real_isfinite a = true /\ real_isfinite b = true.
Proof.
  unfold real_equal, real_isinf, real_isfinite, do_compare.
  destruct (rv_cl a), (rv_cl b); simpl; intros H Hinf;
    try discriminate; try (split; reflexivity);
    exfalso;
    repeat match type of H with
           | context [if ?c then _ else _] => destruct c
           end; discriminate.
Qed.

Lemma SET_REAL_EXP_1_twice (r : real_value) :
  SET_REAL_EXP (SET_REAL_EXP r 1) 1 = SET_REAL_EXP r 1.
Proof. reflexivity. Qed.

Lemma REAL_EXP_SET_REAL_EXP_1 (r : real_value) :
  REAL_EXP (SET_REAL_EXP r 1) = 1.
Proof. reflexivity. Qed.

End ClosedForms.

(** X6.  When [pow] is folded by its integer-exponent fallback, [powi] with
    that integer exponent folds to the same constant: [pow] is never
    folded where [powi] is not. *)
Theorem pow_fallback_agrees_with_powi :
  forall (RA : RealArith) (ML : MpfrLib) (opts : options)
         (arg0 arg1 : real_value) (n : wide_int) (format : real_format)
         (result : real_value),
    do_mpfr_arg2 opts mpfr_pow arg0 arg1 format = None ->
    fold_const_call_sss_real opts CASE_CFN_POW arg0 arg1 format
    = Some result ->
    wi.to_shwi n = real_to_integer arg1 ->
    fold_const_call_sss_real_int opts CASE_CFN_POWI arg0 n format
    = Some result.
Proof.
  intros RA ML opts arg0 arg1 n format result Hgen H Hn.
  simpl in *. unfold fold_const_pow in H. rewrite Hgen in H.
  rewrite Hn.
  destruct (_ && _) in H; [| discriminate].
  destruct (real_powi format arg0 (real_to_integer arg1)) as [r inexact].
  simpl.
  destruct (flag_unsafe_math_optimizations opts); simpl in *.
  - exact H.
  - destruct inexact; simpl in H; [discriminate |].
    destruct (flag_signaling_nans opts); simpl in *; [| exact H].
    destruct (REAL_VALUE_ISSIGNALING_NAN arg0); simpl in *;
      [discriminate | exact H].
Qed.

(** X7.  A folded [ldexp], [scalbn] or [scalbln] is exact and finite: the
    scaled value is neither infinite nor NaN, the result is its
    truncation to the format, compares equal to it and is finite.
    [scalbn] and [scalbln] fold in binary formats only. *)
Theorem load_exponent_folds_are_exact :
  forall (RA : RealArith) (opts : options) (fn : combined_fn)
         (arg0 : real_value) (arg1 : wide_int) (format : real_format)
         (result : real_value),
    In fn [CASE_CFN_LDEXP; CASE_CFN_SCALBN; CASE_CFN_SCALBLN] ->
    fold_const_call_sss_real_int opts fn arg0 arg1 format = Some result ->
    let scaled := real_ldexp arg0 (to_int (wi.to_shwi arg1)) in
    result = real_value_truncate format scaled
    /\ real_equal scaled result = true
    /\ real_isfinite scaled = true
    /\ real_isfinite result = true
    /\ (fn <> CASE_CFN_LDEXP -> fmt_b format = 2).
Proof.
  intros RA opts fn arg0 arg1 format result Hfn H scaled.
  assert (Hle : fold_const_builtin_load_exponent opts arg0 arg1 format
                = Some result
                /\ (fn <> CASE_CFN_LDEXP -> fmt_b format = 2)).
  { simpl in Hfn. destruct Hfn as [<- | [<- | [<- | []]]]; simpl in H.
    - split; [exact H | congruence].
    - destruct (fmt_b format =? 2) eqn:Hb; [| discriminate].
      split; [exact H |]. intros _. now apply Z.eqb_eq.
    - destruct (fmt_b format =? 2) eqn:Hb; [| discriminate].
      split; [exact H |]. intros _. now apply Z.eqb_eq. }
  destruct Hle as [Hle Hb]. unfold fold_const_builtin_load_exponent in Hle.
  destruct (_ || _) in Hle; [discriminate |].
  destruct (_ && _) in Hle; [discriminate |].
  fold scaled in Hle.
  destruct (real_isinf scaled) eqn:Hinf; [discriminate |].
  destruct (real_equal scaled (real_value_truncate format scaled)) eqn:Heq;
    [| discriminate].
  inversion Hle; subst result.
  destruct (real_equal_finite _ _ Heq Hinf) as [Hf1 Hf2].
  auto.
Qed.

(** X8.  [significand] is idempotent and keeps the class and the sign of its
    argument; the significand of a normal number has exponent 1, so that
    its [logb] folds to the constant 0. *)
Theorem significand_is_idempotent :
  forall (RA : RealArith) (ML : MpfrLib) (opts : options)
         (arg : real_value) (format : real_format) (result : real_value),
    fold_const_call_ss_real opts CASE_CFN_SIGNIFICAND arg format
    = Some result ->
    fold_const_call_ss_real opts CASE_CFN_SIGNIFICAND result format
    = Some result
    /\ rv_cl result = rv_cl arg
    /\ rv_sign result = rv_sign arg
    /\ (rv_cl arg = rvc_normal ->
        fold_const_call_ss_real opts CASE_CFN_LOGB result format
        = Some (real_from_integer (Some format) 0 SIGNED)).
Proof.
  intros RA ML opts arg format result H. simpl in *.
  unfold fold_const_significand, fold_const_logb in *.
  destruct (rv_cl arg) eqn:Hc.
  - inversion H; subst result. rewrite Hc. repeat split; discriminate.
  - destruct (fmt_b format =? 2) eqn:Hb; [| discriminate].
    inversion H; subst result.
    change (rv_cl (SET_REAL_EXP arg 1)) with (rv_cl arg).
    rewrite Hc, SET_REAL_EXP_1_twice, REAL_EXP_SET_REAL_EXP_1.
    repeat split; reflexivity.
  - inversion H; subst result. rewrite Hc. repeat split; discriminate.
  - inversion H; subst result. rewrite Hc. repeat split; discriminate.
Qed.

(** ** Real operand, integer result *)

(** X9.  The classification functions always fold, and they partition the
    constants: exactly one of [isfinite], [isinf] and [isnan] folds to a
    non-zero value.  [isfinite] folds to 1 exactly on a zero or a normal
    number, [isnan] to 1 exactly on a NaN, [isinf] to 1 exactly on plus
    infinity and to -1 exactly on minus infinity, and [issignaling] to 1
    exactly on a signaling NaN. *)
Theorem classification_partitions_the_constants :
  forall (RA : RealArith)
         (real_to_integer_wide : real_value -> N -> wide_int * bool)
         (fn_finite fn_inf fn_nan : combined_fn_ext)
         (arg : real_value) (precision : N) (format : real_format),
    In fn_finite [CASE_CFN_FINITE; CFN_BUILT_IN_FINITED32;
                  CFN_BUILT_IN_FINITED64; CFN_BUILT_IN_FINITED128;
                  CFN_BUILT_IN_ISFINITE] ->
    In fn_inf [CASE_CFN_ISINF; CFN_BUILT_IN_ISINFD32; CFN_BUILT_IN_ISINFD64;
               CFN_BUILT_IN_ISINFD128] ->
    In fn_nan [CASE_CFN_ISNAN; CFN_BUILT_IN_ISNAND32; CFN_BUILT_IN_ISNAND64;
               CFN_BUILT_IN_ISNAND128] ->
    exists f i n s : Z,
      fold_const_call_ss_int_real real_to_integer_wide fn_finite arg
        precision format = Some (wi.shwi f precision)
      /\ fold_const_call_ss_int_real real_to_integer_wide fn_inf arg
           precision format = Some (wi.shwi i precision)
      /\ fold_const_call_ss_int_real real_to_integer_wide fn_nan arg
           precision format = Some (wi.shwi n precision)
      /\ fold_const_call_ss_int_real real_to_integer_wide
           CFN_BUILT_IN_ISSIGNALING arg precision format
         = Some (wi.shwi s precision)
      /\ f + Z.abs i + n = 1
      /\ 0 <= f /\ 0 <= n /\ 0 <= s <= n
      /\ (i = 1 \/ i = -1 <-> rv_cl arg = rvc_inf)
      /\ (i = -1 -> rv_sign arg = true)
      /\ (f = 1 <-> rv_cl arg = rvc_zero \/ rv_cl arg = rvc_normal)
      /\ (n = 1 <-> rv_cl arg = rvc_nan)
      /\ (i = 1 <-> rv_cl arg = rvc_inf /\ rv_sign arg = false)
      /\ (i = -1 <-> rv_cl arg = rvc_inf /\ rv_sign arg = true)
      /\ (s = 1 <-> rv_cl arg = rvc_nan /\ rv_signalling arg = true).
Proof.
  intros RA rtw ff fi fn arg precision format Hf Hi Hn.
  exists (if real_isfinite arg then 1 else 0),
         (if real_isinf arg then if rv_sign arg then -1 else 1 else 0),
         (if real_isnan arg then 1 else 0),
         (if real_issignaling_nan arg then 1 else 0).
  split; [| split; [| split; [| split]]].
  - simpl in Hf.
    destruct Hf as [<- | [<- | [<- | [<- | [<- | []]]]]]; reflexivity.
  - simpl in Hi.
    destruct Hi as [<- | [<- | [<- | [<- | []]]]]; simpl;
      destruct (real_isinf arg); reflexivity.
  - simpl in Hn.
    destruct Hn as [<- | [<- | [<- | [<- | []]]]]; reflexivity.
  - reflexivity.
  - unfold real_isfinite, real_isinf, real_isnan, real_issignaling_nan.
    destruct (rv_cl arg), (rv_sign arg), (rv_signalling arg); simpl;
      repeat split; try lia; try discriminate; auto;
        try (intros [? | ?]; discriminate);
        try (intros [? ?]; discriminate).
Qed.

(** X10.  [signbit] always folds, to 1 or 0, and the sign bit of a folded
    [copysign (x, y)] is that of [y], whatever [x] and [y] are. *)
Theorem signbit_of_copysign :
  forall (RA : RealArith) (ML : MpfrLib) (opts : options)
         (real_to_integer_wide : real_value -> N -> wide_int * bool)
         (x y : real_value) (precision : N) (format : real_format),
    exists r,
      fold_const_call_sss_real opts CASE_CFN_COPYSIGN x y format = Some r
      /\ fold_const_call_ss_int_real real_to_integer_wide CASE_CFN_SIGNBIT r
           precision format
         = fold_const_call_ss_int_real real_to_integer_wide CASE_CFN_SIGNBIT
             y precision format
      /\ fold_const_call_ss_int_real real_to_integer_wide CASE_CFN_SIGNBIT y
           precision format
         = Some (if rv_sign y then wi.one precision else wi.zero precision).
Proof.
  intros RA ML opts rtw x y precision format.
  exists (real_copysign x y). split; [reflexivity |]. simpl.
  unfold real_isneg. destruct (rv_sign y); split; reflexivity.
Qed.

(** X11.  Where [ilogb] folds, [logb] folds to the same exponent, as a real
    constant. *)
Theorem ilogb_agrees_with_logb :
  forall (RA : RealArith) (ML : MpfrLib) (opts : options)
         (real_to_integer_wide : real_value -> N -> wide_int * bool)
         (arg : real_value) (precision : N) (format : real_format)
         (result : wide_int),
    fold_const_call_ss_int_real real_to_integer_wide CASE_CFN_ILOGB arg
      precision format = Some result ->
    exists e : Z,
      result = wi.shwi e precision
      /\ fold_const_call_ss_real opts CASE_CFN_LOGB arg format
         = Some (real_from_integer (Some format) e SIGNED)
      /\ real_isfinite arg = true
      /\ fmt_b format = 2.
Proof.
  intros RA ML opts rtw arg precision format result H. simpl in *.
  unfold fold_const_logb, real_isfinite.
  destruct (rv_cl arg); simpl in H; try discriminate.
  destruct (fmt_b format =? 2) eqn:Hb; [| discriminate].
  inversion H. exists (REAL_EXP arg - 1).
  repeat split. now apply Z.eqb_eq.
Qed.

(** X12.  The real-to-integer conversions fold exactly when the argument
    is finite and [real_to_integer] converts the rounded value without
    failure, and then to that integer: [iceil], [lceil] and [llceil]
    round with [real_ceil], [ifloor], [lfloor] and [llfloor] with
    [real_floor], [iround], [lround] and [llround] with [real_round].
    The [lrint] family never folds.  A NaN or an infinity is folded only
    by [signbit] and the classification functions. *)
Theorem real_to_integer_fold_of_special_operand :
  forall (RA : RealArith)
         (real_to_integer_wide : real_value -> N -> wide_int * bool)
         (fn : combined_fn_ext) (arg : real_value) (precision : N)
         (format : real_format),
    (forall result,
        In fn ceil_conversions ->
        (fold_const_call_ss_int_real real_to_integer_wide fn arg precision
           format = Some result
         <-> real_isfinite arg = true
             /\ real_to_integer_wide (real_ceil format arg) precision
                = (result, false)))
    /\ (forall result,
          In fn floor_conversions ->
          (fold_const_call_ss_int_real real_to_integer_wide fn arg precision
             format = Some result
           <-> real_isfinite arg = true
               /\ real_to_integer_wide (real_floor format arg) precision
                  = (result, false)))
    /\ (forall result,
          In fn round_conversions ->
          (fold_const_call_ss_int_real real_to_integer_wide fn arg precision
             format = Some result
           <-> real_isfinite arg = true
               /\ real_to_integer_wide (real_round format arg) precision
                  = (result, false)))
    /\ (In fn rint_conversions ->
        fold_const_call_ss_int_real real_to_integer_wide fn arg precision
          format = None)
    /\ (forall result,
          fold_const_call_ss_int_real real_to_integer_wide fn arg precision
            format = Some result ->
          real_isfinite arg = false ->
          In fn [CASE_CFN_SIGNBIT; CASE_CFN_FINITE; CFN_BUILT_IN_FINITED32;
                 CFN_BUILT_IN_FINITED64; CFN_BUILT_IN_FINITED128;
                 CFN_BUILT_IN_ISFINITE; CFN_BUILT_IN_ISSIGNALING;
                 CASE_CFN_ISINF; CFN_BUILT_IN_ISINFD32;
                 CFN_BUILT_IN_ISINFD64; CFN_BUILT_IN_ISINFD128;
                 CASE_CFN_ISNAN; CFN_BUILT_IN_ISNAND32;
                 CFN_BUILT_IN_ISNAND64; CFN_BUILT_IN_ISNAND128]).
Proof.
  intros RA rtw fn arg precision format.
  assert (Hconv : forall round result,
             fold_const_conversion rtw round arg precision format
             = Some result
             <-> real_isfinite arg = true
                 /\ rtw (round format arg) precision = (result, false)).
  { intros round result. unfold fold_const_conversion.
    destruct (real_isfinite arg); simpl.
    - destruct (rtw (round format arg) precision) as [w fail].
      destruct fail; simpl; split.
      + discriminate.
      + intros [_ E]. inversion E.
      + intros E. inversion E. auto.
      + intros [_ E]. inversion E. reflexivity.
    - split; [discriminate | intros [E _]; discriminate]. }
  split; [| split; [| split; [| split]]].
  - intros result Hfn. unfold ceil_conversions in Hfn. simpl in Hfn.
    destruct Hfn as [<- | [<- | [<- | []]]]; apply Hconv.
  - intros result Hfn. unfold floor_conversions in Hfn. simpl in Hfn.
    destruct Hfn as [<- | [<- | [<- | []]]]; apply Hconv.
  - intros result Hfn. unfold round_conversions in Hfn. simpl in Hfn.
    destruct Hfn as [<- | [<- | [<- | []]]]; apply Hconv.
  - intros Hfn. unfold rint_conversions in Hfn. simpl in Hfn.
    destruct Hfn as [<- | [<- | [<- | []]]]; reflexivity.
  - intros result H Hnf.
    destruct fn; simpl in H; try discriminate;
      try (simpl; tauto); exfalso.
    + unfold real_isfinite in Hnf.
      destruct (rv_cl arg); simpl in H, Hnf; discriminate.
    + apply Hconv in H. destruct H as [Hf _]. congruence.
    + apply Hconv in H. destruct H as [Hf _]. congruence.
    + apply Hconv in H. destruct H as [Hf _]. congruence.
    + apply Hconv in H. destruct H as [Hf _]. congruence.
    + apply Hconv in H. destruct H as [Hf _]. congruence.
    + apply Hconv in H. destruct H as [Hf _]. congruence.
    + apply Hconv in H. destruct H as [Hf _]. congruence.
    + apply Hconv in H. destruct H as [Hf _]. congruence.
    + apply Hconv in H. destruct H as [Hf _]. congruence.
Qed.

(** ** Vector reductions *)

Section ReductionFacts.

Variable const_binop : tree_code -> tree_type -> tree -> tree -> option tree.

Lemma reduce_elts_app code type res elts1 elts2 :
  reduce_elts const_binop code type res (elts1 ++ elts2)
  = match reduce_elts const_binop code type res elts1 with
    | Some acc => reduce_elts const_binop code type acc elts2
    | None => None
    end.
Proof.
  revert res. induction elts1 as [| elt elts1 IH]; intros res; simpl.
  - reflexivity.
  - destruct (const_binop code type res elt) as [res' |]; [| reflexivity].
    destruct (CONSTANT_CLASS_P res'); simpl; [apply IH | reflexivity].
Qed.

Lemma reduce_elts_constant code type res elts result :
  elts <> [] ->
  reduce_elts const_binop code type res elts = Some result ->
  CONSTANT_CLASS_P result = true.
Proof.
  revert res. induction elts as [| elt elts IH]; intros res Hne H.
  - contradiction.
  - simpl in H.
    destruct (const_binop code type res elt) as [res' |]; [| discriminate].
    destruct (CONSTANT_CLASS_P res') eqn:Hc; simpl in H; [| discriminate].
    destruct elts as [| elt' elts'].
    + simpl in H. inversion H. now subst.
    + apply (IH res'); [discriminate | exact H].
Qed.

End ReductionFacts.

(** X13.  A left fold over a vector can be split anywhere: folding the
    elements up to a point and then the rest from the intermediate
    result gives the fold of the whole vector, and a step that fails
    makes the whole fold fail.  A reduction is the left fold of the
    elements after the first one, started from the first one. *)
Theorem fold_left_can_be_split :
  forall (const_binop : tree_code -> tree_type -> tree -> tree -> option tree)
         (type : tree_type) (code : tree_code) (arg0 first middle : tree)
         (before after : list tree),
    fold_const_fold_left const_binop type arg0
      (VECTOR_CST first (before ++ middle :: after) true) code
    = match fold_const_fold_left const_binop type arg0
              (VECTOR_CST first before true) code with
      | Some acc =>
          fold_const_fold_left const_binop type acc
            (VECTOR_CST middle after true) code
      | None => None
      end
    /\ fold_const_reduction const_binop type
         (VECTOR_CST first (middle :: after) true) code
       = fold_const_fold_left const_binop type first
           (VECTOR_CST middle after true) code.
Proof.
  intros cb type code arg0 first middle before after. split.
  - unfold fold_const_fold_left.
    change (first :: before ++ middle :: after)
      with ((first :: before) ++ middle :: after).
    apply reduce_elts_app.
  - reflexivity.
Qed.

(** X14.  Whatever [const_binop] does, a folded left fold, and a folded
    reduction of a vector of two or more elements, is a constant.  A
    vector whose number of elements is not a compile-time constant, and
    an operand that is not a vector constant, are never folded. *)
Theorem reductions_fold_to_constants :
  forall (const_binop : tree_code -> tree_type -> tree -> tree -> option tree)
         (type : tree_type) (code : tree_code) (arg0 : tree)
         (arg : vector_operand),
    (forall result,
        fold_const_fold_left const_binop type arg0 arg code = Some result ->
        CONSTANT_CLASS_P result = true
        /\ exists first rest, arg = VECTOR_CST first rest true)
    /\ (forall result,
          fold_const_reduction const_binop type arg code = Some result ->
          exists first rest,
            arg = VECTOR_CST first rest true
            /\ (rest = [] -> result = first)
            /\ (rest <> [] -> CONSTANT_CLASS_P result = true)).
Proof.
  intros cb type code arg0 arg. split; intros result H.
  - destruct arg as [first rest [|] | t]; simpl in H; try discriminate.
    split; [| eauto].
    apply (reduce_elts_constant cb code type arg0 (first :: rest) result);
      [discriminate | exact H].
  - destruct arg as [first rest [|] | t]; simpl in H; try discriminate.
    exists first, rest. split; [reflexivity |]. split.
    + intros ->. simpl in H. now inversion H.
    + intros Hne.
      apply (reduce_elts_constant cb code type first rest result Hne H).
Qed.

(** ** Add and subtract with carry; operands of the checked arithmetic *)

Lemma wrap_unsigned (prec : N) (mode : machine_mode) (v : Z) :
  wrap_to_type (INTEGER_TYPE prec UNSIGNED mode) v = v mod 2 ^ Z.of_N prec.
Proof. reflexivity. Qed.

Lemma mod_above (M x : Z) : M <= x < 2 * M -> x mod M = x - M.
Proof. intros H. symmetry. apply (Z.mod_unique_pos _ _ 1); lia. Qed.

Lemma mod_below (M x : Z) : - M <= x < 0 -> x mod M = x + M.
Proof. intros H. symmetry. apply (Z.mod_unique_pos _ _ (-1)); lia. Qed.

(** One step: the sum or difference of the three operands modulo
    [2^prec], and whether it left the range of the type. *)
Lemma carry_step
    (d : combined_fn_ext -> tree_type -> tree -> tree -> tree -> option tree)
    (fn : combined_fn_ext) (prec : N) (mode : machine_mode)
    (t0 t1 t2 : tree_type) (a b c : Z) :
  In fn [CFN_UADDC; CFN_USUBC] ->
  (0 < prec)%N ->
  0 <= a < 2 ^ Z.of_N prec -> 0 <= b < 2 ^ Z.of_N prec ->
  0 <= c < 2 ^ Z.of_N prec ->
  let itype := INTEGER_TYPE prec UNSIGNED mode in
  let s := match fn with CFN_UADDC => a + b + c | _ => a - b - c end in
  fold_const_call_args3_carry d fn (COMPLEX_TYPE itype)
    (INTEGER_CST t0 a false) (INTEGER_CST t1 b false) (INTEGER_CST t2 c false)
  = Some (COMPLEX_CST (COMPLEX_TYPE itype)
            (INTEGER_CST itype (s mod 2 ^ Z.of_N prec) false)
            (INTEGER_CST itype
               (if (0 <=? s) && (s <? 2 ^ Z.of_N prec) then 0 else 1) false)).
Proof.
  intros Hfn Hp Ha Hb Hc itype s.
  assert (HM : 2 <= 2 ^ Z.of_N prec).
  { change 2 with (2 ^ 1) at 1. apply Z.pow_le_mono_r; lia. }
  simpl in Hfn. destruct Hfn as [<- | [<- | []]].
  - unfold fold_const_call_args3_carry, integer_cst_p, fold_convert,
      int_const_binop, arith_overflowed_p, int_fits_type_p, build_complex,
      build_int_cst, exact_binop.
    simpl. rewrite !andb_false_r. simpl.
    unfold itype. rewrite !wrap_unsigned.
    set (M := 2 ^ Z.of_N prec) in *.
    rewrite (Z.mod_small a), (Z.mod_small b), (Z.mod_small c) by lia.
    rewrite Z.add_mod_idemp_l by lia. fold s.
    do 3 f_equal.
    destruct (Z_lt_ge_dec (a + b) M) as [Hab | Hab].
    + rewrite (Z.mod_small (a + b)) by lia. rewrite Z.eqb_refl. simpl.
      fold s.
      destruct (Z_lt_ge_dec s M) as [Hs | Hs].
      * rewrite (Z.mod_small s) by (unfold s in *; lia).
        rewrite Z.eqb_refl. simpl.
        replace (0 <=? s) with true
          by (symmetry; apply Z.leb_le; unfold s; lia).
        replace (s <? M) with true by (symmetry; apply Z.ltb_lt; lia).
        simpl. now rewrite Z.mod_small by lia.
      * rewrite (mod_above M s) by (unfold s in *; lia).
        replace (s - M =? s) with false by (symmetry; apply Z.eqb_neq; lia).
        replace (s <? M) with false by (symmetry; apply Z.ltb_ge; lia).
        rewrite andb_false_r. simpl. now rewrite Z.mod_small by lia.
    + rewrite (mod_above M (a + b)) by lia.
      replace (a + b - M =? a + b) with false
        by (symmetry; apply Z.eqb_neq; lia).
      simpl.
      replace (s <? M) with false
        by (symmetry; apply Z.ltb_ge; unfold s; lia).
      rewrite andb_false_r.
      destruct (negb _); simpl; now rewrite Z.mod_small by lia.
  - unfold fold_const_call_args3_carry, integer_cst_p, fold_convert,
      int_const_binop, arith_overflowed_p, int_fits_type_p, build_complex,
      build_int_cst, exact_binop.
    simpl. rewrite !andb_false_r. simpl.
    unfold itype. rewrite !wrap_unsigned.
    set (M := 2 ^ Z.of_N prec) in *.
    rewrite (Z.mod_small a), (Z.mod_small b), (Z.mod_small c) by lia.
    rewrite Zminus_mod_idemp_l. fold s.
    do 3 f_equal.
    destruct (Z_lt_ge_dec (a - b) 0) as [Hab | Hab].
    + rewrite (mod_below M (a - b)) by lia.
      replace (a - b + M =? a - b) with false
        by (symmetry; apply Z.eqb_neq; lia).
      simpl.
      replace (0 <=? s) with false
        by (symmetry; apply Z.leb_gt; unfold s; lia).
      simpl.
      destruct (negb _); simpl; now rewrite Z.mod_small by lia.
    + rewrite (Z.mod_small (a - b)) by lia. rewrite Z.eqb_refl. simpl.
      fold s.
      destruct (Z_lt_ge_dec s 0) as [Hs | Hs].
      * rewrite (mod_below M s) by (unfold s in *; lia).
        replace (s + M =? s) with false by (symmetry; apply Z.eqb_neq; lia).
        replace (0 <=? s) with false by (symmetry; apply Z.leb_gt; lia).
        simpl. now rewrite Z.mod_small by lia.
      * rewrite (Z.mod_small s) by (unfold s in *; lia).
        rewrite Z.eqb_refl. simpl.
        replace (0 <=? s) with true by (symmetry; apply Z.leb_le; lia).
        replace (s <? M) with true
          by (symmetry; apply Z.ltb_lt; unfold s; lia).
        simpl. now rewrite Z.mod_small by lia.
Qed.

(** X15.  [IFN_UADDC] and [IFN_USUBC] on unsigned constants of [prec] bits,
    the third being the carry or borrow in: the fold always succeeds,
    the first part of the result is the exact sum [a + b + c], or
    difference [a - b - c], modulo [2^prec], and the second part is 1
    exactly when the exact value is outside the type, 0 otherwise.  The
    two partial overflows are merged into one flag. *)
Theorem add_with_carry_is_exact :
  forall (d : combined_fn_ext -> tree_type -> tree -> tree -> tree ->
              option tree)
         (prec : N) (mode : machine_mode) (t0 t1 t2 : tree_type)
         (a b c : Z),
    (0 < prec)%N ->
    0 <= a < 2 ^ Z.of_N prec -> 0 <= b < 2 ^ Z.of_N prec ->
    0 <= c < 2 ^ Z.of_N prec ->
    let itype := INTEGER_TYPE prec UNSIGNED mode in
    fold_const_call_args3_carry d CFN_UADDC (COMPLEX_TYPE itype)
      (INTEGER_CST t0 a false) (INTEGER_CST t1 b false)
      (INTEGER_CST t2 c false)
    = Some (COMPLEX_CST (COMPLEX_TYPE itype)
              (INTEGER_CST itype ((a + b + c) mod 2 ^ Z.of_N prec) false)
              (INTEGER_CST itype
                 (if a + b + c <? 2 ^ Z.of_N prec then 0 else 1) false))
    /\ fold_const_call_args3_carry d CFN_USUBC (COMPLEX_TYPE itype)
         (INTEGER_CST t0 a false) (INTEGER_CST t1 b false)
         (INTEGER_CST t2 c false)
       = Some (COMPLEX_CST (COMPLEX_TYPE itype)
                 (INTEGER_CST itype ((a - b - c) mod 2 ^ Z.of_N prec) false)
                 (INTEGER_CST itype (if 0 <=? a - b - c then 0 else 1)
                    false)).
Proof.
  intros d prec mode t0 t1 t2 a b c Hp Ha Hb Hc itype. subst itype. split.
  - rewrite (carry_step d CFN_UADDC prec mode t0 t1 t2 a b c)
      by (simpl; auto).
    replace (0 <=? a + b + c) with true by (symmetry; apply Z.leb_le; lia).
    reflexivity.
  - rewrite (carry_step d CFN_USUBC prec mode t0 t1 t2 a b c)
      by (simpl; auto).
    replace (a - b - c <? 2 ^ Z.of_N prec) with true
      by (symmetry; apply Z.ltb_lt; lia).
    now rewrite andb_true_r.
Qed.

(** X16.  Two chained steps add two-limb numbers: the carry out of the low
    limbs fed into the high limbs gives the limbs and the carry of the
    double-width sum; likewise for the difference and the borrow. *)
Theorem add_with_carry_chains :
  forall (d : combined_fn_ext -> tree_type -> tree -> tree -> tree ->
              option tree)
         (prec : N) (mode : machine_mode) (a0 a1 b0 b1 : Z),
    (0 < prec)%N ->
    0 <= a0 < 2 ^ Z.of_N prec -> 0 <= a1 < 2 ^ Z.of_N prec ->
    0 <= b0 < 2 ^ Z.of_N prec -> 0 <= b1 < 2 ^ Z.of_N prec ->
    let itype := INTEGER_TYPE prec UNSIGNED mode in
    let M := 2 ^ Z.of_N prec in
    let cst := fun v => INTEGER_CST itype v false in
    let pair := fun v c => COMPLEX_CST (COMPLEX_TYPE itype) (cst v) (cst c) in
    (exists lo c0 hi c1,
        fold_const_call_args3_carry d CFN_UADDC (COMPLEX_TYPE itype)
          (cst a0) (cst b0) (cst 0) = Some (pair lo c0)
        /\ fold_const_call_args3_carry d CFN_UADDC (COMPLEX_TYPE itype)
             (cst a1) (cst b1) (cst c0) = Some (pair hi c1)
        /\ 0 <= lo < M /\ 0 <= hi < M /\ 0 <= c1 <= 1
        /\ lo + M * hi + M * M * c1 = (a0 + M * a1) + (b0 + M * b1))
    /\ (exists lo c0 hi c1,
          fold_const_call_args3_carry d CFN_USUBC (COMPLEX_TYPE itype)
            (cst a0) (cst b0) (cst 0) = Some (pair lo c0)
          /\ fold_const_call_args3_carry d CFN_USUBC (COMPLEX_TYPE itype)
               (cst a1) (cst b1) (cst c0) = Some (pair hi c1)
          /\ 0 <= lo < M /\ 0 <= hi < M /\ 0 <= c1 <= 1
          /\ lo + M * hi - M * M * c1 = (a0 + M * a1) - (b0 + M * b1)).
Proof.
  intros d prec mode a0 a1 b0 b1 Hp Ha0 Ha1 Hb0 Hb1 itype M cst pair.
  assert (HM : 2 <= M).
  { unfold M. change 2 with (2 ^ 1) at 1. apply Z.pow_le_mono_r; lia. }
  fold M in Ha0, Ha1, Hb0, Hb1.
  split.
  - pose proof (carry_step d CFN_UADDC prec mode itype itype itype a0 b0 0
                  ltac:(simpl; auto) Hp Ha0 Hb0 ltac:(fold M; lia)) as E0.
    cbv zeta in E0. fold M itype in E0.
    set (s0 := a0 + b0 + 0) in E0.
    set (c0 := if (0 <=? s0) && (s0 <? M) then 0 else 1) in E0.
    assert (Hc0 : 0 <= c0 <= 1 /\ s0 mod M + M * c0 = s0).
    { unfold c0. destruct (Z_lt_ge_dec s0 M) as [H | H].
      - replace (0 <=? s0) with true
          by (symmetry; apply Z.leb_le; unfold s0; lia).
        replace (s0 <? M) with true by (symmetry; apply Z.ltb_lt; lia).
        simpl. rewrite Z.mod_small by (unfold s0 in *; lia). lia.
      - replace (s0 <? M) with false by (symmetry; apply Z.ltb_ge; lia).
        rewrite andb_false_r.
        rewrite mod_above by (unfold s0 in *; lia). lia. }
    pose proof (carry_step d CFN_UADDC prec mode itype itype itype a1 b1 c0
                  ltac:(simpl; auto) Hp Ha1 Hb1 ltac:(fold M; lia)) as E1.
    cbv zeta in E1. fold M itype in E1.
    set (s1 := a1 + b1 + c0) in E1.
    set (c1 := if (0 <=? s1) && (s1 <? M) then 0 else 1) in E1.
    assert (Hc1 : 0 <= c1 <= 1 /\ s1 mod M + M * c1 = s1).
    { unfold c1. destruct (Z_lt_ge_dec s1 M) as [H | H].
      - replace (0 <=? s1) with true
          by (symmetry; apply Z.leb_le; unfold s1; lia).
        replace (s1 <? M) with true by (symmetry; apply Z.ltb_lt; lia).
        simpl. rewrite Z.mod_small by (unfold s1 in *; lia). lia.
      - replace (s1 <? M) with false by (symmetry; apply Z.ltb_ge; lia).
        rewrite andb_false_r.
        rewrite mod_above by (unfold s1 in *; lia). lia. }
    exists (s0 mod M), c0, (s1 mod M), c1.
    split; [exact E0 |]. split; [exact E1 |].
    pose proof (Z.mod_pos_bound s0 M ltac:(lia)).
    pose proof (Z.mod_pos_bound s1 M ltac:(lia)).
    repeat split; try lia; unfold s0, s1 in *; nia.
  - pose proof (carry_step d CFN_USUBC prec mode itype itype itype a0 b0 0
                  ltac:(simpl; auto) Hp Ha0 Hb0 ltac:(fold M; lia)) as E0.
    cbv zeta in E0. fold M itype in E0.
    set (s0 := a0 - b0 - 0) in E0.
    set (c0 := if (0 <=? s0) && (s0 <? M) then 0 else 1) in E0.
    assert (Hc0 : 0 <= c0 <= 1 /\ s0 mod M - M * c0 = s0).
    { unfold c0. destruct (Z_lt_ge_dec s0 0) as [H | H].
      - replace (0 <=? s0) with false by (symmetry; apply Z.leb_gt; lia).
        simpl. rewrite mod_below by (unfold s0 in *; lia). lia.
      - replace (0 <=? s0) with true by (symmetry; apply Z.leb_le; lia).
        replace (s0 <? M) with true
          by (symmetry; apply Z.ltb_lt; unfold s0; lia).
        simpl. rewrite Z.mod_small by (unfold s0 in *; lia). lia. }
    pose proof (carry_step d CFN_USUBC prec mode itype itype itype a1 b1 c0
                  ltac:(simpl; auto) Hp Ha1 Hb1 ltac:(fold M; lia)) as E1.
    cbv zeta in E1. fold M itype in E1.
    set (s1 := a1 - b1 - c0) in E1.
    set (c1 := if (0 <=? s1) && (s1 <? M) then 0 else 1) in E1.
    assert (Hc1 : 0 <= c1 <= 1 /\ s1 mod M - M * c1 = s1).
    { unfold c1. destruct (Z_lt_ge_dec s1 0) as [H | H].
      - replace (0 <=? s1) with false by (symmetry; apply Z.leb_gt; lia).
        simpl. rewrite mod_below by (unfold s1 in *; lia). lia.
      - replace (0 <=? s1) with true by (symmetry; apply Z.leb_le; lia).
        replace (s1 <? M) with true
          by (symmetry; apply Z.ltb_lt; unfold s1; lia).
        simpl. rewrite Z.mod_small by (unfold s1 in *; lia). lia. }
    exists (s0 mod M), c0, (s1 mod M), c1.
    split; [exact E0 |]. split; [exact E1 |].
    pose proof (Z.mod_pos_bound s0 M ltac:(lia)).
    pose proof (Z.mod_pos_bound s1 M ltac:(lia)).
    repeat split; try lia; unfold s0, s1 in *; nia.
Qed.

(** X17.  The checked additions and multiplications do not depend on the
    order of their operands, whatever the operands are, and no checked
    operation folds an operand that is not an integer constant or that
    has overflowed. *)
Theorem checked_arithmetic_operands :
  forall (d : combined_fn -> tree_type -> tree -> tree -> option tree)
         (fn : combined_fn) (type : tree_type) (arg0 arg1 : tree),
    (In fn [CFN_UBSAN_CHECK_ADD; CFN_ADD_OVERFLOW; CFN_UBSAN_CHECK_MUL;
            CFN_MUL_OVERFLOW] ->
     fold_const_call_args2 d fn type arg0 arg1
     = fold_const_call_args2 d fn type arg1 arg0)
    /\ (In fn [CFN_UBSAN_CHECK_ADD; CFN_ADD_OVERFLOW; CFN_UBSAN_CHECK_SUB;
               CFN_SUB_OVERFLOW; CFN_UBSAN_CHECK_MUL; CFN_MUL_OVERFLOW] ->
        integer_cst_p arg0 = false \/ integer_cst_p arg1 = false ->
        fold_const_call_args2 d fn type arg0 arg1 = None).
Proof.
  intros d fn type arg0 arg1. split.
  - intros Hfn.
    assert (Hop : exists op, checked_op fn = Some op
                             /\ forall x y, op x y = op y x).
    { simpl in Hfn.
      destruct Hfn as [<- | [<- | [<- | [<- | []]]]]; simpl;
        eexists; (split; [reflexivity |]); intros; lia. }
    destruct Hop as [op [Hop Hcomm]].
    destruct (integer_cst_p arg0) eqn:H0;
      [destruct (integer_cst_p arg1) eqn:H1 |].
    + destruct arg0 as [t0 v0 o0 | | | |]; try discriminate.
      destruct arg1 as [t1 v1 o1 | | | |]; try discriminate.
      destruct o0; [discriminate |]. destruct o1; [discriminate |].
      rewrite (arith_overflow_shape d fn op type t0 t1 v0 v1 Hop).
      rewrite (arith_overflow_shape d fn op type t1 t0 v1 v0 Hop).
      cbv zeta. now rewrite (Hcomm v0 v1).
    + simpl in Hfn.
      destruct Hfn as [<- | [<- | [<- | [<- | []]]]];
        unfold fold_const_call_args2; rewrite H0, H1; reflexivity.
    + simpl in Hfn.
      destruct Hfn as [<- | [<- | [<- | [<- | []]]]];
        unfold fold_const_call_args2; rewrite H0;
        destruct (integer_cst_p arg1); reflexivity.
  - intros Hfn H. simpl in Hfn.
    assert (E : integer_cst_p arg0 && integer_cst_p arg1 = false).
    { destruct H as [-> | ->]; [reflexivity | apply andb_false_r]. }
    destruct Hfn as [<- | [<- | [<- | [<- | [<- | [<- | []]]]]]];
      unfold fold_const_call_args2; rewrite E; reflexivity.
Qed.

(** ** String functions *)

Lemma build_cmp_result_sgn (type : tree_type) (res : Z) :
  build_cmp_result type res = build_int_cst type (Z.sgn res).
Proof.
  unfold build_cmp_result.
  destruct (res <? 0) eqn:Hn.
  - apply Z.ltb_lt in Hn. now rewrite (Z.sgn_neg res Hn).
  - apply Z.ltb_ge in Hn. destruct (0 <? res) eqn:Hp.
    + apply Z.ltb_lt in Hp. now rewrite (Z.sgn_pos res Hp).
    + apply Z.ltb_ge in Hp. replace res with 0 by lia. reflexivity.
Qed.

Lemma until_nul_nonzero (bytes s : list Z) :
  until_nul bytes = Some s -> ~ In 0 s.
Proof.
  revert s. induction bytes as [| c rest IH]; intros s H; simpl in H.
  - discriminate.
  - destruct (c =? 0) eqn:Hc.
    + inversion H. intros [].
    + destruct (until_nul rest) as [s' |]; [| discriminate].
      inversion H. subst s. apply Z.eqb_neq in Hc.
      intros [E | E]; [contradiction | exact (IH s' eq_refl E)].
Qed.

Lemma c_getstr_nonzero (t : tree) (s : list Z) :
  c_getstr t = Some s -> ~ In 0 s.
Proof.
  unfold c_getstr. destruct (getbyterep t) as [bytes |]; [| discriminate].
  apply until_nul_nonzero.
Qed.

Lemma strcmp_antisym (p0 p1 : list Z) : strcmp p1 p0 = - strcmp p0 p1.
Proof.
  revert p1. induction p0 as [| c0 t0 IH]; intros [| c1 t1]; simpl;
    try lia.
  rewrite (Z.eqb_sym c1 c0). destruct (c0 =? c1); [apply IH | lia].
Qed.

Lemma strcmp_refl (p : list Z) : strcmp p p = 0.
Proof. induction p as [| c t IH]; simpl; [| rewrite Z.eqb_refl]; auto. Qed.

Lemma strcmp_eq (p0 p1 : list Z) :
  ~ In 0 p0 -> ~ In 0 p1 -> strcmp p0 p1 = 0 -> p0 = p1.
Proof.
  revert p1. induction p0 as [| c0 t0 IH]; intros [| c1 t1] H0 H1 H;
    simpl in *.
  - reflexivity.
  - exfalso. apply H1. left. lia.
  - exfalso. apply H0. left. lia.
  - destruct (c0 =? c1) eqn:Hc.
    + apply Z.eqb_eq in Hc. subst c1. f_equal.
      apply IH; [tauto | tauto | exact H].
    + apply Z.eqb_neq in Hc. lia.
Qed.

(** A search in a string is a search in its characters followed by the
    terminator. *)
Lemma strchr_spec (p : list Z) (c : Z) :
  match strchr p c with
  | Some r =>
      0 <= r
      /\ nth_error (p ++ [0]) (Z.to_nat r) = Some c
      /\ ~ In c (firstn (Z.to_nat r) (p ++ [0]))
  | None => ~ In c (p ++ [0])
  end.
Proof.
  induction p as [| x rest IH]; simpl.
  - destruct (c =? 0) eqn:Hc.
    + apply Z.eqb_eq in Hc. subst c. simpl. repeat split; auto; lia.
    + apply Z.eqb_neq in Hc. intros [E | []]. congruence.
  - destruct (x =? c) eqn:Hx.
    + apply Z.eqb_eq in Hx. subst x. simpl. repeat split; auto; lia.
    + apply Z.eqb_neq in Hx.
      destruct (strchr rest c) as [r |].
      * destruct IH as [Hr [Hn Hf]].
        replace (Z.to_nat (r + 1)) with (S (Z.to_nat r)) by lia. simpl.
        split; [lia |]. split; [exact Hn |].
        intros [E | E]; [contradiction | exact (Hf E)].
      * intros [E | E]; [contradiction | exact (IH E)].
Qed.

Lemma strrchr_spec (p : list Z) (c : Z) :
  match strrchr p c with
  | Some r =>
      0 <= r
      /\ nth_error (p ++ [0]) (Z.to_nat r) = Some c
      /\ ~ In c (skipn (S (Z.to_nat r)) (p ++ [0]))
  | None => ~ In c (p ++ [0])
  end.
Proof.
  induction p as [| x rest IH]; simpl.
  - destruct (c =? 0) eqn:Hc.
    + apply Z.eqb_eq in Hc. subst c. simpl. repeat split; auto; lia.
    + apply Z.eqb_neq in Hc. intros [E | []]. congruence.
  - destruct (strrchr rest c) as [r |].
    + destruct IH as [Hr [Hn Hf]].
      replace (Z.to_nat (r + 1)) with (S (Z.to_nat r)) by lia.
      split; [lia |]. split; [exact Hn | exact Hf].
    + destruct (x =? c) eqn:Hx.
      * apply Z.eqb_eq in Hx. subst x. simpl.
        split; [lia |]. split; [reflexivity | exact IH].
      * apply Z.eqb_neq in Hx.
        intros [E | E]; [contradiction | exact (IH E)].
Qed.

Lemma strchr_terminator (p : list Z) :
  ~ In 0 p ->
  strchr p 0 = Some (strlen p) /\ strrchr p 0 = Some (strlen p).
Proof.
  unfold strlen. induction p as [| x rest IH]; intros Hnz.
  - split; reflexivity.
  - assert (Hx : (x =? 0) = false)
      by (apply Z.eqb_neq; intros ->; apply Hnz; now left).
    destruct IH as [IH1 IH2]; [intros E; apply Hnz; now right |].
    simpl strchr. simpl strrchr. rewrite Hx, IH1, IH2.
    split; f_equal; simpl length; lia.
Qed.

Lemma strstr_spec (needle p : list Z) :
  match strstr p needle with
  | Some r =>
      0 <= r <= Z.of_nat (length p)
      /\ is_prefix needle (skipn (Z.to_nat r) p) = true
      /\ forall i, (i < Z.to_nat r)%nat ->
                   is_prefix needle (skipn i p) = false
  | None => forall i, is_prefix needle (skipn i p) = false
  end.
Proof.
  induction p as [| x rest IH].
  - simpl. destruct (is_prefix needle []) eqn:E.
    + simpl. repeat split; try lia. exact E.
    + intros i. now rewrite skipn_nil.
  - cbn [strstr]. destruct (is_prefix needle (x :: rest)) eqn:E.
    + simpl. split; [lia |]. split; [exact E |]. intros i Hi. lia.
    + destruct (strstr rest needle) as [r |].
      * destruct IH as [Hr [Hp Hmin]].
        replace (Z.to_nat (r + 1)) with (S (Z.to_nat r)) by lia.
        split; [simpl length; lia |]. split; [exact Hp |].
        intros [| i] Hi; [exact E | simpl; apply Hmin; lia].
      * intros [| i]; [exact E | simpl; apply IH].
Qed.

Lemma memchr_spec (p : list Z) (c n : Z) :
  match memchr p c n with
  | Some r =>
      0 <= r < n
      /\ nth_error p (Z.to_nat r) = Some c
      /\ ~ In c (firstn (Z.to_nat r) p)
  | None => ~ In c (firstn (Z.to_nat n) p)
  end.
Proof.
  revert n. induction p as [| x rest IH]; intros n.
  - simpl. destruct (n <=? 0); rewrite ?firstn_nil; auto.
  - cbn [memchr]. destruct (n <=? 0) eqn:Hn.
    + apply Z.leb_le in Hn. replace (Z.to_nat n) with O by lia. auto.
    + apply Z.leb_gt in Hn. destruct (x =? c) eqn:Hx.
      * apply Z.eqb_eq in Hx. subst x. simpl. repeat split; auto; lia.
      * apply Z.eqb_neq in Hx. specialize (IH (n - 1)).
        destruct (memchr rest c (n - 1)) as [r |].
        -- destruct IH as [Hr [Hnth Hf]].
           replace (Z.to_nat (r + 1)) with (S (Z.to_nat r)) by lia. simpl.
           split; [lia |]. split; [exact Hnth |].
           intros [E | E]; [contradiction | exact (Hf E)].
        -- replace (Z.to_nat n) with (S (Z.to_nat (n - 1))) by lia. simpl.
           intros [E | E]; [contradiction | exact (IH E)].
Qed.

Lemma memcmp_zero (p0 p1 : list Z) (n : Z) :
  n <= Z.of_nat (length p0) -> n <= Z.of_nat (length p1) ->
  (memcmp p0 p1 n = 0
   <-> firstn (Z.to_nat n) p0 = firstn (Z.to_nat n) p1).
Proof.
  revert p1 n. induction p0 as [| c0 t0 IH]; intros p1 n H0 H1.
  - simpl in H0. replace (Z.to_nat n) with O by lia. simpl.
    destruct (n <=? 0); destruct p1; tauto.
  - cbn [memcmp]. destruct (n <=? 0) eqn:Hn.
    + apply Z.leb_le in Hn. replace (Z.to_nat n) with O by lia.
      simpl. tauto.
    + apply Z.leb_gt in Hn. destruct p1 as [| c1 t1]; [simpl in H1; lia |].
      replace (Z.to_nat n) with (S (Z.to_nat (n - 1))) by lia.
      simpl firstn. simpl length in H0, H1.
      destruct (c0 =? c1) eqn:Hc.
      * apply Z.eqb_eq in Hc. subst c1.
        rewrite (IH t1 (n - 1)) by lia.
        split; [intros ->; reflexivity | intros E; now inversion E].
      * apply Z.eqb_neq in Hc.
        split; [lia | intros E; inversion E; contradiction].
Qed.

Lemma memcmp_antisym (p0 p1 : list Z) (n : Z) :
  memcmp p1 p0 n = - memcmp p0 p1 n.
Proof.
  revert p1 n. induction p0 as [| c0 t0 IH]; intros [| c1 t1] n;
    cbn [memcmp]; destruct (n <=? 0); try reflexivity.
  rewrite (Z.eqb_sym c1 c0). destruct (c0 =? c1); [apply IH | lia].
Qed.

Lemma sgn_range (z : Z) : -1 <= Z.sgn z <= 1.
Proof. destruct z; simpl; lia. Qed.

Lemma fold_convert_pointer_plus_0 {TG : Target} (type : tree_type)
    (arg : tree) :
  getbyterep arg <> None ->
  fold_convert type (fold_build_pointer_plus_hwi arg 0)
  = fold_convert type arg.
Proof.
  destruct arg; simpl; intros H; try congruence.
  now rewrite Z.add_0_r.
Qed.

Lemma sgn_sub_compare (c0 c1 : Z) :
  Z.sgn (c0 - c1) = comparison_sign (c0 ?= c1).
Proof.
  destruct (c0 ?= c1) eqn:E; simpl.
  - apply Z.compare_eq in E. subst. now rewrite Z.sub_diag.
  - rewrite Z.compare_lt_iff in E. apply Z.sgn_neg. lia.
  - rewrite Z.compare_gt_iff in E. apply Z.sgn_pos. lia.
Qed.

(** The sign of the host's [strcmp] on strings of [unsigned char] is
    the lexicographic order. *)
Lemma strcmp_sgn_lex (p0 p1 : list Z) :
  ~ In 0 p0 -> ~ In 0 p1 -> unsigned_chars p0 -> unsigned_chars p1 ->
  Z.sgn (strcmp p0 p1) = comparison_sign (lex_compare p0 p1).
Proof.
  unfold unsigned_chars.
  revert p1. induction p0 as [| c0 t0 IH]; intros [| c1 t1] H0 H1 U0 U1;
    simpl.
  - reflexivity.
  - inversion U1 as [| ? ? Hc1 _]; subst.
    assert (c1 <> 0) by (intros ->; apply H1; now left).
    apply Z.sgn_neg. lia.
  - inversion U0 as [| ? ? Hc0 _]; subst.
    assert (c0 <> 0) by (intros ->; apply H0; now left).
    apply Z.sgn_pos. lia.
  - inversion U0 as [| ? ? Hc0 U0']; subst.
    inversion U1 as [| ? ? Hc1 U1']; subst.
    destruct (c0 =? c1) eqn:E.
    + apply Z.eqb_eq in E. subst c1. rewrite Z.compare_refl.
      apply IH; try assumption.
      * intros Hin. apply H0. now right.
      * intros Hin. apply H1. now right.
    + apply Z.eqb_neq in E. rewrite sgn_sub_compare.
      destruct (c0 ?= c1) eqn:Ec; try reflexivity.
      apply Z.compare_eq in Ec. contradiction.
Qed.

(** The sign of the host's [memcmp] is the lexicographic order of the
    first [n] bytes. *)
Lemma memcmp_sgn_lex (p0 p1 : list Z) (n : Z) :
  n <= Z.of_nat (length p0) -> n <= Z.of_nat (length p1) ->
  Z.sgn (memcmp p0 p1 n)
  = comparison_sign
      (lex_compare (firstn (Z.to_nat n) p0) (firstn (Z.to_nat n) p1)).
Proof.
  revert p1 n. induction p0 as [| c0 t0 IH]; intros p1 n H0 H1.
  - simpl in H0. replace (Z.to_nat n) with O by lia. simpl.
    destruct (n <=? 0); destruct p1; reflexivity.
  - cbn [memcmp]. destruct (n <=? 0) eqn:Hn.
    + apply Z.leb_le in Hn. replace (Z.to_nat n) with O by lia.
      reflexivity.
    + apply Z.leb_gt in Hn. destruct p1 as [| c1 t1]; [simpl in H1; lia |].
      replace (Z.to_nat n) with (S (Z.to_nat (n - 1))) by lia.
      simpl firstn. simpl length in H0, H1. simpl lex_compare.
      destruct (c0 =? c1) eqn:E.
      * apply Z.eqb_eq in E. subst c1. rewrite Z.compare_refl.
        apply IH; lia.
      * apply Z.eqb_neq in E. rewrite sgn_sub_compare.
        destruct (c0 ?= c1) eqn:Ec; try reflexivity.
        apply Z.compare_eq in Ec. contradiction.
Qed.

(** X18.  [strcmp] of two literals folds to the sign of the host's
    comparison, whatever its magnitude: to -1 when the first string
    comes first in the lexicographic order of [unsigned char] strings,
    to 0 when the two strings are equal and to 1 when it comes last.
    Swapping the operands negates the result. *)
Theorem strcmp_folds_to_the_sign :
  forall (TG : Target)
         (d : combined_fn_ext -> tree_type -> tree -> tree -> option tree)
         (type : tree_type) (arg0 arg1 t : tree),
    fold_const_call_args2_str d CFN_BUILT_IN_STRCMP type arg0 arg1 = Some t ->
    exists r,
      -1 <= r <= 1
      /\ t = build_int_cst type r
      /\ fold_const_call_args2_str d CFN_BUILT_IN_STRCMP type arg1 arg0
         = Some (build_int_cst type (- r))
      /\ (r = 0 <-> c_getstr arg0 = c_getstr arg1)
      /\ exists p0 p1,
           c_getstr arg0 = Some p0
           /\ c_getstr arg1 = Some p1
           /\ r = Z.sgn (strcmp p0 p1)
           /\ (unsigned_chars p0 -> unsigned_chars p1 ->
               r = comparison_sign (lex_compare p0 p1)).
Proof.
  intros TG d type arg0 arg1 t H. unfold fold_const_call_args2_str in *.
  destruct (c_getstr arg0) as [p0 |] eqn:H0; [| discriminate].
  destruct (c_getstr arg1) as [p1 |] eqn:H1; [| discriminate].
  inversion H as [Ht]. exists (Z.sgn (strcmp p0 p1)).
  split; [apply sgn_range |].
  split; [apply build_cmp_result_sgn |].
  split; [| split].
  - rewrite build_cmp_result_sgn, strcmp_antisym, Z.sgn_opp. reflexivity.
  - rewrite Z.sgn_null_iff. split.
    + intros E. f_equal.
      apply strcmp_eq;
        [exact (c_getstr_nonzero _ _ H0) | exact (c_getstr_nonzero _ _ H1)
        | exact E].
    + intros E. inversion E. apply strcmp_refl.
  - exists p0, p1. split; [reflexivity |]. split; [reflexivity |].
    split; [reflexivity |]. intros U0 U1.
    apply strcmp_sgn_lex;
      [exact (c_getstr_nonzero _ _ H0) | exact (c_getstr_nonzero _ _ H1)
      | exact U0 | exact U1].
Qed.

(** X19.  The case-insensitive comparisons fold to 0 or not at all:
    [strcasecmp] only when the two literals are equal strings,
    [strncasecmp] only when the bound is 0 or the case-sensitive
    comparison up to the bound finds no difference. *)
Theorem case_insensitive_comparisons_fold_only_to_zero :
  forall (TG : Target)
         (d2 : combined_fn_ext -> tree_type -> tree -> tree -> option tree)
         (d3 : combined_fn -> tree_type -> tree -> tree -> tree ->
               option tree)
         (type : tree_type) (arg0 arg1 arg2 : tree),
    (forall t,
        fold_const_call_args2_str d2 CFN_BUILT_IN_STRCASECMP type arg0 arg1
        = Some t ->
        t = build_int_cst type 0
        /\ c_getstr arg0 = c_getstr arg1
        /\ fold_const_call_args2_str d2 CFN_BUILT_IN_STRCMP type arg0 arg1
           = Some t)
    /\ (forall t,
          fold_const_call_args3 d3 CFN_BUILT_IN_STRNCASECMP type arg0 arg1
            arg2 = Some t ->
          t = build_int_cst type 0
          /\ (size_t_cst_p arg2 = Some 0
              \/ fold_const_call_args3 d3 CFN_BUILT_IN_STRNCMP type arg0 arg1
                   arg2 = Some t)).
Proof.
  intros TG d2 d3 type arg0 arg1 arg2. split; intros t H.
  - unfold fold_const_call_args2_str in *.
    destruct (c_getstr arg0) as [p0 |] eqn:H0; [| discriminate].
    destruct (c_getstr arg1) as [p1 |] eqn:H1; [| discriminate].
    cbv zeta in H.
    destruct (strcmp p0 p1 =? 0) eqn:E; [| discriminate].
    apply Z.eqb_eq in E. rewrite E in *. inversion H as [Ht].
    split; [reflexivity |]. split; [| reflexivity].
    f_equal.
    apply strcmp_eq;
      [exact (c_getstr_nonzero _ _ H0) | exact (c_getstr_nonzero _ _ H1)
      | exact E].
  - unfold fold_const_call_args3 in *.
    destruct (size_t_cst_p arg2) as [s2 |]; [| discriminate].
    destruct ((s2 =? 0) && negb (TREE_SIDE_EFFECTS arg0)
              && negb (TREE_SIDE_EFFECTS arg1)) eqn:Hz.
    + inversion H. split; [reflexivity |]. left.
      apply andb_prop in Hz. destruct Hz as [Hz _].
      apply andb_prop in Hz. destruct Hz as [Hz _].
      apply Z.eqb_eq in Hz. now subst.
    + destruct (c_getstr arg0) as [p0 |]; [| discriminate].
      destruct (c_getstr arg1) as [p1 |]; [| discriminate].
      destruct (strncmp p0 p1 (Z.min s2 SIZE_MAX) =? 0) eqn:E;
        [| discriminate].
      apply Z.eqb_eq in E. rewrite E. inversion H. auto.
Qed.

Lemma size_t_cst_p_nonneg {TG : Target} (t : tree) (n : Z) :
  size_t_cst_p t = Some n -> 0 <= n.
Proof.
  unfold size_t_cst_p.
  destruct (types_compatible_p size_type_node (TREE_TYPE t)); simpl;
    [| discriminate].
  destruct (integer_cst_p t); simpl; [| discriminate].
  destruct t; simpl; try discriminate.
  destruct (0 <=? value) eqn:E; simpl; [| discriminate].
  destruct (value <=? SIZE_MAX); simpl; [| discriminate].
  intros H. inversion H. subst. now apply Z.leb_le.
Qed.

(** X20.  [memcmp] and [bcmp] of two literals are folded only when the
    bound lies within both literals.  The result is then the sign of the
    host's comparison: -1 when the first [n] bytes of the first literal
    come first in the lexicographic order, 0 when the first [n] bytes
    agree and 1 otherwise; swapping the operands negates it. *)
Theorem memcmp_compares_within_the_literals :
  forall (TG : Target)
         (d : combined_fn -> tree_type -> tree -> tree -> tree -> option tree)
         (fn : combined_fn) (type : tree_type) (arg0 arg1 arg2 : tree)
         (n : Z) (p0 p1 : list Z),
    In fn [CFN_BUILT_IN_BCMP; CFN_BUILT_IN_MEMCMP] ->
    size_t_cst_p arg2 = Some n ->
    getbyterep arg0 = Some p0 ->
    getbyterep arg1 = Some p1 ->
    (n <= Z.of_nat (length p0) /\ n <= Z.of_nat (length p1) ->
     exists r,
       -1 <= r <= 1
       /\ fold_const_call_args3 d fn type arg0 arg1 arg2
          = Some (build_int_cst type r)
       /\ fold_const_call_args3 d fn type arg1 arg0 arg2
          = Some (build_int_cst type (- r))
       /\ (r = 0 <-> firstn (Z.to_nat n) p0 = firstn (Z.to_nat n) p1)
       /\ r = Z.sgn (memcmp p0 p1 n)
       /\ r = comparison_sign
                (lex_compare (firstn (Z.to_nat n) p0)
                             (firstn (Z.to_nat n) p1)))
    /\ (Z.of_nat (length p0) < n \/ Z.of_nat (length p1) < n ->
        fold_const_call_args3 d fn type arg0 arg1 arg2 = None).
Proof.
  intros TG d fn type arg0 arg1 arg2 n p0 p1 Hfn Hn H0 H1.
  pose proof (size_t_cst_p_nonneg _ _ Hn) as Hn0.
  assert (Hfold : forall a0 a1 q0 q1,
             getbyterep a0 = Some q0 -> getbyterep a1 = Some q1 ->
             fold_const_call_args3 d fn type a0 a1 arg2
             = if (n <=? Z.of_nat (length q0)) && (n <=? Z.of_nat (length q1))
               then Some (build_int_cst type (Z.sgn (memcmp q0 q1 n)))
               else None).
  { intros a0 a1 q0 q1 Hq0 Hq1. simpl in Hfn.
    destruct Hfn as [<- | [<- | []]]; unfold fold_const_call_args3;
      rewrite Hn, Hq0, Hq1;
      (destruct ((n =? 0) && negb (TREE_SIDE_EFFECTS a0)
                 && negb (TREE_SIDE_EFFECTS a1)) eqn:Hz;
       [ apply andb_prop in Hz; destruct Hz as [Hz _];
         apply andb_prop in Hz; destruct Hz as [Hz _];
         apply Z.eqb_eq in Hz; subst n;
         replace (0 <=? Z.of_nat (length q0)) with true
           by (symmetry; apply Z.leb_le; lia);
         replace (0 <=? Z.of_nat (length q1)) with true
           by (symmetry; apply Z.leb_le; lia);
         simpl; destruct q0, q1; reflexivity
       | now rewrite build_cmp_result_sgn ]). }
  split.
  - intros [Hl0 Hl1]. exists (Z.sgn (memcmp p0 p1 n)).
    split; [apply sgn_range |].
    rewrite (Hfold arg0 arg1 p0 p1 H0 H1), (Hfold arg1 arg0 p1 p0 H1 H0).
    replace (n <=? Z.of_nat (length p0)) with true
      by (symmetry; apply Z.leb_le; lia).
    replace (n <=? Z.of_nat (length p1)) with true
      by (symmetry; apply Z.leb_le; lia).
    simpl. split; [reflexivity |]. split; [| split; [| split]].
    + now rewrite memcmp_antisym, Z.sgn_opp.
    + rewrite Z.sgn_null_iff. now apply memcmp_zero.
    + reflexivity.
    + now apply memcmp_sgn_lex.
  - intros Hl. rewrite (Hfold arg0 arg1 p0 p1 H0 H1).
    destruct Hl as [Hl | Hl].
    + replace (n <=? Z.of_nat (length p0)) with false
        by (symmetry; apply Z.leb_gt; lia).
      reflexivity.
    + replace (n <=? Z.of_nat (length p1)) with false
        by (symmetry; apply Z.leb_gt; lia).
      now rewrite andb_false_r.
Qed.

(** X21.  [memchr] in a literal is folded only when the bound lies within the
    literal: to a null pointer when the byte is not among the first [n]
    bytes, and otherwise to the address of its first occurrence. *)
Theorem memchr_finds_the_first_byte :
  forall (TG : Target)
         (d : combined_fn -> tree_type -> tree -> tree -> tree -> option tree)
         (type : tree_type) (arg0 arg1 arg2 : tree) (n c : Z)
         (p0 : list Z),
    size_t_cst_p arg2 = Some n ->
    getbyterep arg0 = Some p0 ->
    target_char_cst_p arg1 = Some c ->
    (n <= Z.of_nat (length p0) ->
     (~ In c (firstn (Z.to_nat n) p0)
      /\ fold_const_call_args3 d CFN_BUILT_IN_MEMCHR type arg0 arg1 arg2
         = Some (build_int_cst type 0))
     \/ exists r,
          0 <= r < n
          /\ nth_error p0 (Z.to_nat r) = Some c
          /\ ~ In c (firstn (Z.to_nat r) p0)
          /\ fold_const_call_args3 d CFN_BUILT_IN_MEMCHR type arg0 arg1 arg2
             = Some (fold_convert type (fold_build_pointer_plus_hwi arg0 r)))
    /\ (Z.of_nat (length p0) < n ->
        fold_const_call_args3 d CFN_BUILT_IN_MEMCHR type arg0 arg1 arg2
        = None).
Proof.
  intros TG d type arg0 arg1 arg2 n c p0 Hn H0 Hc.
  pose proof (size_t_cst_p_nonneg _ _ Hn) as Hn0.
  unfold fold_const_call_args3. rewrite Hn, H0, Hc.
  pose proof (memchr_spec p0 c n) as Hspec.
  destruct ((n =? 0) && negb (TREE_SIDE_EFFECTS arg0)
            && negb (TREE_SIDE_EFFECTS arg1)) eqn:Hz.
  - apply andb_prop in Hz. destruct Hz as [Hz _].
    apply andb_prop in Hz. destruct Hz as [Hz _].
    apply Z.eqb_eq in Hz. subst n. split; [| lia].
    intros _. left. simpl. auto.
  - split.
    + intros Hl.
      replace (n <=? Z.of_nat (length p0)) with true
        by (symmetry; apply Z.leb_le; lia).
      destruct (memchr p0 c n) as [r |].
      * right. exists r. destruct Hspec as [Hr [Hnth Hf]]. auto.
      * left. auto.
    + intros Hl.
      replace (n <=? Z.of_nat (length p0)) with false
        by (symmetry; apply Z.leb_gt; lia).
      reflexivity.
Qed.

(** X22.  [strchr] and [index] of a literal fold to the address of the first
    occurrence of the character in the string, its terminator included,
    and [strrchr] and [rindex] to that of the last one; they fold to a
    null pointer when there is none. *)
Theorem strchr_and_strrchr_find_first_and_last :
  forall (TG : Target)
         (d : combined_fn_ext -> tree_type -> tree -> tree -> option tree)
         (fn : combined_fn_ext) (type : tree_type) (arg0 arg1 : tree)
         (p0 : list Z) (c : Z),
    c_getstr arg0 = Some p0 ->
    target_char_cst_p arg1 = Some c ->
    (In fn [CFN_BUILT_IN_INDEX; CFN_BUILT_IN_STRCHR] ->
     (~ In c (p0 ++ [0])
      /\ fold_const_call_args2_str d fn type arg0 arg1
         = Some (build_int_cst type 0))
     \/ exists r,
          0 <= r <= strlen p0
          /\ nth_error (p0 ++ [0]) (Z.to_nat r) = Some c
          /\ ~ In c (firstn (Z.to_nat r) (p0 ++ [0]))
          /\ fold_const_call_args2_str d fn type arg0 arg1
             = Some (fold_convert type (fold_build_pointer_plus_hwi arg0 r)))
    /\ (In fn [CFN_BUILT_IN_RINDEX; CFN_BUILT_IN_STRRCHR] ->
        (~ In c (p0 ++ [0])
         /\ fold_const_call_args2_str d fn type arg0 arg1
            = Some (build_int_cst type 0))
        \/ exists r,
             0 <= r <= strlen p0
             /\ nth_error (p0 ++ [0]) (Z.to_nat r) = Some c
             /\ ~ In c (skipn (S (Z.to_nat r)) (p0 ++ [0]))
             /\ fold_const_call_args2_str d fn type arg0 arg1
                = Some (fold_convert type
                          (fold_build_pointer_plus_hwi arg0 r))).
Proof.
  intros TG d fn type arg0 arg1 p0 c H0 Hc.
  assert (Hlen : forall r,
             0 <= r -> nth_error (p0 ++ [0]) (Z.to_nat r) = Some c ->
             0 <= r <= strlen p0).
  { intros r Hr Hnth. split; [exact Hr |].
    assert (Hlt : (Z.to_nat r < length (p0 ++ [0%Z]))%nat)
      by (apply nth_error_Some; congruence).
    rewrite length_app in Hlt. simpl in Hlt. unfold strlen. lia. }
  split; intros Hfn; simpl in Hfn.
  - pose proof (strchr_spec p0 c) as Hspec.
    assert (E : fold_const_call_args2_str d fn type arg0 arg1
                = match strchr p0 c with
                  | None => Some (build_int_cst type 0)
                  | Some r =>
                      Some (fold_convert type
                              (fold_build_pointer_plus_hwi arg0 r))
                  end).
    { destruct Hfn as [<- | [<- | []]]; unfold fold_const_call_args2_str;
        rewrite H0, Hc; reflexivity. }
    rewrite E. destruct (strchr p0 c) as [r |].
    + right. exists r. destruct Hspec as [Hr [Hnth Hf]]. auto.
    + left. auto.
  - pose proof (strrchr_spec p0 c) as Hspec.
    assert (E : fold_const_call_args2_str d fn type arg0 arg1
                = match strrchr p0 c with
                  | None => Some (build_int_cst type 0)
                  | Some r =>
                      Some (fold_convert type
                              (fold_build_pointer_plus_hwi arg0 r))
                  end).
    { destruct Hfn as [<- | [<- | []]]; unfold fold_const_call_args2_str;
        rewrite H0, Hc; reflexivity. }
    rewrite E. destruct (strrchr p0 c) as [r |].
    + right. exists r. destruct Hspec as [Hr [Hnth Hf]]. auto.
    + left. auto.
Qed.

(** X23.  Where [strlen] of an operand folds, to the number of characters
    before the terminator, [strchr] and [strrchr] of that operand and
    the character 0 fold to the address that many bytes further. *)
Theorem strlen_is_the_offset_of_the_terminator :
  forall (TG : Target)
         (d1 : combined_fn_ext -> tree_type -> tree -> option tree)
         (d2 : combined_fn_ext -> tree_type -> tree -> tree -> option tree)
         (type ptype : tree_type) (arg zero t : tree),
    fold_const_call_args1_str d1 CFN_BUILT_IN_STRLEN type arg = Some t ->
    target_char_cst_p zero = Some 0 ->
    exists str,
      c_getstr arg = Some str
      /\ ~ In 0 str
      /\ t = build_int_cst type (Z.of_nat (length str))
      /\ fold_const_call_args2_str d2 CFN_BUILT_IN_STRCHR ptype arg zero
         = Some (fold_convert ptype
                   (fold_build_pointer_plus_hwi arg
                      (Z.of_nat (length str))))
      /\ fold_const_call_args2_str d2 CFN_BUILT_IN_STRRCHR ptype arg zero
         = Some (fold_convert ptype
                   (fold_build_pointer_plus_hwi arg
                      (Z.of_nat (length str)))).
Proof.
  intros TG d1 d2 type ptype arg zero t H Hz.
  unfold fold_const_call_args1_str in H.
  destruct (c_getstr arg) as [str |] eqn:Hs; [| discriminate].
  pose proof (c_getstr_nonzero _ _ Hs) as Hnz.
  destruct (strchr_terminator str Hnz) as [E1 E2].
  exists str. split; [reflexivity |]. split; [exact Hnz |].
  split; [now inversion H |].
  unfold fold_const_call_args2_str. rewrite Hs, Hz, E1, E2.
  split; reflexivity.
Qed.

(** X24.  [strstr] with an empty needle folds to its first operand, converted
    to the result type, whether or not that operand is a literal.  In a
    literal it folds to the address of the first occurrence of the
    needle, or to a null pointer when there is none; with any other
    first operand and a non-empty needle it does not fold. *)
Theorem strstr_finds_the_first_occurrence :
  forall (TG : Target)
         (d : combined_fn_ext -> tree_type -> tree -> tree -> option tree)
         (type : tree_type) (arg0 arg1 : tree) (needle : list Z),
    c_getstr arg1 = Some needle ->
    (needle = [] ->
     fold_const_call_args2_str d CFN_BUILT_IN_STRSTR type arg0 arg1
     = Some (fold_convert type arg0))
    /\ (forall p0,
          c_getstr arg0 = Some p0 ->
          ((forall i, is_prefix needle (skipn i p0) = false)
           /\ fold_const_call_args2_str d CFN_BUILT_IN_STRSTR type arg0 arg1
              = Some (build_int_cst type 0))
          \/ exists r,
               0 <= r <= strlen p0
               /\ is_prefix needle (skipn (Z.to_nat r) p0) = true
               /\ (forall i, (i < Z.to_nat r)%nat ->
                             is_prefix needle (skipn i p0) = false)
               /\ fold_const_call_args2_str d CFN_BUILT_IN_STRSTR type arg0
                    arg1
                  = Some (fold_convert type
                            (fold_build_pointer_plus_hwi arg0 r)))
    /\ (c_getstr arg0 = None -> needle <> [] ->
        fold_const_call_args2_str d CFN_BUILT_IN_STRSTR type arg0 arg1
        = None).
Proof.
  intros TG d type arg0 arg1 needle H1.
  unfold fold_const_call_args2_str. rewrite H1.
  split; [| split].
  - intros ->. destruct (c_getstr arg0) as [p0 |] eqn:H0; [| reflexivity].
    assert (E : strstr p0 [] = Some 0) by (destruct p0; reflexivity).
    rewrite E. f_equal. apply fold_convert_pointer_plus_0.
    unfold c_getstr in H0. destruct (getbyterep arg0); congruence.
  - intros p0 H0. rewrite H0.
    pose proof (strstr_spec needle p0) as Hspec.
    destruct (strstr p0 needle) as [r |].
    + right. exists r. destruct Hspec as [Hr [Hp Hmin]]. auto.
    + left. auto.
  - intros H0 Hne. rewrite H0. destruct needle; [contradiction | reflexivity].
Qed.

(** ** Safe iterator and sequence bases *)

Section SafeBaseFacts.

Import SafeBase.

#[local] Arguments pointer_eqb : simpl never.

Lemma pointer_eqb_eq (p q : pointer) : pointer_eqb p q = true <-> p = q.
Proof.
  destruct p as [a |], q as [b |]; simpl; split; intros H;
    try discriminate; try reflexivity.
  - apply Pos.eqb_eq in H. now subst.
  - inversion H. apply Pos.eqb_refl.
Qed.

Lemma pointer_eqb_neq (p q : pointer) : p <> q -> pointer_eqb p q = false.
Proof.
  intros H. destruct (pointer_eqb p q) eqn:E; [| reflexivity].
  apply pointer_eqb_eq in E. contradiction.
Qed.

Lemma pointer_eqb_refl (p : pointer) : pointer_eqb p p = true.
Proof. now apply pointer_eqb_eq. Qed.

(** *** The version counter *)

Lemma invalidate_all_step (s : _Safe_sequence_base.t) :
  1 <= _Safe_sequence_base._M_version s < 2 ^ 32 ->
  _Safe_sequence_base._M_version (_Safe_sequence_base._M_invalidate_all s)
  = _Safe_sequence_base._M_version s mod (2 ^ 32 - 1) + 1.
Proof.
  intros Hv. unfold _Safe_sequence_base._M_invalidate_all, uint_incr.
  change (2 ^ UINT_WIDTH) with 4294967296.
  change (2 ^ 32) with 4294967296 in *.
  change (4294967296 - 1) with 4294967295.
  destruct (Z.eq_dec (_Safe_sequence_base._M_version s) 4294967295) as [E | E].
  - rewrite E. reflexivity.
  - rewrite (Z.mod_small (_ + 1)) by lia.
    rewrite Z.mod_small by lia.
    destruct (_ + 1 =? 0) eqn:E0; [apply Z.eqb_eq in E0; lia | reflexivity].
Qed.

Lemma versions_closed_form (n : nat) (s : _Safe_sequence_base.t) :
  1 <= _Safe_sequence_base._M_version s < 2 ^ 32 ->
  _Safe_sequence_base._M_version (versions n s)
  = (_Safe_sequence_base._M_version s - 1 + Z.of_nat n) mod (2 ^ 32 - 1) + 1.
Proof.
  intros Hv. change (2 ^ 32) with 4294967296 in *.
  change (4294967296 - 1) with 4294967295.
  induction n as [| n IH].
  - simpl. rewrite Z.add_0_r, Z.mod_small by lia. lia.
  - unfold versions in *. rewrite Nat.iter_succ.
    rewrite invalidate_all_step.
    + rewrite IH. change (2 ^ 32 - 1) with 4294967295.
      rewrite Z.add_mod_idemp_l by lia.
      f_equal. f_equal. lia.
    + rewrite IH. change (2 ^ 32) with 4294967296.
      pose proof (Z.mod_pos_bound
                    (_Safe_sequence_base._M_version s - 1 + Z.of_nat n)
                    4294967295 ltac:(lia)).
      lia.
Qed.

(** X25.  The version of a sequence is never 0, however often all its
    iterators are invalidated after its construction: it never equals
    the version of an invalidated iterator, nor that of a
    default-constructed one. *)
Theorem sequence_version_is_never_the_invalid_one :
  forall (n : nat) (it : _Safe_iterator_base.t),
    1 <= _Safe_sequence_base._M_version
           (versions n _Safe_sequence_base.init) < 2 ^ UINT_WIDTH
    /\ _Safe_sequence_base._M_version (versions n _Safe_sequence_base.init)
       <> _Safe_iterator_base._M_version (_Safe_iterator_base._M_invalidate it)
    /\ _Safe_sequence_base._M_version (versions n _Safe_sequence_base.init)
       <> _Safe_iterator_base._M_version _Safe_iterator_base.init.
Proof.
  intros n it.
  assert (H : 1 <= _Safe_sequence_base._M_version
                     (versions n _Safe_sequence_base.init)
              < 2 ^ UINT_WIDTH).
  { rewrite versions_closed_form by (simpl; lia).
    change (2 ^ UINT_WIDTH) with 4294967296.
    change (2 ^ 32 - 1) with 4294967295.
    pose proof (Z.mod_pos_bound
                  (_Safe_sequence_base._M_version _Safe_sequence_base.init
                   - 1 + Z.of_nat n) 4294967295 ltac:(lia)).
    lia. }
  split; [exact H |]. simpl. lia.
Qed.

(** X26.  [_M_invalidate_all] always changes the version, and the old version
    does not come back during the next [2^32 - 2] invalidations: an
    iterator that carries it stays out of date for that long.  The
    [2^32 - 1]-th invalidation restores it. *)
Theorem invalidate_all_outdates_the_version :
  forall (s : _Safe_sequence_base.t) (n : nat),
    1 <= _Safe_sequence_base._M_version s < 2 ^ UINT_WIDTH ->
    (0 < Z.of_nat n < 2 ^ UINT_WIDTH - 1 ->
     _Safe_sequence_base._M_version (versions n s)
     <> _Safe_sequence_base._M_version s)
    /\ (Z.of_nat n = 2 ^ UINT_WIDTH - 1 ->
        _Safe_sequence_base._M_version (versions n s)
        = _Safe_sequence_base._M_version s).
Proof.
  intros s n Hv. change (2 ^ UINT_WIDTH) with 4294967296 in *.
  rewrite versions_closed_form by (change (2 ^ 32) with 4294967296; lia).
  change (2 ^ 32 - 1) with 4294967295.
  change (4294967296 - 1) with 4294967295.
  set (v := _Safe_sequence_base._M_version s) in *.
  split.
  - intros Hn.
    destruct (Z_lt_ge_dec (v - 1 + Z.of_nat n) 4294967295) as [Hlt | Hge].
    + rewrite Z.mod_small by lia. lia.
    + assert (E : (v - 1 + Z.of_nat n) mod 4294967295
                  = v - 1 + Z.of_nat n - 4294967295).
      { symmetry. apply (Z.mod_unique_pos _ _ 1); lia. }
      rewrite E. lia.
  - intros Hn. rewrite Hn.
    assert (E : (v - 1 + 4294967295) mod 4294967295 = v - 1).
    { symmetry. apply (Z.mod_unique_pos _ _ 1); lia. }
    rewrite E. lia.
Qed.

(** *** Unlinking *)

Lemma store_set_same h a it : store_set h a it a = Some it.
Proof. unfold store_set. now rewrite Pos.eqb_refl. Qed.

Lemma store_set_other h a it b : b <> a -> store_set h a it b = h b.
Proof.
  intros Hne. unfold store_set.
  destruct (Pos.eqb b a) eqn:E; [apply Pos.eqb_eq in E; contradiction |].
  reflexivity.
Qed.

Lemma write_M_next_lookup h p v a :
  write_M_next h p v a
  = match h a with
    | None => None
    | Some ita => Some (if Pos.eqb a p then set_M_next ita v else ita)
    end.
Proof.
  unfold write_M_next. destruct (h p) as [itp |] eqn:Hp.
  - destruct (Pos.eqb a p) eqn:E.
    + apply Pos.eqb_eq in E. subst a. now rewrite store_set_same, Hp.
    + rewrite store_set_other by (intros ->; rewrite Pos.eqb_refl in E;
                                  discriminate).
      now destruct (h a).
  - destruct (Pos.eqb a p) eqn:E.
    + apply Pos.eqb_eq in E. subst a. now rewrite Hp.
    + now destruct (h a).
Qed.

Lemma write_M_prior_lookup h p v a :
  write_M_prior h p v a
  = match h a with
    | None => None
    | Some ita => Some (if Pos.eqb a p then set_M_prior ita v else ita)
    end.
Proof.
  unfold write_M_prior. destruct (h p) as [itp |] eqn:Hp.
  - destruct (Pos.eqb a p) eqn:E.
    + apply Pos.eqb_eq in E. subst a. now rewrite store_set_same, Hp.
    + rewrite store_set_other by (intros ->; rewrite Pos.eqb_refl in E;
                                  discriminate).
      now destruct (h a).
  - destruct (Pos.eqb a p) eqn:E.
    + apply Pos.eqb_eq in E. subst a. now rewrite Hp.
    + now destruct (h a).
Qed.

Lemma unlink_lookup (h : store) (x : address) (it : _Safe_iterator_base.t) :
  h x = Some it ->
  forall a,
    _M_unlink h x a
    = relink (_Safe_iterator_base._M_prior it)
             (_Safe_iterator_base._M_next it) h a.
Proof.
  intros Hx a. unfold _M_unlink, relink, pointer_eqb. rewrite Hx.
  destruct it as [sq ver P N]. simpl.
  destruct P as [p |]; destruct N as [n |]; simpl.
  - rewrite write_M_next_lookup, Hx.
    destruct (Pos.eqb x p) eqn:Exp; simpl;
      rewrite write_M_prior_lookup, write_M_next_lookup;
      destruct (h a) as [[sa va pa na] |]; try reflexivity;
      destruct (Pos.eqb a p), (Pos.eqb a n); reflexivity.
  - rewrite write_M_next_lookup, Hx.
    destruct (Pos.eqb x p) eqn:Exp; simpl;
      rewrite write_M_next_lookup;
      destruct (h a) as [[sa va pa na] |]; try reflexivity;
      destruct (Pos.eqb a p); reflexivity.
  - rewrite Hx. simpl. rewrite write_M_prior_lookup.
    destruct (h a) as [[sa va pa na] |]; try reflexivity;
      destruct (Pos.eqb a n); reflexivity.
  - rewrite Hx. simpl. destruct (h a) as [[sa va pa na] |]; reflexivity.
Qed.

Lemma last_or_cases (l : list address) (prior : pointer) :
  (l = [] /\ last_or l prior = prior)
  \/ (exists b, In b l /\ last_or l prior = Some b).
Proof.
  revert prior. induction l as [| a l IH]; intros prior.
  - left. split; reflexivity.
  - right. unfold last_or. simpl. fold (last_or l (Some a)).
    destruct (IH (Some a)) as [[-> E] | [b [Hb E]]].
    + exists a. split; [now left | exact E].
    + exists b. split; [now right | exact E].
Qed.

Lemma linked_frame (h h' : store) (l : list address) :
  forall prior next,
    (forall a, In a l -> h' a = h a) ->
    linked h prior l next -> linked h' prior l next.
Proof.
  induction l as [| a l IH]; intros prior next Hagree H; simpl in *.
  - exact I.
  - destruct H as [[it [Ha [Hp Hn]]] Hrest]. split.
    + exists it. rewrite Hagree by now left. auto.
    + apply IH; [| exact Hrest]. intros b Hb. apply Hagree. now right.
Qed.

Lemma relink_untouched (P N : pointer) (h : store) (a : address) :
  Some a <> P -> Some a <> N -> relink P N h a = h a.
Proof.
  intros HP HN. unfold relink.
  destruct (h a) as [[sa va pa na] |]; [| reflexivity]. simpl.
  now rewrite (pointer_eqb_neq _ _ HP), (pointer_eqb_neq _ _ HN).
Qed.

Lemma linked_relink (h : store) (x : address) (l2 : list address)
    (next : pointer) (l1 : list address) :
  forall prior,
    NoDup (l1 ++ x :: l2) ->
    outside prior (l1 ++ x :: l2) ->
    outside next (l1 ++ x :: l2) ->
    linked h prior (l1 ++ x :: l2) next ->
    linked (relink (last_or l1 prior) (head_or l2 next) h) prior
           (l1 ++ l2) next.
Proof.
  induction l1 as [| a l1 IH]; intros prior Hnd Hprior Hnext H.
  - simpl in *. destruct H as [_ H2].
    apply NoDup_cons_iff in Hnd. destruct Hnd as [Hx Hnd2].
    destruct l2 as [| n l2]; [exact I |].
    simpl in *. destruct H2 as [[itn [Hn [Hnp Hnn]]] Hrest].
    apply NoDup_cons_iff in Hnd2. destruct Hnd2 as [Hnin Hnd3].
    assert (Hnprior : Some n <> prior).
    { intros <-. simpl in Hprior. apply Hprior. right. now left. }
    split.
    + unfold relink. rewrite Hn. eexists. split; [reflexivity |]. simpl.
      rewrite pointer_eqb_refl, (pointer_eqb_neq _ _ Hnprior). auto.
    + apply linked_frame with (h := h); [| exact Hrest].
      intros b Hb. apply relink_untouched.
      * intros <-. simpl in Hprior. apply Hprior. right. now right.
      * intros E. inversion E. subst. contradiction.
  - simpl in H. destruct H as [[ita [Ha [Hap Han]]] Hrest].
    simpl in Hnd. apply NoDup_cons_iff in Hnd. destruct Hnd as [Hain Hnd'].
    change (last_or (a :: l1) prior) with (last_or l1 (Some a)).
    simpl. split.
    + unfold relink. rewrite Ha. eexists. split; [reflexivity |]. simpl.
      assert (HaN : Some a <> head_or l2 next).
      { destruct l2 as [| n l2]; simpl.
        - intros <-. simpl in Hnext. apply Hnext. now left.
        - intros E. inversion E. subst. apply Hain.
          apply in_or_app. right. right. now left. }
      rewrite (pointer_eqb_neq _ _ HaN). split; [exact Hap |].
      destruct (last_or_cases l1 (Some a)) as [[-> E] | [b [Hb E]]].
      * rewrite E, pointer_eqb_refl. reflexivity.
      * rewrite E.
        assert (Hab : Some a <> Some b).
        { intros E'. inversion E'. subst. apply Hain.
          apply in_or_app. now left. }
        rewrite (pointer_eqb_neq _ _ Hab), Han.
        destruct l1; [contradiction | reflexivity].
    + apply IH; [exact Hnd' | exact Hain | | exact Hrest].
      destruct next as [q |]; [| exact I]. simpl in *.
      intros Hq. apply Hnext. now right.
Qed.

(** X27.  Unlinking an iterator of a doubly-linked list leaves the others
    linked in their order: if the iterators at [l1 ++ x :: l2] form a
    list segment, then after [_M_unlink] on [x] those at [l1 ++ l2] do.
    The unlinked iterator keeps all its members, and no iterator changes
    its sequence or version. *)
Theorem unlink_removes_from_list :
  forall (h : store) (l1 : list address) (x : address) (l2 : list address)
         (prior next : pointer),
    NoDup (l1 ++ x :: l2) ->
    outside prior (l1 ++ x :: l2) ->
    outside next (l1 ++ x :: l2) ->
    linked h prior (l1 ++ x :: l2) next ->
    linked (_M_unlink h x) prior (l1 ++ l2) next
    /\ _M_unlink h x x = h x
    /\ (forall a,
          option_map _Safe_iterator_base._M_version (_M_unlink h x a)
          = option_map _Safe_iterator_base._M_version (h a)
          /\ option_map _Safe_iterator_base._M_sequence (_M_unlink h x a)
             = option_map _Safe_iterator_base._M_sequence (h a)).
Proof.
  intros h l1 x l2 prior next Hnd Hprior Hnext H.
  assert (Hx : exists it,
             h x = Some it
             /\ _Safe_iterator_base._M_prior it = last_or l1 prior
             /\ _Safe_iterator_base._M_next it = head_or l2 next).
  { clear Hnd Hprior Hnext. revert prior H.
    induction l1 as [| a l1 IH]; intros prior H; simpl in H.
    - destruct H as [[it [Hx [Hp Hn]]] _]. exists it. auto.
    - destruct H as [_ H]. apply (IH (Some a) H). }
  destruct Hx as [it [Hx [HP HN]]].
  assert (HxP : Some x <> last_or l1 prior).
  { destruct (last_or_cases l1 prior) as [[-> E] | [b [Hb E]]]; rewrite E.
    - intros <-. simpl in Hprior. apply Hprior. now left.
    - intros E'. inversion E'. subst b.
      apply NoDup_remove_2 in Hnd. apply Hnd. apply in_or_app. now left. }
  assert (HxN : Some x <> head_or l2 next).
  { destruct l2 as [| n l2]; simpl.
    - intros <-. simpl in Hnext. apply Hnext. apply in_or_app. right.
      now left.
    - intros E'. inversion E'. subst n.
      apply NoDup_remove_2 in Hnd. apply Hnd. apply in_or_app. right.
      now left. }
  split; [| split].
  - apply linked_frame
      with (h := relink (last_or l1 prior) (head_or l2 next) h).
    + intros a _. rewrite (unlink_lookup h x it Hx), HP, HN. reflexivity.
    + apply (linked_relink h x l2 next l1 prior); assumption.
  - rewrite (unlink_lookup h x it Hx), HP, HN.
    now apply relink_untouched.
  - intros a. rewrite (unlink_lookup h x it Hx). unfold relink.
    destruct (h a); split; reflexivity.
Qed.

(** The iterator at 2 unlinked from the list 1, 2, 3. *)
Lemma unlink_removes_from_list_witness :
  linked (_M_unlink sample_store 2%positive) None [1%positive; 3%positive] None
  /\ _M_unlink sample_store 2%positive 2%positive = sample_store 2%positive.
Proof.
  assert (Hnd : NoDup ([1%positive] ++ 2%positive :: [3%positive])).
  { simpl. repeat constructor; simpl; intuition discriminate. }
  assert (Hl : linked sample_store None
                 ([1%positive] ++ 2%positive :: [3%positive]) None).
  { simpl. repeat split; eexists; (split; [reflexivity |]); split;
      reflexivity. }
  destruct (unlink_removes_from_list sample_store [1%positive] 2%positive
              [3%positive] None None Hnd I I Hl) as [H1 [H2 _]].
  split; [exact H1 | exact H2].
Defined.

(** Three invalidations after construction. *)
Lemma invalidate_all_outdates_the_version_witness :
  _Safe_sequence_base._M_version (versions 3 _Safe_sequence_base.init)
  <> _Safe_sequence_base._M_version _Safe_sequence_base.init.
Proof.
  assert (Hv : 1 <= _Safe_sequence_base._M_version _Safe_sequence_base.init
               < 2 ^ UINT_WIDTH) by (simpl; lia).
  apply (proj1 (invalidate_all_outdates_the_version
                  _Safe_sequence_base.init 3 Hv)).
  simpl. lia.
Defined.

End SafeBaseFacts.

(** ** The further properties at concrete inputs *)

(** [sqrt (4.0)] in the double format. *)
Lemma unary_fold_of_special_operand_witness :
  (fmt_b ieee_double_format = 2 /\ real_isfinite (real_of_Z 4) = true)
  \/ In CASE_CFN_SQRT
        [CASE_CFN_FLOOR; CASE_CFN_CEIL; CASE_CFN_TRUNC; CASE_CFN_ROUND;
         CASE_CFN_ROUNDEVEN; CASE_CFN_LOGB; CASE_CFN_SIGNIFICAND].
Proof.
  apply (unary_fold_of_special_operand Ref.real_arith Ref.mpfr_lib
           Ref.default_options CASE_CFN_SQRT (real_of_Z 4)
           ieee_double_format dconst2).
  vm_compute. reflexivity.
Defined.

(** [fmax (2.0, 5.0)] and [jn (0, 0.0)] on the second backend, and
    [powi (-Inf, 3)]. *)
Lemma binary_fold_of_special_operand_witness :
  ((fmt_b ieee_double_format = 2
    /\ real_isfinite Calc.real_2 = true /\ real_isfinite Calc.real_5 = true)
   \/ In CASE_CFN_FMAX
         [CASE_CFN_COPYSIGN; CASE_CFN_POW; CASE_CFN_NEXTAFTER;
          CFN_BUILT_IN_NEXTAFTERF16B; CASE_CFN_NEXTTOWARD])
  /\ (fmt_b ieee_double_format = 2 /\ real_isfinite Calc.real_0 = true)
  /\ In CASE_CFN_POWI
        [CASE_CFN_POWI; CASE_CFN_LDEXP; CASE_CFN_SCALBN; CASE_CFN_SCALBLN]
  /\ fold_const_call_sss_real_int (RA := Ref.real_arith) Ref.default_options
       CASE_CFN_POWI (Ref.get_inf true) (wi.shwi 3 32) ieee_double_format
     = Some (fst (real_powi (RealArith := Ref.real_arith) ieee_double_format
                    (Ref.get_inf true) (wi.to_shwi (wi.shwi 3 32)))).
Proof.
  split; [| split; [| split]].
  - apply (proj1 (binary_fold_of_special_operand Ref.real_arith Calc.mpfr_lib
                    Ref.default_options CASE_CFN_FMAX Calc.real_2 Calc.real_5
                    (wi.shwi 0 32) ieee_double_format) Calc.real_5).
    vm_compute. reflexivity.
  - apply (proj1 (proj2 (binary_fold_of_special_operand Ref.real_arith
                           Calc.mpfr_lib Ref.default_options CASE_CFN_JN
                           Calc.real_2 Calc.real_0 (wi.shwi 0 32)
                           ieee_double_format)) Calc.real_1).
    vm_compute. reflexivity.
  - apply (proj1 (proj2 (proj2 (binary_fold_of_special_operand
                                  Ref.real_arith Calc.mpfr_lib
                                  Ref.default_options CASE_CFN_POWI
                                  (Ref.get_inf true) Calc.real_0
                                  (wi.shwi 3 32) ieee_double_format)))
             (Ref.get_inf true)).
    vm_compute. reflexivity.
  - apply (proj2 (proj2 (proj2 (binary_fold_of_special_operand
                                  Ref.real_arith Calc.mpfr_lib
                                  Ref.default_options CASE_CFN_POWI
                                  (Ref.get_inf true) Calc.real_0
                                  (wi.shwi 3 32) ieee_double_format)))).
    reflexivity.
Defined.

(** [fms (2.0, 5.0, 3.0) = 7.0] on the second backend. *)
Lemma fma_family_witness :
  fmt_b ieee_double_format = 2 /\ real_isfinite Calc.real_2 = true
  /\ real_isfinite Calc.real_5 = true /\ real_isfinite Ref.real_3 = true.
Proof.
  apply (proj1 (fma_family Ref.real_arith Calc.mpfr_lib Ref.default_options
                  CFN_FMS Calc.real_2 Calc.real_5 Ref.real_3
                  ieee_double_format) Calc.real_7).
  vm_compute. reflexivity.
Defined.

(** [cexp (0.0 + 0.0i) = 1.0 + 0.0i] and [cpow (2.0, 10.0)] on the
    second backend. *)
Lemma complex_fold_of_special_operand_witness :
  (CASE_CFN_CEXP = CASE_CFN_CPROJ
   \/ (fmt_b ieee_double_format = 2 /\ real_isfinite Calc.real_0 = true
       /\ real_isfinite Calc.real_0 = true))
  /\ (real_isfinite Calc.real_2 = true /\ real_isfinite Calc.real_0 = true
      /\ real_isfinite Ref.real_10 = true
      /\ real_isfinite Calc.real_0 = true).
Proof.
  split.
  - apply (proj1 (complex_fold_of_special_operand Ref.real_arith
                    Calc.mpfr_lib Ref.default_options CASE_CFN_CEXP
                    Calc.real_0 Calc.real_0 Calc.real_0 Calc.real_0
                    ieee_double_format) (Calc.real_1, Calc.real_0)).
    vm_compute. reflexivity.
  - apply (proj2 (proj2 (proj2
             (complex_fold_of_special_operand Ref.real_arith
                Calc.mpfr_lib Ref.default_options CASE_CFN_CPOW
                Calc.real_2 Calc.real_0 Ref.real_10 Calc.real_0
                ieee_double_format))) (Ref.real_1024, Calc.real_0)).
    vm_compute. reflexivity.
Defined.

(** [pow (-Inf, 3.0)] is folded by the fallback to [-Inf], and so is
    [powi (-Inf, 3)]. *)
Lemma pow_fallback_agrees_with_powi_witness :
  fold_const_call_sss_real_int (RA := Ref.real_arith) Ref.default_options
    CASE_CFN_POWI (Ref.get_inf true) (wi.shwi 3 32) ieee_double_format
  = Some (Ref.get_inf true).
Proof.
  apply (pow_fallback_agrees_with_powi Ref.real_arith Ref.mpfr_lib
           Ref.default_options (Ref.get_inf true) Ref.real_3 (wi.shwi 3 32)
           ieee_double_format (Ref.get_inf true));
    vm_compute; reflexivity.
Defined.

(** [ldexp (1.0, 10) = 1024.0]. *)
Lemma load_exponent_folds_are_exact_witness :
  real_isfinite (real_of_Z 1024) = true.
Proof.
  assert (Hfn : In CASE_CFN_LDEXP
                  [CASE_CFN_LDEXP; CASE_CFN_SCALBN; CASE_CFN_SCALBLN])
    by (simpl; auto).
  assert (H : fold_const_call_sss_real_int (RA := Ref.real_arith)
                Ref.default_options CASE_CFN_LDEXP dconst1 (wi.shwi 10 32)
                ieee_double_format = Some (real_of_Z 1024))
    by (vm_compute; reflexivity).
  exact (proj1 (proj2 (proj2 (proj2
           (load_exponent_folds_are_exact Ref.real_arith Ref.default_options
              CASE_CFN_LDEXP dconst1 (wi.shwi 10 32) ieee_double_format
              (real_of_Z 1024) Hfn H))))).
Defined.

(** [significand (10.0) = 1.25], whose [logb] is 0. *)
Lemma significand_is_idempotent_witness :
  fold_const_call_ss_real (RA := Ref.real_arith) (ML := Ref.mpfr_lib)
    Ref.default_options CASE_CFN_SIGNIFICAND (SET_REAL_EXP Ref.real_10 1)
    ieee_double_format
  = Some (SET_REAL_EXP Ref.real_10 1)
  /\ fold_const_call_ss_real (RA := Ref.real_arith) (ML := Ref.mpfr_lib)
       Ref.default_options CASE_CFN_LOGB (SET_REAL_EXP Ref.real_10 1)
       ieee_double_format
     = Some (real_from_integer (RealArith := Ref.real_arith)
               (Some ieee_double_format) 0 SIGNED).
Proof.
  assert (H : fold_const_call_ss_real (RA := Ref.real_arith)
                (ML := Ref.mpfr_lib) Ref.default_options
                CASE_CFN_SIGNIFICAND Ref.real_10 ieee_double_format
              = Some (SET_REAL_EXP Ref.real_10 1))
    by (vm_compute; reflexivity).
  destruct (significand_is_idempotent Ref.real_arith Ref.mpfr_lib
              Ref.default_options Ref.real_10 ieee_double_format
              (SET_REAL_EXP Ref.real_10 1) H) as [H1 [_ [_ H2]]].
  split; [exact H1 | apply H2; reflexivity].
Defined.

(** The classification of minus infinity. *)
Lemma classification_partitions_the_constants_witness :
  exists f i n s : Z,
    fold_const_call_ss_int_real (RA := Ref.real_arith) Calc.to_integer_wide
      CFN_BUILT_IN_ISFINITE (Ref.get_inf true) 32 ieee_double_format
    = Some (wi.shwi f 32)
    /\ fold_const_call_ss_int_real (RA := Ref.real_arith)
         Calc.to_integer_wide CASE_CFN_ISINF (Ref.get_inf true) 32
         ieee_double_format = Some (wi.shwi i 32)
    /\ fold_const_call_ss_int_real (RA := Ref.real_arith)
         Calc.to_integer_wide CASE_CFN_ISNAN (Ref.get_inf true) 32
         ieee_double_format = Some (wi.shwi n 32)
    /\ fold_const_call_ss_int_real (RA := Ref.real_arith)
         Calc.to_integer_wide CFN_BUILT_IN_ISSIGNALING (Ref.get_inf true) 32
         ieee_double_format = Some (wi.shwi s 32)
    /\ f + Z.abs i + n = 1
    /\ 0 <= f /\ 0 <= n /\ 0 <= s <= n
    /\ (i = 1 \/ i = -1 <-> rv_cl (Ref.get_inf true) = rvc_inf)
    /\ (i = -1 -> rv_sign (Ref.get_inf true) = true)
    /\ (f = 1 <-> rv_cl (Ref.get_inf true) = rvc_zero
                  \/ rv_cl (Ref.get_inf true) = rvc_normal)
    /\ (n = 1 <-> rv_cl (Ref.get_inf true) = rvc_nan)
    /\ (i = 1 <-> rv_cl (Ref.get_inf true) = rvc_inf
                  /\ rv_sign (Ref.get_inf true) = false)
    /\ (i = -1 <-> rv_cl (Ref.get_inf true) = rvc_inf
                   /\ rv_sign (Ref.get_inf true) = true)
    /\ (s = 1 <-> rv_cl (Ref.get_inf true) = rvc_nan
                  /\ rv_signalling (Ref.get_inf true) = true).
Proof.
  apply (classification_partitions_the_constants Ref.real_arith
           Calc.to_integer_wide CFN_BUILT_IN_ISFINITE CASE_CFN_ISINF
           CASE_CFN_ISNAN (Ref.get_inf true) 32 ieee_double_format);
    simpl; auto 10.
Defined.

(** [ilogb (10.0) = 3] and [logb (10.0) = 3.0]. *)
Lemma ilogb_agrees_with_logb_witness :
  exists e : Z,
    wi.shwi 3 32 = wi.shwi e 32
    /\ fold_const_call_ss_real (RA := Ref.real_arith) (ML := Ref.mpfr_lib)
         Ref.default_options CASE_CFN_LOGB Ref.real_10 ieee_double_format
       = Some (real_from_integer (RealArith := Ref.real_arith)
                 (Some ieee_double_format) e SIGNED)
    /\ real_isfinite Ref.real_10 = true
    /\ fmt_b ieee_double_format = 2.
Proof.
  apply (ilogb_agrees_with_logb Ref.real_arith Ref.mpfr_lib
           Ref.default_options Calc.to_integer_wide Ref.real_10 32
           ieee_double_format (wi.shwi 3 32)).
  vm_compute. reflexivity.
Defined.

(** [lceil (-1.5) = -1], and [lrint (-1.5)] is not folded. *)
Lemma real_to_integer_fold_of_special_operand_witness :
  fold_const_call_ss_int_real (RA := Ref.real_arith) Calc.to_integer_wide
    CASE_CFN_LCEIL Ref.real_m1_5 64 ieee_double_format
  = Some (wi.shwi (-1) 64)
  /\ fold_const_call_ss_int_real (RA := Ref.real_arith) Calc.to_integer_wide
       CASE_CFN_LRINT Ref.real_m1_5 64 ieee_double_format = None.
Proof.
  split.
  - apply (proj1 (real_to_integer_fold_of_special_operand Ref.real_arith
                    Calc.to_integer_wide CASE_CFN_LCEIL Ref.real_m1_5 64
                    ieee_double_format) (wi.shwi (-1) 64)).
    + simpl. auto.
    + split; [reflexivity | vm_compute; reflexivity].
  - apply (proj1 (proj2 (proj2 (proj2
             (real_to_integer_fold_of_special_operand Ref.real_arith
                Calc.to_integer_wide CASE_CFN_LRINT Ref.real_m1_5 64
                ieee_double_format))))).
    simpl. auto.
Defined.

(** The sum of the vector 1, 2, 3 from 10 is a constant. *)
Lemma reductions_fold_to_constants_witness :
  fold_const_fold_left Calc.const_binop Ref.int_type (Calc.int_cst 10)
    (VECTOR_CST (Calc.int_cst 1) [Calc.int_cst 2; Calc.int_cst 3] true)
    PLUS_EXPR = Some (Calc.int_cst 16)
  /\ CONSTANT_CLASS_P (Calc.int_cst 16) = true.
Proof.
  assert (H : fold_const_fold_left Calc.const_binop Ref.int_type
                (Calc.int_cst 10)
                (VECTOR_CST (Calc.int_cst 1)
                   [Calc.int_cst 2; Calc.int_cst 3] true)
                PLUS_EXPR = Some (Calc.int_cst 16))
    by (vm_compute; reflexivity).
  split; [exact H |].
  exact (proj1 (proj1 (reductions_fold_to_constants Calc.const_binop
                         Ref.int_type PLUS_EXPR (Calc.int_cst 10)
                         (VECTOR_CST (Calc.int_cst 1)
                            [Calc.int_cst 2; Calc.int_cst 3] true))
                  (Calc.int_cst 16) H)).
Defined.

(** [200 + 100 + 1] and [3 - 5 - 1] in 8 bits. *)
Lemma add_with_carry_is_exact_witness :
  fold_const_call_args3_carry Calc.no_default_ext3 CFN_UADDC
    (COMPLEX_TYPE (INTEGER_TYPE 8 UNSIGNED QImode))
    (Calc.uchar 200) (Calc.uchar 100) (Calc.uchar 1)
  = Some (COMPLEX_CST (COMPLEX_TYPE (INTEGER_TYPE 8 UNSIGNED QImode))
            (Calc.uchar 45) (Calc.uchar 1))
  /\ fold_const_call_args3_carry Calc.no_default_ext3 CFN_USUBC
       (COMPLEX_TYPE (INTEGER_TYPE 8 UNSIGNED QImode))
       (Calc.uchar 3) (Calc.uchar 5) (Calc.uchar 1)
     = Some (COMPLEX_CST (COMPLEX_TYPE (INTEGER_TYPE 8 UNSIGNED QImode))
               (Calc.uchar 253) (Calc.uchar 1)).
Proof.
  split.
  - exact (proj1 (add_with_carry_is_exact Calc.no_default_ext3 8 QImode
                    (INTEGER_TYPE 8 UNSIGNED QImode)
                    (INTEGER_TYPE 8 UNSIGNED QImode)
                    (INTEGER_TYPE 8 UNSIGNED QImode) 200 100 1
                    ltac:(reflexivity) ltac:(simpl; lia) ltac:(simpl; lia)
                    ltac:(simpl; lia))).
  - exact (proj2 (add_with_carry_is_exact Calc.no_default_ext3 8 QImode
                    (INTEGER_TYPE 8 UNSIGNED QImode)
                    (INTEGER_TYPE 8 UNSIGNED QImode)
                    (INTEGER_TYPE 8 UNSIGNED QImode) 3 5 1
                    ltac:(reflexivity) ltac:(simpl; lia) ltac:(simpl; lia)
                    ltac:(simpl; lia))).
Defined.

(** [0x01ff + 0x0001] in two limbs of 8 bits. *)
Lemma add_with_carry_chains_witness :
  exists lo c0 hi c1,
    fold_const_call_args3_carry Calc.no_default_ext3 CFN_UADDC
      (COMPLEX_TYPE (INTEGER_TYPE 8 UNSIGNED QImode))
      (Calc.uchar 255) (Calc.uchar 1) (Calc.uchar 0)
    = Some (COMPLEX_CST (COMPLEX_TYPE (INTEGER_TYPE 8 UNSIGNED QImode))
              (Calc.uchar lo) (Calc.uchar c0))
    /\ fold_const_call_args3_carry Calc.no_default_ext3 CFN_UADDC
         (COMPLEX_TYPE (INTEGER_TYPE 8 UNSIGNED QImode))
         (Calc.uchar 1) (Calc.uchar 0) (Calc.uchar c0)
       = Some (COMPLEX_CST (COMPLEX_TYPE (INTEGER_TYPE 8 UNSIGNED QImode))
                 (Calc.uchar hi) (Calc.uchar c1))
    /\ 0 <= lo < 2 ^ Z.of_N 8 /\ 0 <= hi < 2 ^ Z.of_N 8 /\ 0 <= c1 <= 1
    /\ lo + 2 ^ Z.of_N 8 * hi + 2 ^ Z.of_N 8 * 2 ^ Z.of_N 8 * c1
       = (255 + 2 ^ Z.of_N 8 * 1) + (1 + 2 ^ Z.of_N 8 * 0).
Proof.
  exact (proj1 (add_with_carry_chains Calc.no_default_ext3 8 QImode
                  255 1 1 0
                  ltac:(reflexivity) ltac:(simpl; lia) ltac:(simpl; lia)
                  ltac:(simpl; lia) ltac:(simpl; lia))).
Defined.

(** An overflowed operand. *)
Lemma checked_arithmetic_operands_witness :
  fold_const_call_args2 Ref.no_default2 CFN_ADD_OVERFLOW
    (COMPLEX_TYPE Ref.int_type) (INTEGER_CST Ref.int_type 1 true)
    (Calc.int_cst 2) = None.
Proof.
  apply (proj2 (checked_arithmetic_operands Ref.no_default2 CFN_ADD_OVERFLOW
                  (COMPLEX_TYPE Ref.int_type)
                  (INTEGER_CST Ref.int_type 1 true) (Calc.int_cst 2)));
    simpl; auto 10.
Defined.

(** [strcmp ("abc", "xyz")]. *)
Lemma strcmp_folds_to_the_sign_witness :
  exists r,
    -1 <= r <= 1
    /\ build_int_cst Ref.int_type (-1) = build_int_cst Ref.int_type r
    /\ fold_const_call_args2_str (TG := Ref.target) Calc.no_default_ext2
         CFN_BUILT_IN_STRCMP Ref.int_type Ref.lit_xyz Ref.lit_abc
       = Some (build_int_cst Ref.int_type (- r))
    /\ (r = 0 <-> c_getstr Ref.lit_abc = c_getstr Ref.lit_xyz)
    /\ exists p0 p1,
         c_getstr Ref.lit_abc = Some p0
         /\ c_getstr Ref.lit_xyz = Some p1
         /\ r = Z.sgn (strcmp p0 p1)
         /\ (unsigned_chars p0 -> unsigned_chars p1 ->
             r = comparison_sign (lex_compare p0 p1)).
Proof.
  apply (strcmp_folds_to_the_sign Ref.target Calc.no_default_ext2
           Ref.int_type Ref.lit_abc Ref.lit_xyz
           (build_int_cst Ref.int_type (-1))).
  vm_compute. reflexivity.
Defined.

(** [strcasecmp ("abc", "abc")]. *)
Lemma case_insensitive_comparisons_fold_only_to_zero_witness :
  build_int_cst Ref.int_type 0 = build_int_cst Ref.int_type 0
  /\ c_getstr Ref.lit_abc = c_getstr Ref.lit_abc
  /\ fold_const_call_args2_str (TG := Ref.target) Calc.no_default_ext2
       CFN_BUILT_IN_STRCMP Ref.int_type Ref.lit_abc Ref.lit_abc
     = Some (build_int_cst Ref.int_type 0).
Proof.
  apply (proj1 (case_insensitive_comparisons_fold_only_to_zero Ref.target
                  Calc.no_default_ext2 Ref.no_default3 Ref.int_type
                  Ref.lit_abc Ref.lit_abc Ref.size_zero)).
  vm_compute. reflexivity.
Defined.

(** [memcmp ("abc", "xyz", 3)], and a bound of 5 on literals of 4
    bytes. *)
Lemma memcmp_compares_within_the_literals_witness :
  (exists r,
      -1 <= r <= 1
      /\ fold_const_call_args3 (TG := Ref.target) Ref.no_default3
           CFN_BUILT_IN_MEMCMP Ref.int_type Ref.lit_abc Ref.lit_xyz
           (INTEGER_CST (INTEGER_TYPE 64 UNSIGNED DImode) 3 false)
         = Some (build_int_cst Ref.int_type r)
      /\ fold_const_call_args3 (TG := Ref.target) Ref.no_default3
           CFN_BUILT_IN_MEMCMP Ref.int_type Ref.lit_xyz Ref.lit_abc
           (INTEGER_CST (INTEGER_TYPE 64 UNSIGNED DImode) 3 false)
         = Some (build_int_cst Ref.int_type (- r))
      /\ (r = 0 <-> firstn (Z.to_nat 3) [97; 98; 99; 0]
                    = firstn (Z.to_nat 3) [120; 121; 122; 0])
      /\ r = Z.sgn (memcmp [97; 98; 99; 0] [120; 121; 122; 0] 3)
      /\ r = comparison_sign
               (lex_compare (firstn (Z.to_nat 3) [97; 98; 99; 0])
                            (firstn (Z.to_nat 3) [120; 121; 122; 0])))
  /\ fold_const_call_args3 (TG := Ref.target) Ref.no_default3
       CFN_BUILT_IN_MEMCMP Ref.int_type Ref.lit_abc Ref.lit_xyz
       (INTEGER_CST (INTEGER_TYPE 64 UNSIGNED DImode) 5 false) = None.
Proof.
  split.
  - apply (proj1 (memcmp_compares_within_the_literals Ref.target
                    Ref.no_default3 CFN_BUILT_IN_MEMCMP Ref.int_type
                    Ref.lit_abc Ref.lit_xyz
                    (INTEGER_CST (INTEGER_TYPE 64 UNSIGNED DImode) 3 false)
                    3 [97; 98; 99; 0] [120; 121; 122; 0]
                    ltac:(simpl; auto) ltac:(reflexivity) ltac:(reflexivity)
                    ltac:(reflexivity))).
    simpl. lia.
  - apply (proj2 (memcmp_compares_within_the_literals Ref.target
                    Ref.no_default3 CFN_BUILT_IN_MEMCMP Ref.int_type
                    Ref.lit_abc Ref.lit_xyz
                    (INTEGER_CST (INTEGER_TYPE 64 UNSIGNED DImode) 5 false)
                    5 [97; 98; 99; 0] [120; 121; 122; 0]
                    ltac:(simpl; auto) ltac:(reflexivity) ltac:(reflexivity)
                    ltac:(reflexivity))).
    simpl. lia.
Defined.

(** [memchr ("abc", 'c', 3)], and a bound of 5 on a literal of 4
    bytes. *)
Lemma memchr_finds_the_first_byte_witness :
  fold_const_call_args3 (TG := Ref.target) Ref.no_default3
    CFN_BUILT_IN_MEMCHR Ref.ptr_type Ref.lit_abc
    (INTEGER_CST Ref.int_type 99 false)
    (INTEGER_CST (INTEGER_TYPE 64 UNSIGNED DImode) 5 false) = None.
Proof.
  apply (proj2 (memchr_finds_the_first_byte Ref.target Ref.no_default3
                  Ref.ptr_type Ref.lit_abc
                  (INTEGER_CST Ref.int_type 99 false)
                  (INTEGER_CST (INTEGER_TYPE 64 UNSIGNED DImode) 5 false)
                  5 99 [97; 98; 99; 0]
                  ltac:(reflexivity) ltac:(reflexivity) ltac:(reflexivity))).
  simpl. lia.
Defined.

(** [strchr ("abc", 'b')]. *)
Lemma strchr_and_strrchr_find_first_and_last_witness :
  (~ In 98 ([97; 98; 99] ++ [0])
   /\ fold_const_call_args2_str (TG := Ref.target) Calc.no_default_ext2
        CFN_BUILT_IN_STRCHR Ref.ptr_type Ref.lit_abc (Calc.int_cst 98)
      = Some (build_int_cst Ref.ptr_type 0))
  \/ exists r,
       0 <= r <= strlen [97; 98; 99]
       /\ nth_error ([97; 98; 99] ++ [0]) (Z.to_nat r) = Some 98
       /\ ~ In 98 (firstn (Z.to_nat r) ([97; 98; 99] ++ [0]))
       /\ fold_const_call_args2_str (TG := Ref.target) Calc.no_default_ext2
            CFN_BUILT_IN_STRCHR Ref.ptr_type Ref.lit_abc (Calc.int_cst 98)
          = Some (fold_convert Ref.ptr_type
                    (fold_build_pointer_plus_hwi (TG := Ref.target)
                       Ref.lit_abc r)).
Proof.
  apply (proj1 (strchr_and_strrchr_find_first_and_last Ref.target
                  Calc.no_default_ext2 CFN_BUILT_IN_STRCHR Ref.ptr_type
                  Ref.lit_abc (Calc.int_cst 98) [97; 98; 99] 98
                  ltac:(reflexivity) ltac:(reflexivity))).
  simpl. auto.
Defined.

(** [strlen ("abc") = 3]. *)
Lemma strlen_is_the_offset_of_the_terminator_witness :
  exists str,
    c_getstr Ref.lit_abc = Some str
    /\ ~ In 0 str
    /\ build_int_cst Ref.int_type 3
       = build_int_cst Ref.int_type (Z.of_nat (length str))
    /\ fold_const_call_args2_str (TG := Ref.target) Calc.no_default_ext2
         CFN_BUILT_IN_STRCHR Ref.ptr_type Ref.lit_abc (Calc.int_cst 0)
       = Some (fold_convert Ref.ptr_type
                 (fold_build_pointer_plus_hwi (TG := Ref.target) Ref.lit_abc
                    (Z.of_nat (length str))))
    /\ fold_const_call_args2_str (TG := Ref.target) Calc.no_default_ext2
         CFN_BUILT_IN_STRRCHR Ref.ptr_type Ref.lit_abc (Calc.int_cst 0)
       = Some (fold_convert Ref.ptr_type
                 (fold_build_pointer_plus_hwi (TG := Ref.target) Ref.lit_abc
                    (Z.of_nat (length str)))).
Proof.
  apply (strlen_is_the_offset_of_the_terminator Ref.target
           Calc.no_default_ext1 Calc.no_default_ext2 Ref.int_type
           Ref.ptr_type Ref.lit_abc (Calc.int_cst 0)
           (build_int_cst Ref.int_type 3));
    reflexivity.
Defined.

(** [strstr] of a call and of the empty string. *)
Lemma strstr_finds_the_first_occurrence_witness :
  fold_const_call_args2_str (TG := Ref.target) Calc.no_default_ext2
    CFN_BUILT_IN_STRSTR Ref.ptr_type Ref.call_expr (STRING_ADDR [0])
  = Some (fold_convert Ref.ptr_type Ref.call_expr).
Proof.
  apply (proj1 (strstr_finds_the_first_occurrence Ref.target
                  Calc.no_default_ext2 Ref.ptr_type Ref.call_expr
                  (STRING_ADDR [0]) [] ltac:(reflexivity))).
  reflexivity.
Defined.
